(** * PodMeter: the metrics collector of [main.go], embedded and verified

    The development follows [main.go]: the request handler that records a
    latency and a hop count into a bounded window, the header heuristics
    that count proxy and service-mesh hops, the statistics endpoint with
    its nearest-rank percentiles and two-decimal rounding, and the cached
    probe for the Envoy sidecar.

    The library function [sort.Float64s] enters by its contract (the
    slice in ascending order), not by its algorithm: what is proved of the
    percentiles holds for every sort that meets it.

    Go's [float64] is IEEE 754 binary64; it is modelled by the
    specification floats of the standard library ([SpecFloat]) at
    precision 53 and maximal exponent 1024.  Go's [int] and [int64] are
    64-bit two's complement integers, modelled in [Z] with the wrap-around
    written out. *)

From stdpp Require Import gmap strings list sorting.
From Stdlib Require Import ZArith Lia SpecFloat Ascii Sorting.Sorted Sorting.Permutation.
From Stdlib Require String.

Open Scope Z_scope.

(** ** 64-bit integers *)

Module Int64.

Definition min_int : Z := - 2 ^ 63.
Definition max_int : Z := 2 ^ 63 - 1.

(** Two's complement wrap-around into [[-2^63, 2^63)]. *)
Definition wrap (z : Z) : Z := (z + 2 ^ 63) mod 2 ^ 64 - 2 ^ 63.

Definition in_range (z : Z) : Prop := min_int <= z <= max_int.

(** [x + y] on [int64] (also the value stored by [atomic.Int64.Add]). *)
Definition add (x y : Z) : Z := wrap (x + y).

Definition sub (x y : Z) : Z := wrap (x - y).

End Int64.

(** ** binary64 floating point *)

Module F64.

Definition prec : Z := 53.
Definition emax : Z := 1024.

Definition float64 : Type := spec_float.

Definition zero : float64 := S754_zero false.

Definition add : float64 -> float64 -> float64 := SFadd prec emax.
Definition mul : float64 -> float64 -> float64 := SFmul prec emax.
Definition div : float64 -> float64 -> float64 := SFdiv prec emax.

(** Go's [x < y] and [x > y] on floats: false as soon as a NaN is involved. *)
Definition ltb (x y : float64) : bool := SFltb x y.
Definition gtb (x y : float64) : bool := SFltb y x.

Definition is_nan (x : float64) : bool :=
  match x with S754_nan => true | _ => false end.

(** The conversion [float64(n)] of an integer: round to nearest, ties to
    even. *)
Definition of_int (n : Z) : float64 := binary_normalize prec emax n 0 false.

(** Floating-point literals of the source denote the nearest binary64
    number of their decimal value, which the correctly rounded quotient of
    two exactly representable integers computes. *)
Definition lit (num den : Z) : float64 := div (of_int num) (of_int den).

(** [math.Ceil]: the least integer value greater than or equal to [x];
    [Ceil(±0) = ±0], [Ceil(±Inf) = ±Inf], [Ceil(NaN) = NaN].  A finite
    number with a negative exponent [e] has the magnitude [m / 2^(-e)]
    below [2^53], so the integer result is exactly representable. *)
Definition Ceil (x : float64) : float64 :=
  match x with
  | S754_finite s m e =>
      if 0 <=? e then x
      else
        let q := Z.pos m / 2 ^ (- e) in
        let exact := Z.pos m mod 2 ^ (- e) =? 0 in
        if s then (if q =? 0 then S754_zero true else of_int (- q))
        else of_int (if exact then q else q + 1)
  | _ => x
  end.

(** [math.Round]: the nearest integer, halves away from zero;
    [Round(±0) = ±0], [Round(±Inf) = ±Inf], [Round(NaN) = NaN]. *)
Definition Round (x : float64) : float64 :=
  match x with
  | S754_finite s m e =>
      if 0 <=? e then x
      else
        let q := (2 * Z.pos m + 2 ^ (- e)) / 2 ^ (- e + 1) in
        if q =? 0 then S754_zero s
        else of_int (if s then - q else q)
  | _ => x
  end.

(** The conversion [int(x)] (and [int64(x)]): the fractional part is
    discarded.  Go leaves the result open when the value does not fit; the
    amd64 instruction it compiles to gives [-2^63] there and for NaN. *)
Definition to_int (x : float64) : Z :=
  match x with
  | S754_zero _ => 0
  | S754_finite s m e =>
      let mag := if 0 <=? e then Z.pos m * 2 ^ e else Z.pos m / 2 ^ (- e) in
      let v := if s then - mag else mag in
      if (Int64.min_int <=? v) && (v <=? Int64.max_int) then v
      else Int64.min_int
  | _ => Int64.min_int
  end.

(** The literals of [main.go]. *)
Definition c0_50 : float64 := S754_finite false 4503599627370496 (-53).
Definition c0_95 : float64 := S754_finite false 8556839292003942 (-53).
Definition c0_99 : float64 := S754_finite false 8917127262193582 (-53).
Definition c0_999 : float64 := S754_finite false 8998192055486251 (-53).
Definition c100 : float64 := S754_finite false 7036874417766400 (-46).
Definition c1024 : float64 := S754_finite false 4503599627370496 (-42).
Definition c1e6 : float64 := S754_finite false 8589934592000000 (-33).
Definition c1e9 : float64 := S754_finite false 8388608000000000 (-23).
Definition one : float64 := S754_finite false 4503599627370496 (-52).

End F64.

Example F64_literals :
  F64.c0_50 = F64.lit 50 100 /\ F64.c0_95 = F64.lit 95 100 /\
  F64.c0_99 = F64.lit 99 100 /\ F64.c0_999 = F64.lit 999 1000 /\
  F64.c100 = F64.of_int 100 /\ F64.c1024 = F64.of_int 1024 /\
  F64.c1e6 = F64.of_int 1000000 /\ F64.c1e9 = F64.of_int 1000000000 /\
  F64.one = F64.of_int 1.
Proof. vm_compute. repeat split. Qed.

(** ** Request headers ([net/http]) *)

Module Http.

(** [http.Header] is a [map[string][]string]. *)
Record Request := {
  Header : gmap string (list string);
  RemoteAddr : string
}.

Definition is_lower (c : ascii) : bool :=
  (97 <=? nat_of_ascii c)%nat && (nat_of_ascii c <=? 122)%nat.
Definition is_upper (c : ascii) : bool :=
  (65 <=? nat_of_ascii c)%nat && (nat_of_ascii c <=? 90)%nat.
Definition is_digit (c : ascii) : bool :=
  (48 <=? nat_of_ascii c)%nat && (nat_of_ascii c <=? 57)%nat.
Definition to_upper (c : ascii) : ascii :=
  if is_lower c then ascii_of_nat (nat_of_ascii c - 32) else c.
Definition to_lower (c : ascii) : ascii :=
  if is_upper c then ascii_of_nat (nat_of_ascii c + 32) else c.

(** The bytes a header name may hold (RFC 7230 token characters). *)
Definition validHeaderFieldByte (c : ascii) : bool :=
  is_lower c || is_upper c || is_digit c ||
  existsb (Ascii.eqb c)
    ["!"; "#"; "$"; "%"; "&"; "'"; "*"; "+"; "-"; "."; "^"; "_"; "`"; "|"; "~"]%char.

Fixpoint all_bytes (f : ascii -> bool) (s : string) : bool :=
  match s with
  | EmptyString => true
  | String c s' => f c && all_bytes f s'
  end.

Fixpoint canon (upper : bool) (s : string) : string :=
  match s with
  | EmptyString => EmptyString
  | String c s' =>
      let c' := if upper then to_upper c else to_lower c in
      String c' (canon (Ascii.eqb c' "-") s')
  end.

(** [textproto.CanonicalMIMEHeaderKey]: the first letter and every letter
    after a hyphen in upper case, the others in lower case; a name holding
    a byte that is not a token character is returned as it is. *)
Definition CanonicalMIMEHeaderKey (s : string) : string :=
  if all_bytes validHeaderFieldByte s then canon true s else s.

(** [Header.Get]: the first value stored under the canonical form of
    [key], the empty string when there is none. *)
Definition Get (h : gmap string (list string)) (key : string) : string :=
  match h !! CanonicalMIMEHeaderKey key with
  | Some (v :: _) => v
  | _ => EmptyString
  end.

(** [Header.Set]: the canonical form of [key] holds the single value. *)
Definition Set_ (h : gmap string (list string)) (key value : string)
  : gmap string (list string) :=
  <[CanonicalMIMEHeaderKey key := [value]]> h.

(** Go's test that a string is not the empty string. *)
Definition nonempty (s : string) : bool :=
  match s with EmptyString => false | String _ _ => true end.

End Http.

(** ** The hop heuristics of [main.go] *)

(** The body of [for _, c := range s { if c == ',' { count++ } }].  The
    loop ranges over the runes of [s]; a comma is a one-byte rune and no
    byte of a longer UTF-8 sequence (nor the replacement rune of an
    invalid one) equals it, so the bytes are counted. *)
Fixpoint count_commas (s : string) (count : Z) : Z :=
  match s with
  | EmptyString => count
  | String c s' =>
      count_commas s' (if Ascii.eqb c "," then Int64.add count 1 else count)
  end.

Definition countProxyHops (r : Http.Request) : Z :=
  let hops := 0 in
  let hops :=
    let xff := Http.Get (Http.Header r) "X-Forwarded-For" in
    if Http.nonempty xff then Int64.add hops (count_commas xff 1) else hops in
  let hops :=
    let via := Http.Get (Http.Header r) "Via" in
    if Http.nonempty via then Int64.add hops (count_commas via 1) else hops in
  hops.

Definition countServiceMeshHops (r : Http.Request) : Z :=
  let bump (key : string) (hops : Z) : Z :=
    if Http.nonempty (Http.Get (Http.Header r) key) then Int64.add hops 1 else hops in
  let hops := 0 in
  let hops := bump "X-Request-Id" hops in
  let hops := bump "X-Envoy-External-Address" hops in
  let hops := bump "X-Envoy-Decorator-Operation" hops in
  let hops := bump "X-B3-TraceId" hops in
  let hops := bump "X-B3-SpanId" hops in
  hops.

Definition countTotalHops (r : Http.Request) : Z :=
  Int64.add (countProxyHops r) (countServiceMeshHops r).

Definition hasIstioHeaders (r : Http.Request) : bool :=
  let h := Http.Header r in
  if Http.nonempty (Http.Get h "X-B3-TraceId") then true
  else if Http.nonempty (Http.Get h "X-Envoy-Decorator-Operation") then true
  else if Http.nonempty (Http.Get h "X-Request-Id") then true
  else if Http.nonempty (Http.Get h "X-Envoy-Attempt-Count")
          || Http.nonempty (Http.Get h "X-Envoy-Internal") then true
  else false.

(** The headers [statsHandler] echoes under [debug_headers]. *)
Definition headersToCheck : list string :=
  ["X-Forwarded-For"; "Via"; "X-Envoy-External-Address";
   "X-Envoy-Decorator-Operation"; "X-B3-TraceId"; "X-B3-SpanId";
   "X-Request-Id"; "X-Real-IP"]%string.

Definition collectDebugHeaders (r : Http.Request) : gmap string string :=
  fold_left
    (fun (m : gmap string string) hdr =>
       let val := Http.Get (Http.Header r) hdr in
       if Http.nonempty val then <[hdr := val]> m else m)
    headersToCheck ∅.

(** The answer of [debugHeadersHandler]: the headers as received and the
    hop counts. *)
Record DebugResponse := {
  headers : gmap string (list string);
  proxy_hop_count : Z;
  mesh_hop_count : Z;
  total_hop_count : Z;
  hop_count : Z;
  remote_addr : string
}.

(** The loop [for name, values := range r.Header { headers[name] = values }]
    over a map; Go leaves the order of the iteration open, [order] is the
    one taken. *)
Definition copyHeader (order : list (string * list string))
  : gmap string (list string) :=
  fold_left (fun (headers : gmap string (list string)) nv => <[nv.1 := nv.2]> headers)
    order ∅.

Definition debugHeadersHandler (r : Http.Request) : DebugResponse :=
  let headers := copyHeader (map_to_list (Http.Header r)) in
  let proxyHops := countProxyHops r in
  let meshHops := countServiceMeshHops r in
  let totalHops := Int64.add proxyHops meshHops in
  {| headers := headers;
     proxy_hop_count := proxyHops;
     mesh_hop_count := meshHops;
     total_hop_count := totalHops;
     hop_count := totalHops;
     remote_addr := Http.RemoteAddr r |}.

(** ** The sample window *)

(** The window capacity of [handler]. *)
Definition W : Z := 1000.

(** The package variables [latencies] and [proxyHops], guarded by [mu]. *)
Record Store := {
  latencies : list F64.float64;
  proxyHops : list Z
}.

(** [main]: both slices start empty (with capacity 1000). *)
Definition empty_store : Store := {| latencies := []; proxyHops := [] |}.

(** [s[1:]]: a run-time panic on an empty slice. *)
Definition slice1 {A : Type} (s : list A) : option (list A) :=
  match s with
  | [] => None
  | _ :: s' => Some s'
  end.

(** The critical section of [handler], between [mu.Lock()] and
    [mu.Unlock()]; [None] is a run-time panic. *)
Definition record (st : Store) (o : F64.float64 * Z) : option Store :=
  let latencies := latencies st ++ [o.1] in
  let proxyHops := proxyHops st ++ [o.2] in
  if Z.of_nat (length latencies) >? W then
    latencies ← slice1 latencies;
    proxyHops ← slice1 proxyHops;
    Some {| latencies := latencies; proxyHops := proxyHops |}
  else Some {| latencies := latencies; proxyHops := proxyHops |}.

(** The critical sections of a sequence of requests, in arrival order. *)
Fixpoint record_all (st : Store) (os : list (F64.float64 * Z)) : option Store :=
  match os with
  | [] => Some st
  | o :: os' => st' ← record st o; record_all st' os'
  end.

(** The last [n] elements of a list. *)
Definition lastn {A : Type} (n : nat) (l : list A) : list A :=
  drop (length l - n) l.

(** ** Percentiles and rounding *)

(** The order of [sort.Float64s]: [x < y], with the NaNs before every
    number. *)
Definition float64_less (x y : F64.float64) : bool :=
  F64.ltb x y || (F64.is_nan x && negb (F64.is_nan y)).

(** Ascending: no element is less than the one before it. *)
Definition ascending (l : list F64.float64) : Prop :=
  Sorted (fun x y => float64_less y x = false) l.

(** [sort.Float64s] is a function of the library, known by its contract:
    it sorts the slice in place, in ascending order with the NaNs first.
    The algorithm behind it (a pattern-defeating quicksort) is not stable
    and no part of the contract: elements that are not [float64_less] one
    than the other, the two zeros and the NaNs, come out in an order the
    contract leaves open.  So the sort is a parameter: any function whose
    result holds the elements of its argument, in ascending order. *)
Class SortFloat64s := {
  Float64s : list F64.float64 -> list F64.float64;
  Float64s_perm : forall data, Permutation (Float64s data) data;
  Float64s_ascending : forall data, ascending (Float64s data)
}.

(** One function of that kind, to run the examples with: the insertion
    sort. *)
Fixpoint insert_sorted (x : F64.float64) (l : list F64.float64) : list F64.float64 :=
  match l with
  | [] => [x]
  | y :: l' => if float64_less y x then y :: insert_sorted x l' else x :: y :: l'
  end.

Definition insertion (data : list F64.float64) : list F64.float64 :=
  foldr insert_sorted [] data.

(** [s[i]]: a run-time panic ([None]) outside [0 <= i < len(s)]. *)
Definition index {A : Type} (s : list A) (i : Z) : option A :=
  if i <? 0 then None else s !! Z.to_nat i.

(** [int(math.Ceil(p*float64(n))) - 1] for a slice of [n] elements. *)
Definition percentile_idx (p : F64.float64) (n : Z) : Z :=
  Int64.sub (F64.to_int (F64.Ceil (F64.mul p (F64.of_int n)))) 1.

Definition percentile `{SortFloat64s} (data : list F64.float64) (p : F64.float64)
  : option F64.float64 :=
  let copyData := [] ++ data in
  let copyData := Float64s copyData in
  let idx := percentile_idx p (Z.of_nat (length copyData)) in
  index copyData idx.

(** The same function over the memory it works in: slices are backing
    arrays named by their address.  [append([]float64{}, data...)] fills a
    newly allocated array, which [sort.Float64s] then sorts in place. *)
Module Mem.

Definition alloc (h : gmap positive (list F64.float64)) (a : list F64.float64)
  : positive * gmap positive (list F64.float64) :=
  let l := fresh (dom h) in (l, <[l := a]> h).

Definition percentile `{SortFloat64s} (h : gmap positive (list F64.float64))
    (data : positive) (p : F64.float64)
  : option (F64.float64 * gmap positive (list F64.float64)) :=
  d ← h !! data;
  let '(copyData, h) := alloc h ([] ++ d) in
  c ← h !! copyData;
  let h := <[copyData := Float64s c]> h in
  c ← h !! copyData;
  let idx := percentile_idx p (Z.of_nat (length c)) in
  v ← index c idx;
  Some (v, h).

End Mem.

Definition round (val : F64.float64) : F64.float64 :=
  F64.div (F64.Round (F64.mul val F64.c100)) F64.c100.

(** ** Time *)

Module Time.

(** An instant, in nanoseconds since the zero [time.Time]; a [Duration] is
    an [int64] count of nanoseconds. *)
Definition zero : Z := 0.

Definition Millisecond : Z := 1000000.
Definition Second : Z := 1000000000.

(** [t.Sub(u)]: the difference, or the largest (smallest) duration when it
    does not fit. *)
Definition Sub (t u : Z) : Z :=
  Z.max Int64.min_int (Z.min Int64.max_int (t - u)).

(** [time.Since(t)] at the instant [now]. *)
Definition Since (now t : Z) : Z := Sub now t.

(** [d.Milliseconds()]. *)
Definition Milliseconds (d : Z) : Z := Z.quot d 1000000.

(** [d.Seconds()]. *)
Definition Seconds (d : Z) : F64.float64 :=
  let sec := Z.quot d Second in
  let nsec := Z.rem d Second in
  F64.add (F64.of_int sec) (F64.div (F64.of_int nsec) F64.c1e9).

End Time.

(** ** The sidecar probe and its cache *)

(** What [net.DialTimeout] can answer. *)
Inductive DialResult :=
  | DialConnected
  | DialRefused
  | DialTimedOut
  | DialUnreachable.

(** The observable effect of a probe: a connection attempt to an endpoint
    with a timeout (in nanoseconds). *)
Inductive Event :=
  | EvDial (network address : string) (timeout : Z).

Definition probeEvent : Event :=
  EvDial "tcp" "127.0.0.1:15000" (50 * Time.Millisecond).

Definition probeEnvoyAdmin (d : DialResult) : bool :=
  match d with
  | DialConnected => true
  | _ => false
  end.

(** The package variables [istioPresentCached] and [istioLastChecked],
    guarded by [istioDetectMu]. *)
Record ProbeCache := {
  istioPresentCached : bool;
  istioLastChecked : Z
}.

Definition probe_init : ProbeCache :=
  {| istioPresentCached := false; istioLastChecked := Time.zero |}.

Definition cooldown : Z := 30 * Time.Second.

(** What one call of [istioSidecarPresent] reads from the world: the clock
    at the freshness test, the answer of the dial if one is made, and the
    clock when the result is stored. *)
Record ProbeWorld := {
  now_check : Z;
  dial : DialResult;
  now_store : Z
}.

(** One call of [istioSidecarPresent], run without interference: its
    result, the cache it leaves, and the probes it performed. *)
Definition istioSidecarPresent (c : ProbeCache) (w : ProbeWorld)
  : bool * ProbeCache * list Event :=
  let recent := Time.Since (now_check w) (istioLastChecked c) <? cooldown in
  let cached := istioPresentCached c in
  if recent then (cached, c, [])
  else
    let present := probeEnvoyAdmin (dial w) in
    (present,
     {| istioPresentCached := present; istioLastChecked := now_store w |},
     [probeEvent]).

(** A sequence of calls, one after the other. *)
Fixpoint istio_calls (c : ProbeCache) (ws : list ProbeWorld)
  : list bool * ProbeCache * list Event :=
  match ws with
  | [] => ([], c, [])
  | w :: ws' =>
      let '(b, c1, ev1) := istioSidecarPresent c w in
      let '(bs, c2, ev2) := istio_calls c1 ws' in
      (b :: bs, c2, ev1 ++ ev2)
  end.

(** ** The statistics endpoint *)

Module Uint64.
Definition wrap (z : Z) : Z := z mod 2 ^ 64.
Definition mul (x y : Z) : Z := wrap (x * y).
Definition sub (x y : Z) : Z := wrap (x - y).
End Uint64.

(** What [statsHandler] reads from the runtime and the host. *)
Module Host.

(** [runtime.MemStats], the fields read; [PauseNs] is an array of 256
    entries. *)
Record MemStats := {
  Alloc : Z;
  Sys : Z;
  TotalAlloc : Z;
  PauseNs : list Z;
  NumGC : Z
}.

(** [syscall.Statfs_t], the fields read. *)
Record Statfs_t := {
  Blocks : Z;
  Bavail : Z;
  Bsize : Z
}.

Record Facts := {
  memStats : MemStats;
  NumGoroutine : Z;
  GOOS : string;
  GOARCH : string;
  NumCPU_ : Z;
  (** [os.Hostname()], the empty string on error *)
  os_Hostname : string;
  (** the trimmed output of [uname -a], when the command succeeds *)
  uname : option string;
  (** the number after the first [MemTotal:] ([MemAvailable:]) of
      [/proc/meminfo] that parses, when the file opens and has one *)
  MemTotal_kb : option F64.float64;
  MemAvailable_kb : option F64.float64;
  (** [syscall.Statfs("/")], when it succeeds *)
  statfs : option Statfs_t
}.

End Host.

Definition getSystemInfo (f : Host.Facts) : string * string :=
  let hostname := Host.os_Hostname f in
  let hostname := if Http.nonempty hostname then hostname else "unknown" in
  let kernelVersion :=
    match Host.uname f with Some output => output | None => EmptyString end in
  let kernelVersion :=
    if Http.nonempty kernelVersion then kernelVersion else "unknown" in
  (hostname, kernelVersion).

Definition getTotalMemoryMB (f : Host.Facts) : F64.float64 :=
  match Host.MemTotal_kb f with
  | Some kb => round (F64.div kb F64.c1024)
  | None => F64.zero
  end.

Definition getAvailableMemoryMB (f : Host.Facts) : F64.float64 :=
  match Host.MemAvailable_kb f with
  | Some kb => round (F64.div kb F64.c1024)
  | None => F64.zero
  end.

(** ** Reading [/proc/meminfo]

    [getTotalMemoryMB] and [getAvailableMemoryMB] scan the lines of the
    file for the first one that starts with their key and carries a number
    that parses.  [strings.Fields] and [strconv.ParseFloat] are taken as
    they are: the scan is defined for whatever they compute. *)

Module Meminfo.

Section Scan.

(** [strings.Fields(line)]. *)
Variable Fields : string -> list string.

(** [strconv.ParseFloat(s, 64)], nothing when [err != nil]. *)
Variable ParseFloat : string -> option F64.float64.

(** The loop [for scanner.Scan() { ... }] over the lines that
    [scanner.Text()] gives, for the key [prefix]. *)
Fixpoint scan (prefix : string) (lines : list string) : F64.float64 :=
  match lines with
  | [] => F64.zero
  | line :: rest =>
      if String.prefix prefix line then
        let fields := Fields line in
        if Z.of_nat (length fields) >=? 2 then
          match ParseFloat (nth 1 fields EmptyString) with
          | Some kb => round (F64.div kb F64.c1024)
          | None => scan prefix rest
          end
        else scan prefix rest
      else scan prefix rest
  end.

(** [file]: the lines of [/proc/meminfo], nothing when [os.Open] fails. *)
Definition getTotalMemoryMB (file : option (list string)) : F64.float64 :=
  match file with
  | None => F64.zero
  | Some lines => scan "MemTotal:" lines
  end.

Definition getAvailableMemoryMB (file : option (list string)) : F64.float64 :=
  match file with
  | None => F64.zero
  | Some lines => scan "MemAvailable:" lines
  end.

End Scan.

End Meminfo.

Definition getDiskStats (f : Host.Facts) : F64.float64 * F64.float64 * F64.float64 :=
  match Host.statfs f with
  | None => (F64.zero, F64.zero, F64.zero)
  | Some stat =>
      let totalBytes := Uint64.mul (Host.Blocks stat) (Uint64.wrap (Host.Bsize stat)) in
      let availBytes := Uint64.mul (Host.Bavail stat) (Uint64.wrap (Host.Bsize stat)) in
      let gb (b : Z) :=
        F64.div (F64.div (F64.div (F64.of_int b) F64.c1024) F64.c1024) F64.c1024 in
      let totalGB := round (gb totalBytes) in
      let availableGB := round (gb availBytes) in
      let usagePercent :=
        if F64.gtb totalGB F64.zero then
          round (F64.mul (F64.div (F64.of_int (Uint64.sub totalBytes availBytes))
                                  (F64.of_int totalBytes)) F64.c100)
        else F64.zero in
      (totalGB, availableGB, usagePercent)
  end.

Record Stats := {
  Requests : Z;
  Errors : Z;
  RequestsPerSecond : F64.float64;
  SuccessRate : F64.float64;
  AvgLatency : F64.float64;
  P50Latency : F64.float64;
  P95Latency : F64.float64;
  P99Latency : F64.float64;
  P999Latency : F64.float64;
  MinLatency : F64.float64;
  MaxLatency : F64.float64;
  MemoryHeapMB : F64.float64;
  MemorySysMB : F64.float64;
  MemoryTotalMB : F64.float64;
  Goroutines : Z;
  GCPauseMs : F64.float64;
  NumGC : Z;
  UptimeSeconds : Z;
  CurrentHopCount : Z;
  ProxyHopCount : Z;
  ServiceMeshHops : Z;
  TotalHopCount : Z;
  AvgProxyHops : F64.float64;
  ProxyDetected : bool;
  IstioSidecar : bool;
  RequestsViaProxy : Z;
  DebugHeaders : gmap string string;
  Hostname : string;
  OS : string;
  Architecture : string;
  NumCPU : Z;
  KernelVersion : string;
  TotalMemoryMB : F64.float64;
  AvailableMemoryMB : F64.float64;
  TotalDiskGB : F64.float64;
  AvailableDiskGB : F64.float64;
  DiskUsagePercent : F64.float64
}.

(** The assignment [stats.SuccessRate = v]. *)
Definition set_SuccessRate (stats : Stats) (v : F64.float64) : Stats :=
  {| Requests := Requests stats;
     Errors := Errors stats;
     RequestsPerSecond := RequestsPerSecond stats;
     SuccessRate := v;
     AvgLatency := AvgLatency stats;
     P50Latency := P50Latency stats;
     P95Latency := P95Latency stats;
     P99Latency := P99Latency stats;
     P999Latency := P999Latency stats;
     MinLatency := MinLatency stats;
     MaxLatency := MaxLatency stats;
     MemoryHeapMB := MemoryHeapMB stats;
     MemorySysMB := MemorySysMB stats;
     MemoryTotalMB := MemoryTotalMB stats;
     Goroutines := Goroutines stats;
     GCPauseMs := GCPauseMs stats;
     NumGC := NumGC stats;
     UptimeSeconds := UptimeSeconds stats;
     CurrentHopCount := CurrentHopCount stats;
     ProxyHopCount := ProxyHopCount stats;
     ServiceMeshHops := ServiceMeshHops stats;
     TotalHopCount := TotalHopCount stats;
     AvgProxyHops := AvgProxyHops stats;
     ProxyDetected := ProxyDetected stats;
     IstioSidecar := IstioSidecar stats;
     RequestsViaProxy := RequestsViaProxy stats;
     DebugHeaders := DebugHeaders stats;
     Hostname := Hostname stats;
     OS := OS stats;
     Architecture := Architecture stats;
     NumCPU := NumCPU stats;
     KernelVersion := KernelVersion stats;
     TotalMemoryMB := TotalMemoryMB stats;
     AvailableMemoryMB := AvailableMemoryMB stats;
     TotalDiskGB := TotalDiskGB stats;
     AvailableDiskGB := AvailableDiskGB stats;
     DiskUsagePercent := DiskUsagePercent stats |}.

(** [float64(x) / 1024 / 1024]. *)
Definition toMB (x : Z) : F64.float64 :=
  F64.div (F64.div (F64.of_int x) F64.c1024) F64.c1024.

(** [memStats.PauseNs[(memStats.NumGC+255)%256]], on [uint32]. *)
Definition lastPauseNs (m : Host.MemStats) : Z :=
  nth (Z.to_nat (((Host.NumGC m + 255) mod 2 ^ 32) mod 256)) (Host.PauseNs m) 0.

(** The loop [for _, h := range proxyHopsCopy { totalHops += h }]. *)
Definition sumHops (hs : list Z) : Z := fold_left Int64.add hs 0.

(** The loop over [latenciesCopy] that accumulates the sum, the minimum
    and the maximum. *)
Definition latencyLoop (ls : list F64.float64)
    (acc : F64.float64 * F64.float64 * F64.float64)
  : F64.float64 * F64.float64 * F64.float64 :=
  fold_left
    (fun '(sum, minLat, maxLat) l =>
       (F64.add sum l,
        if F64.ltb l minLat then l else minLat,
        if F64.gtb l maxLat then l else maxLat))
    ls acc.

(** What a [statsHandler] call has read when it starts to compute: the
    copies of the window, the counters, the time since start, the verdict
    on the sidecar, and the host facts. *)
Record StatsInput := {
  in_request : Http.Request;
  latenciesCopy : list F64.float64;
  proxyHopsCopy : list Z;
  totalRequests : Z;
  totalErrors : Z;
  totalViaProxy : Z;
  sinceStart : Z;
  istioDetected : bool;
  facts : Host.Facts
}.

(** The computation of [statsHandler] after its reads; [None] is a
    run-time panic. *)
Definition computeStats `{SortFloat64s} (i : StatsInput) : option Stats :=
  let r := in_request i in
  let latenciesCopy := latenciesCopy i in
  let proxyHopsCopy := proxyHopsCopy i in
  let totalRequests := totalRequests i in
  let totalErrors := totalErrors i in
  let totalViaProxy := totalViaProxy i in
  let uptime := Time.Seconds (sinceStart i) in
  let memStats := Host.memStats (facts i) in
  let proxyHops := countProxyHops r in
  let meshHops := countServiceMeshHops r in
  let totalHops := Int64.add proxyHops meshHops in
  let currentHops := totalHops in
  let proxyDetected := totalHops >? 0 in
  let debugHeaders := collectDebugHeaders r in
  let avgHops :=
    if Z.of_nat (length proxyHopsCopy) >? 0 then
      let totalHops := sumHops proxyHopsCopy in
      round (F64.div (F64.of_int totalHops)
                     (F64.of_int (Z.of_nat (length proxyHopsCopy))))
    else F64.zero in
  let '(hostname, kernelVersion) := getSystemInfo (facts i) in
  let totalMemMB := getTotalMemoryMB (facts i) in
  let availMemMB := getAvailableMemoryMB (facts i) in
  let '(totalDiskGB, availDiskGB, diskUsagePercent) := getDiskStats (facts i) in
  if Z.of_nat (length latenciesCopy) =? 0 then
    let stats := {|
      Requests := totalRequests;
      Errors := totalErrors;
      RequestsPerSecond := round (F64.div (F64.of_int totalRequests) uptime);
      SuccessRate := F64.c100;
      AvgLatency := F64.zero;
      P50Latency := F64.zero;
      P95Latency := F64.zero;
      P99Latency := F64.zero;
      P999Latency := F64.zero;
      MinLatency := F64.zero;
      MaxLatency := F64.zero;
      MemoryHeapMB := round (toMB (Host.Alloc memStats));
      MemorySysMB := round (toMB (Host.Sys memStats));
      MemoryTotalMB := round (toMB (Host.TotalAlloc memStats));
      Goroutines := Host.NumGoroutine (facts i);
      GCPauseMs := round (F64.div (F64.of_int (lastPauseNs memStats)) F64.c1e6);
      NumGC := Host.NumGC memStats;
      UptimeSeconds := F64.to_int uptime;
      CurrentHopCount := currentHops;
      ProxyHopCount := proxyHops;
      ServiceMeshHops := meshHops;
      TotalHopCount := totalHops;
      AvgProxyHops := avgHops;
      ProxyDetected := proxyDetected;
      IstioSidecar := istioDetected i;
      RequestsViaProxy := totalViaProxy;
      DebugHeaders := debugHeaders;
      Hostname := hostname;
      OS := Host.GOOS (facts i);
      Architecture := Host.GOARCH (facts i);
      NumCPU := Host.NumCPU_ (facts i);
      KernelVersion := kernelVersion;
      TotalMemoryMB := totalMemMB;
      AvailableMemoryMB := availMemMB;
      TotalDiskGB := totalDiskGB;
      AvailableDiskGB := availDiskGB;
      DiskUsagePercent := diskUsagePercent
    |} in
    let stats :=
      if totalRequests >? 0 then
        set_SuccessRate stats
          (round (F64.mul (F64.div (F64.of_int (Int64.sub totalRequests totalErrors))
                                   (F64.of_int totalRequests)) F64.c100))
      else stats in
    Some stats
  else
    first ← index latenciesCopy 0;
    let '(sum, minLat, maxLat) := latencyLoop latenciesCopy (F64.zero, first, first) in
    p50 ← percentile latenciesCopy F64.c0_50;
    p95 ← percentile latenciesCopy F64.c0_95;
    p99 ← percentile latenciesCopy F64.c0_99;
    p999 ← percentile latenciesCopy F64.c0_999;
    let successRate :=
      if totalRequests >? 0 then
        F64.mul (F64.div (F64.of_int (Int64.sub totalRequests totalErrors))
                         (F64.of_int totalRequests)) F64.c100
      else F64.c100 in
    Some {|
      Requests := totalRequests;
      Errors := totalErrors;
      RequestsPerSecond := round (F64.div (F64.of_int totalRequests) uptime);
      SuccessRate := round successRate;
      AvgLatency := round (F64.div sum (F64.of_int (Z.of_nat (length latenciesCopy))));
      P50Latency := round p50;
      P95Latency := round p95;
      P99Latency := round p99;
      P999Latency := round p999;
      MinLatency := round minLat;
      MaxLatency := round maxLat;
      MemoryHeapMB := round (toMB (Host.Alloc memStats));
      MemorySysMB := round (toMB (Host.Sys memStats));
      MemoryTotalMB := round (toMB (Host.TotalAlloc memStats));
      Goroutines := Host.NumGoroutine (facts i);
      GCPauseMs := round (F64.div (F64.of_int (lastPauseNs memStats)) F64.c1e6);
      NumGC := Host.NumGC memStats;
      UptimeSeconds := F64.to_int uptime;
      CurrentHopCount := currentHops;
      ProxyHopCount := proxyHops;
      ServiceMeshHops := meshHops;
      TotalHopCount := totalHops;
      AvgProxyHops := avgHops;
      ProxyDetected := proxyDetected;
      IstioSidecar := istioDetected i;
      RequestsViaProxy := totalViaProxy;
      DebugHeaders := debugHeaders;
      Hostname := hostname;
      OS := Host.GOOS (facts i);
      Architecture := Host.GOARCH (facts i);
      NumCPU := Host.NumCPU_ (facts i);
      KernelVersion := kernelVersion;
      TotalMemoryMB := totalMemMB;
      AvailableMemoryMB := availMemMB;
      TotalDiskGB := totalDiskGB;
      AvailableDiskGB := availDiskGB;
      DiskUsagePercent := diskUsagePercent
    |}.

(** ** The running server

    Requests are served concurrently, one goroutine each.  The server is a
    transition system: a state holds the package variables and the
    goroutines, each at a program point of its handler with its locals; a
    step is one goroutine executing its next statement, or a new request
    arriving.  Every interleaving of the statements is a run. *)

Module Server.

(** [sync.RWMutex]: held by one writer, or by a number of readers. *)
Record RWMutex := {
  writer : bool;
  readers : nat
}.

(** Program points of [handler]: the statement to execute next. *)
Inductive HPc :=
  | H_AddRequests     (* requests.Add(1) *)
  | H_AddViaProxy     (* if hops > 0 { requestsViaProxy.Add(1) } *)
  | H_Lock            (* mu.Lock() *)
  | H_AppendLat       (* latencies = append(latencies, lat) *)
  | H_AppendHops      (* proxyHops = append(proxyHops, hops) *)
  | H_CheckLen        (* if len(latencies) > 1000 *)
  | H_SliceLat        (* latencies = latencies[1:] *)
  | H_SliceHops       (* proxyHops = proxyHops[1:] *)
  | H_Unlock          (* mu.Unlock() *)
  | H_Done
  | H_Panic.          (* a run-time panic has ended the call *)

(** Program points of [statsHandler]. *)
Inductive SPc :=
  | S_RLock           (* mu.RLock() *)
  | S_MakeLat         (* latenciesCopy := make([]float64, len(latencies)) *)
  | S_MakeHops        (* proxyHopsCopy := make([]int, len(proxyHops)) *)
  | S_CopyLat         (* copy(latenciesCopy, latencies) *)
  | S_CopyHops        (* copy(proxyHopsCopy, proxyHops) *)
  | S_RUnlock         (* mu.RUnlock() *)
  | S_LoadRequests    (* totalRequests := requests.Load() *)
  | S_LoadErrors      (* totalErrors := errors.Load() *)
  | S_LoadViaProxy    (* totalViaProxy := requestsViaProxy.Load() *)
  | S_Detect          (* hasIstioHeaders(r) || istioSidecarPresent(): the cache is read *)
  | S_Probe           (* present := probeEnvoyAdmin() *)
  | S_StoreProbe      (* the cache is written *)
  | S_Compute         (* the rest of the function, up to the response *)
  | S_Done
  | S_Panic.          (* a run-time panic has ended the call *)

(** The locals of a [statsHandler] call. *)
Record SLocals := {
  s_r : Http.Request;
  s_latenciesCopy : list F64.float64;
  s_proxyHopsCopy : list Z;
  s_totalRequests : Z;
  s_totalErrors : Z;
  s_totalViaProxy : Z;
  s_present : bool;
  s_istioDetected : bool;
  s_response : option Stats
}.

Definition locals0 (r : Http.Request) : SLocals :=
  {| s_r := r; s_latenciesCopy := []; s_proxyHopsCopy := [];
     s_totalRequests := 0; s_totalErrors := 0; s_totalViaProxy := 0;
     s_present := false; s_istioDetected := false; s_response := None |}.

Definition set_latenciesCopy (v : list F64.float64) (l : SLocals) : SLocals :=
  {| s_r := s_r l; s_latenciesCopy := v; s_proxyHopsCopy := s_proxyHopsCopy l;
     s_totalRequests := s_totalRequests l; s_totalErrors := s_totalErrors l;
     s_totalViaProxy := s_totalViaProxy l; s_present := s_present l;
     s_istioDetected := s_istioDetected l; s_response := s_response l |}.

Definition set_proxyHopsCopy (v : list Z) (l : SLocals) : SLocals :=
  {| s_r := s_r l; s_latenciesCopy := s_latenciesCopy l; s_proxyHopsCopy := v;
     s_totalRequests := s_totalRequests l; s_totalErrors := s_totalErrors l;
     s_totalViaProxy := s_totalViaProxy l; s_present := s_present l;
     s_istioDetected := s_istioDetected l; s_response := s_response l |}.

Definition set_totalRequests (v : Z) (l : SLocals) : SLocals :=
  {| s_r := s_r l; s_latenciesCopy := s_latenciesCopy l;
     s_proxyHopsCopy := s_proxyHopsCopy l;
     s_totalRequests := v; s_totalErrors := s_totalErrors l;
     s_totalViaProxy := s_totalViaProxy l; s_present := s_present l;
     s_istioDetected := s_istioDetected l; s_response := s_response l |}.

Definition set_totalErrors (v : Z) (l : SLocals) : SLocals :=
  {| s_r := s_r l; s_latenciesCopy := s_latenciesCopy l;
     s_proxyHopsCopy := s_proxyHopsCopy l;
     s_totalRequests := s_totalRequests l; s_totalErrors := v;
     s_totalViaProxy := s_totalViaProxy l; s_present := s_present l;
     s_istioDetected := s_istioDetected l; s_response := s_response l |}.

Definition set_totalViaProxy (v : Z) (l : SLocals) : SLocals :=
  {| s_r := s_r l; s_latenciesCopy := s_latenciesCopy l;
     s_proxyHopsCopy := s_proxyHopsCopy l;
     s_totalRequests := s_totalRequests l; s_totalErrors := s_totalErrors l;
     s_totalViaProxy := v; s_present := s_present l;
     s_istioDetected := s_istioDetected l; s_response := s_response l |}.

Definition set_present (v : bool) (l : SLocals) : SLocals :=
  {| s_r := s_r l; s_latenciesCopy := s_latenciesCopy l;
     s_proxyHopsCopy := s_proxyHopsCopy l;
     s_totalRequests := s_totalRequests l; s_totalErrors := s_totalErrors l;
     s_totalViaProxy := s_totalViaProxy l; s_present := v;
     s_istioDetected := s_istioDetected l; s_response := s_response l |}.

Definition set_istioDetected (v : bool) (l : SLocals) : SLocals :=
  {| s_r := s_r l; s_latenciesCopy := s_latenciesCopy l;
     s_proxyHopsCopy := s_proxyHopsCopy l;
     s_totalRequests := s_totalRequests l; s_totalErrors := s_totalErrors l;
     s_totalViaProxy := s_totalViaProxy l; s_present := s_present l;
     s_istioDetected := v; s_response := s_response l |}.

Definition set_response (v : Stats) (l : SLocals) : SLocals :=
  {| s_r := s_r l; s_latenciesCopy := s_latenciesCopy l;
     s_proxyHopsCopy := s_proxyHopsCopy l;
     s_totalRequests := s_totalRequests l; s_totalErrors := s_totalErrors l;
     s_totalViaProxy := s_totalViaProxy l; s_present := s_present l;
     s_istioDetected := s_istioDetected l; s_response := Some v |}.

(** A goroutine serving a request. *)
Inductive Thread :=
  | Handler (pc : HPc) (hops : Z) (lat : F64.float64)
  | StatsHandler (pc : SPc) (l : SLocals)
  | DebugHeadersHandler (r : Http.Request) (done : bool).

(** The state of the server.  [recorded] and [dialled] are histories kept
    for the statements of the properties, they are not read by any step:
    the observations in the order of their appends, and the probes
    made. *)
Record State := {
  mu : RWMutex;
  store : Store;
  requests : Z;
  errors : Z;
  requestsViaProxy : Z;
  probeCache : ProbeCache;
  threads : list Thread;
  recorded : list (F64.float64 * Z);
  dialled : list Event
}.

(** [main]: the zero values of the package variables and the empty
    slices, no request yet. *)
Definition init : State :=
  {| mu := {| writer := false; readers := 0 |};
     store := empty_store;
     requests := 0; errors := 0; requestsViaProxy := 0;
     probeCache := probe_init;
     threads := [];
     recorded := [];
     dialled := [] |}.

Definition set_mu (v : RWMutex) (s : State) : State :=
  {| mu := v; store := store s; requests := requests s; errors := errors s;
     requestsViaProxy := requestsViaProxy s; probeCache := probeCache s;
     threads := threads s; recorded := recorded s; dialled := dialled s |}.

Definition set_store (v : Store) (s : State) : State :=
  {| mu := mu s; store := v; requests := requests s; errors := errors s;
     requestsViaProxy := requestsViaProxy s; probeCache := probeCache s;
     threads := threads s; recorded := recorded s; dialled := dialled s |}.

Definition set_requests (v : Z) (s : State) : State :=
  {| mu := mu s; store := store s; requests := v; errors := errors s;
     requestsViaProxy := requestsViaProxy s; probeCache := probeCache s;
     threads := threads s; recorded := recorded s; dialled := dialled s |}.

Definition set_requestsViaProxy (v : Z) (s : State) : State :=
  {| mu := mu s; store := store s; requests := requests s; errors := errors s;
     requestsViaProxy := v; probeCache := probeCache s;
     threads := threads s; recorded := recorded s; dialled := dialled s |}.

Definition set_probeCache (v : ProbeCache) (s : State) : State :=
  {| mu := mu s; store := store s; requests := requests s; errors := errors s;
     requestsViaProxy := requestsViaProxy s; probeCache := v;
     threads := threads s; recorded := recorded s; dialled := dialled s |}.

Definition set_threads (v : list Thread) (s : State) : State :=
  {| mu := mu s; store := store s; requests := requests s; errors := errors s;
     requestsViaProxy := requestsViaProxy s; probeCache := probeCache s;
     threads := v; recorded := recorded s; dialled := dialled s |}.

Definition set_recorded (v : list (F64.float64 * Z)) (s : State) : State :=
  {| mu := mu s; store := store s; requests := requests s; errors := errors s;
     requestsViaProxy := requestsViaProxy s; probeCache := probeCache s;
     threads := threads s; recorded := v; dialled := dialled s |}.

Definition set_dialled (v : list Event) (s : State) : State :=
  {| mu := mu s; store := store s; requests := requests s; errors := errors s;
     requestsViaProxy := requestsViaProxy s; probeCache := probeCache s;
     threads := threads s; recorded := recorded s; dialled := v |}.

(** Goroutine [i] moves on to [t]. *)
Definition goto (i : nat) (t : Thread) (s : State) : State :=
  set_threads (<[i := t]> (threads s)) s.

(** A request arrives: a goroutine starts. *)
Definition spawn (t : Thread) (s : State) : State :=
  set_threads (threads s ++ [t]) s.

(** [copy(dst, src)]: the first [min(len(dst), len(src))] elements. *)
Definition copy {A : Type} (dst src : list A) : list A :=
  take (length dst) src ++ drop (length src) dst.

(** What [statsHandler] computes from: its locals, the time since the
    start of the process and the host facts. *)
Definition input_of (l : SLocals) (since : Z) (f : Host.Facts) : StatsInput :=
  {| in_request := s_r l;
     latenciesCopy := s_latenciesCopy l;
     proxyHopsCopy := s_proxyHopsCopy l;
     totalRequests := s_totalRequests l;
     totalErrors := s_totalErrors l;
     totalViaProxy := s_totalViaProxy l;
     sinceStart := since;
     istioDetected := s_istioDetected l;
     facts := f |}.

(** The first statements of [handler], which touch no shared variable:
    the hops of the request and the measured latency, [elapsed] being the
    time the call has taken. *)
Definition handler_start (r : Http.Request) (elapsed : Z) : Thread :=
  let hops := countTotalHops r in
  let lat := F64.of_int (Time.Milliseconds elapsed) in
  Handler H_AddRequests hops lat.

(** One statement of [handler] by goroutine [i]. *)
Inductive handler_step (i : nat) (hops : Z) (lat : F64.float64)
  : HPc -> State -> State -> Prop :=
  | hs_AddRequests s :
      handler_step i hops lat H_AddRequests s
        (goto i (Handler H_AddViaProxy hops lat)
           (set_requests (Int64.add (requests s) 1) s))
  | hs_AddViaProxy s :
      handler_step i hops lat H_AddViaProxy s
        (goto i (Handler H_Lock hops lat)
           (if hops >? 0
            then set_requestsViaProxy (Int64.add (requestsViaProxy s) 1) s
            else s))
  | hs_Lock s :
      writer (mu s) = false -> readers (mu s) = 0%nat ->
      handler_step i hops lat H_Lock s
        (goto i (Handler H_AppendLat hops lat)
           (set_mu {| writer := true; readers := 0 |} s))
  | hs_AppendLat s :
      handler_step i hops lat H_AppendLat s
        (goto i (Handler H_AppendHops hops lat)
           (set_recorded (recorded s ++ [(lat, hops)])
              (set_store {| latencies := latencies (store s) ++ [lat];
                            proxyHops := proxyHops (store s) |} s)))
  | hs_AppendHops s :
      handler_step i hops lat H_AppendHops s
        (goto i (Handler H_CheckLen hops lat)
           (set_store {| latencies := latencies (store s);
                         proxyHops := proxyHops (store s) ++ [hops] |} s))
  | hs_CheckLen s :
      handler_step i hops lat H_CheckLen s
        (goto i (Handler (if Z.of_nat (length (latencies (store s))) >? W
                          then H_SliceLat else H_Unlock) hops lat) s)
  | hs_SliceLat s l' :
      slice1 (latencies (store s)) = Some l' ->
      handler_step i hops lat H_SliceLat s
        (goto i (Handler H_SliceHops hops lat)
           (set_store {| latencies := l'; proxyHops := proxyHops (store s) |} s))
  | hs_SliceLat_panic s :
      slice1 (latencies (store s)) = None ->
      handler_step i hops lat H_SliceLat s (goto i (Handler H_Panic hops lat) s)
  | hs_SliceHops s h' :
      slice1 (proxyHops (store s)) = Some h' ->
      handler_step i hops lat H_SliceHops s
        (goto i (Handler H_Unlock hops lat)
           (set_store {| latencies := latencies (store s); proxyHops := h' |} s))
  | hs_SliceHops_panic s :
      slice1 (proxyHops (store s)) = None ->
      handler_step i hops lat H_SliceHops s (goto i (Handler H_Panic hops lat) s)
  | hs_Unlock s :
      handler_step i hops lat H_Unlock s
        (goto i (Handler H_Done hops lat)
           (set_mu {| writer := false; readers := readers (mu s) |} s)).

(** The sort that [percentile] calls is the one the program is linked
    with, whichever it is. *)
Section WithSort.
Context `{srt : SortFloat64s}.

(** One statement of [statsHandler] by goroutine [i]. *)
Inductive stats_step (i : nat) (l : SLocals) : SPc -> State -> State -> Prop :=
  | ss_RLock s :
      writer (mu s) = false ->
      stats_step i l S_RLock s
        (goto i (StatsHandler S_MakeLat l)
           (set_mu {| writer := false; readers := S (readers (mu s)) |} s))
  | ss_MakeLat s :
      stats_step i l S_MakeLat s
        (goto i (StatsHandler S_MakeHops
                   (set_latenciesCopy
                      (replicate (length (latencies (store s))) F64.zero) l)) s)
  | ss_MakeHops s :
      stats_step i l S_MakeHops s
        (goto i (StatsHandler S_CopyLat
                   (set_proxyHopsCopy
                      (replicate (length (proxyHops (store s))) 0) l)) s)
  | ss_CopyLat s :
      stats_step i l S_CopyLat s
        (goto i (StatsHandler S_CopyHops
                   (set_latenciesCopy
                      (copy (s_latenciesCopy l) (latencies (store s))) l)) s)
  | ss_CopyHops s :
      stats_step i l S_CopyHops s
        (goto i (StatsHandler S_RUnlock
                   (set_proxyHopsCopy
                      (copy (s_proxyHopsCopy l) (proxyHops (store s))) l)) s)
  | ss_RUnlock s :
      stats_step i l S_RUnlock s
        (goto i (StatsHandler S_LoadRequests l)
           (set_mu {| writer := writer (mu s); readers := pred (readers (mu s)) |} s))
  | ss_LoadRequests s :
      stats_step i l S_LoadRequests s
        (goto i (StatsHandler S_LoadErrors (set_totalRequests (requests s) l)) s)
  | ss_LoadErrors s :
      stats_step i l S_LoadErrors s
        (goto i (StatsHandler S_LoadViaProxy (set_totalErrors (errors s) l)) s)
  | ss_LoadViaProxy s :
      stats_step i l S_LoadViaProxy s
        (goto i (StatsHandler S_Detect (set_totalViaProxy (requestsViaProxy s) l)) s)
  | ss_Detect_headers s :
      hasIstioHeaders (s_r l) = true ->
      stats_step i l S_Detect s
        (goto i (StatsHandler S_Compute (set_istioDetected true l)) s)
  | ss_Detect_cached s now :
      hasIstioHeaders (s_r l) = false ->
      (Time.Since now (istioLastChecked (probeCache s)) <? cooldown) = true ->
      stats_step i l S_Detect s
        (goto i (StatsHandler S_Compute
                   (set_istioDetected (istioPresentCached (probeCache s)) l)) s)
  | ss_Detect_stale s now :
      hasIstioHeaders (s_r l) = false ->
      (Time.Since now (istioLastChecked (probeCache s)) <? cooldown) = false ->
      stats_step i l S_Detect s (goto i (StatsHandler S_Probe l) s)
  | ss_Probe s d :
      stats_step i l S_Probe s
        (goto i (StatsHandler S_StoreProbe (set_present (probeEnvoyAdmin d) l))
           (set_dialled (dialled s ++ [probeEvent]) s))
  | ss_StoreProbe s now :
      stats_step i l S_StoreProbe s
        (goto i (StatsHandler S_Compute (set_istioDetected (s_present l) l))
           (set_probeCache {| istioPresentCached := s_present l;
                              istioLastChecked := now |} s))
  | ss_Compute s since f resp :
      computeStats (input_of l since f) = Some resp ->
      stats_step i l S_Compute s
        (goto i (StatsHandler S_Done (set_response resp l)) s)
  | ss_Compute_panic s since f :
      computeStats (input_of l since f) = None ->
      stats_step i l S_Compute s (goto i (StatsHandler S_Panic l) s).

(** One step of the server. *)
Inductive step : State -> State -> Prop :=
  | step_request s r elapsed :
      step s (spawn (handler_start r elapsed) s)
  | step_stats_request s r :
      step s (spawn (StatsHandler S_RLock (locals0 r)) s)
  | step_debug_request s r :
      step s (spawn (DebugHeadersHandler r false) s)
  | step_handler s s' i pc hops lat :
      threads s !! i = Some (Handler pc hops lat) ->
      handler_step i hops lat pc s s' ->
      step s s'
  | step_stats s s' i pc l :
      threads s !! i = Some (StatsHandler pc l) ->
      stats_step i l pc s s' ->
      step s s'
  | step_debug s i r :
      threads s !! i = Some (DebugHeadersHandler r false) ->
      step s (goto i (DebugHeadersHandler r true) s).

(** The states the server can be in. *)
Inductive reachable : State -> Prop :=
  | reachable_init : reachable init
  | reachable_step s s' : reachable s -> step s s' -> reachable s'.

(** *** Running a schedule

    The same steps as a function: the scheduler picks the goroutine that
    runs and the world gives what the statement reads (the clock, the
    answer of the dial, the time since start, the host facts).  A
    goroutine that waits for the mutex, or has finished, does not run. *)

Record World := {
  w_now : Z;
  w_dial : DialResult;
  w_since : Z;
  w_facts : Host.Facts
}.

Inductive Action :=
  | Request (r : Http.Request) (elapsed : Z)
  | StatsRequest (r : Http.Request)
  | DebugRequest (r : Http.Request)
  | Run (i : nat) (w : World).

Definition exec_handler (i : nat) (hops : Z) (lat : F64.float64) (pc : HPc)
    (s : State) : option State :=
  match pc with
  | H_AddRequests =>
      Some (goto i (Handler H_AddViaProxy hops lat)
              (set_requests (Int64.add (requests s) 1) s))
  | H_AddViaProxy =>
      Some (goto i (Handler H_Lock hops lat)
              (if hops >? 0
               then set_requestsViaProxy (Int64.add (requestsViaProxy s) 1) s
               else s))
  | H_Lock =>
      if writer (mu s) then None
      else match readers (mu s) with
           | O => Some (goto i (Handler H_AppendLat hops lat)
                          (set_mu {| writer := true; readers := 0 |} s))
           | S _ => None
           end
  | H_AppendLat =>
      Some (goto i (Handler H_AppendHops hops lat)
              (set_recorded (recorded s ++ [(lat, hops)])
                 (set_store {| latencies := latencies (store s) ++ [lat];
                               proxyHops := proxyHops (store s) |} s)))
  | H_AppendHops =>
      Some (goto i (Handler H_CheckLen hops lat)
              (set_store {| latencies := latencies (store s);
                            proxyHops := proxyHops (store s) ++ [hops] |} s))
  | H_CheckLen =>
      Some (goto i (Handler (if Z.of_nat (length (latencies (store s))) >? W
                             then H_SliceLat else H_Unlock) hops lat) s)
  | H_SliceLat =>
      match slice1 (latencies (store s)) with
      | Some l' =>
          Some (goto i (Handler H_SliceHops hops lat)
                  (set_store {| latencies := l';
                                proxyHops := proxyHops (store s) |} s))
      | None => Some (goto i (Handler H_Panic hops lat) s)
      end
  | H_SliceHops =>
      match slice1 (proxyHops (store s)) with
      | Some h' =>
          Some (goto i (Handler H_Unlock hops lat)
                  (set_store {| latencies := latencies (store s);
                                proxyHops := h' |} s))
      | None => Some (goto i (Handler H_Panic hops lat) s)
      end
  | H_Unlock =>
      Some (goto i (Handler H_Done hops lat)
              (set_mu {| writer := false; readers := readers (mu s) |} s))
  | H_Done | H_Panic => None
  end.

Definition exec_stats (i : nat) (l : SLocals) (pc : SPc) (w : World)
    (s : State) : option State :=
  match pc with
  | S_RLock =>
      if writer (mu s) then None
      else Some (goto i (StatsHandler S_MakeLat l)
                   (set_mu {| writer := false; readers := S (readers (mu s)) |} s))
  | S_MakeLat =>
      Some (goto i (StatsHandler S_MakeHops
                      (set_latenciesCopy
                         (replicate (length (latencies (store s))) F64.zero) l)) s)
  | S_MakeHops =>
      Some (goto i (StatsHandler S_CopyLat
                      (set_proxyHopsCopy
                         (replicate (length (proxyHops (store s))) 0) l)) s)
  | S_CopyLat =>
      Some (goto i (StatsHandler S_CopyHops
                      (set_latenciesCopy
                         (copy (s_latenciesCopy l) (latencies (store s))) l)) s)
  | S_CopyHops =>
      Some (goto i (StatsHandler S_RUnlock
                      (set_proxyHopsCopy
                         (copy (s_proxyHopsCopy l) (proxyHops (store s))) l)) s)
  | S_RUnlock =>
      Some (goto i (StatsHandler S_LoadRequests l)
              (set_mu {| writer := writer (mu s);
                         readers := pred (readers (mu s)) |} s))
  | S_LoadRequests =>
      Some (goto i (StatsHandler S_LoadErrors (set_totalRequests (requests s) l)) s)
  | S_LoadErrors =>
      Some (goto i (StatsHandler S_LoadViaProxy (set_totalErrors (errors s) l)) s)
  | S_LoadViaProxy =>
      Some (goto i (StatsHandler S_Detect
                      (set_totalViaProxy (requestsViaProxy s) l)) s)
  | S_Detect =>
      if hasIstioHeaders (s_r l) then
        Some (goto i (StatsHandler S_Compute (set_istioDetected true l)) s)
      else if Time.Since (w_now w) (istioLastChecked (probeCache s)) <? cooldown then
        Some (goto i (StatsHandler S_Compute
                        (set_istioDetected (istioPresentCached (probeCache s)) l)) s)
      else Some (goto i (StatsHandler S_Probe l) s)
  | S_Probe =>
      Some (goto i (StatsHandler S_StoreProbe
                      (set_present (probeEnvoyAdmin (w_dial w)) l))
              (set_dialled (dialled s ++ [probeEvent]) s))
  | S_StoreProbe =>
      Some (goto i (StatsHandler S_Compute (set_istioDetected (s_present l) l))
              (set_probeCache {| istioPresentCached := s_present l;
                                 istioLastChecked := w_now w |} s))
  | S_Compute =>
      match computeStats (input_of l (w_since w) (w_facts w)) with
      | Some resp => Some (goto i (StatsHandler S_Done (set_response resp l)) s)
      | None => Some (goto i (StatsHandler S_Panic l) s)
      end
  | S_Done | S_Panic => None
  end.

Definition exec (s : State) (a : Action) : option State :=
  match a with
  | Request r elapsed => Some (spawn (handler_start r elapsed) s)
  | StatsRequest r => Some (spawn (StatsHandler S_RLock (locals0 r)) s)
  | DebugRequest r => Some (spawn (DebugHeadersHandler r false) s)
  | Run i w =>
      match threads s !! i with
      | Some (Handler pc hops lat) => exec_handler i hops lat pc s
      | Some (StatsHandler pc l) => exec_stats i l pc w s
      | Some (DebugHeadersHandler r false) =>
          Some (goto i (DebugHeadersHandler r true) s)
      | _ => None
      end
  end.

Fixpoint run (s : State) (sched : list Action) : option State :=
  match sched with
  | [] => Some s
  | a :: sched' => s' ← exec s a; run s' sched'
  end.

End WithSort.

End Server.

(* ================================================================== *)
(** * Part II: properties of the program *)
(* ================================================================== *)

(** ** A sort that meets the contract *)

Lemma SFltb_asym (x y : spec_float) : SFltb x y = true -> SFltb y x = false.
Proof.
  unfold SFltb, SFcompare.
  destruct x as [sx | sx | | sx mx ex], y as [sy | sy | | sy my ey];
    try destruct sx; try destruct sy; try discriminate; try reflexivity.
  - rewrite (Z.compare_antisym ex ey).
    destruct (ex ?= ey) eqn:E; cbn [CompOpp]; try discriminate; try reflexivity.
    change (Pos.compare_cont Eq my mx) with (Pos.compare my mx).
    change (Pos.compare_cont Eq mx my) with (Pos.compare mx my).
    rewrite (Pos.compare_antisym mx my).
    destruct (Pos.compare mx my); cbn [CompOpp]; try discriminate; reflexivity.
  - rewrite (Z.compare_antisym ex ey).
    destruct (ex ?= ey) eqn:E; cbn [CompOpp]; try discriminate; try reflexivity.
    change (Pos.compare_cont Eq my mx) with (Pos.compare my mx).
    change (Pos.compare_cont Eq mx my) with (Pos.compare mx my).
    rewrite (Pos.compare_antisym mx my).
    destruct (Pos.compare mx my); cbn [CompOpp]; try discriminate; reflexivity.
Qed.

Lemma SFltb_nan (x y : spec_float) :
  SFltb x y = true -> F64.is_nan x = false /\ F64.is_nan y = false.
Proof.
  unfold SFltb, SFcompare.
  destruct x as [sx | sx | | sx mx ex], y as [sy | sy | | sy my ey];
    try discriminate; split; reflexivity.
Qed.

Lemma float64_less_asym (x y : F64.float64) :
  float64_less x y = true -> float64_less y x = false.
Proof.
  unfold float64_less, F64.ltb. intros H.
  apply orb_true_iff in H as [H | H].
  - rewrite (SFltb_asym _ _ H). destruct (SFltb_nan _ _ H) as [_ ->]. reflexivity.
  - apply andb_true_iff in H as [Hx Hy]. apply negb_true_iff in Hy.
    rewrite Hy. rewrite orb_false_r.
    destruct x; try discriminate. destruct y; reflexivity.
Qed.

Lemma insert_sorted_perm (x : F64.float64) (l : list F64.float64) :
  Permutation (insert_sorted x l) (x :: l).
Proof.
  induction l as [| y l IH]; cbn [insert_sorted].
  - reflexivity.
  - destruct (float64_less y x).
    + rewrite IH. apply perm_swap.
    + reflexivity.
Qed.

Lemma insert_sorted_ascending (x : F64.float64) (l : list F64.float64) :
  ascending l -> ascending (insert_sorted x l).
Proof.
  unfold ascending. induction l as [| y l IH]; intros Hl; cbn [insert_sorted].
  - repeat constructor.
  - destruct (float64_less y x) eqn:E.
    + inversion Hl as [| ? ? Hl' Hhd]; subst.
      constructor; [apply IH; assumption |].
      destruct l as [| z l]; cbn [insert_sorted].
      * constructor. apply float64_less_asym. assumption.
      * destruct (float64_less z x).
        -- inversion Hhd; subst. constructor. assumption.
        -- constructor. apply float64_less_asym. assumption.
    + constructor; [assumption |]. constructor. assumption.
Qed.

Lemma insertion_perm (data : list F64.float64) : Permutation (insertion data) data.
Proof.
  induction data as [| x data IH]; cbn [insertion foldr].
  - reflexivity.
  - fold (insertion data). rewrite insert_sorted_perm. constructor. assumption.
Qed.

Lemma insertion_ascending (data : list F64.float64) : ascending (insertion data).
Proof.
  induction data as [| x data IH]; cbn [insertion foldr].
  - constructor.
  - apply insert_sorted_ascending. assumption.
Qed.

(** The insertion sort meets the contract of [sort.Float64s]. *)
Definition insertion_sort : SortFloat64s :=
  {| Float64s := insertion;
     Float64s_perm := insertion_perm;
     Float64s_ascending := insertion_ascending |}.

(** ** The order of [sort.Float64s] *)

(** A key in [Z * Z * Z], ordered lexicographically, that orders the
    floats as [float64_less] does: the NaNs first, then the numbers from
    minus infinity to infinity, the two zeros together. *)
Definition sort_key (x : F64.float64) : Z * Z * Z :=
  match x with
  | S754_nan => (-3, 0, 0)
  | S754_infinity true => (-2, 0, 0)
  | S754_finite true m e => (-1, - e, - Z.pos m)
  | S754_zero _ => (0, 0, 0)
  | S754_finite false m e => (1, e, Z.pos m)
  | S754_infinity false => (2, 0, 0)
  end.

Definition sort_key_lt (a b : Z * Z * Z) : Prop :=
  a.1.1 < b.1.1 \/
  (a.1.1 = b.1.1 /\ (a.1.2 < b.1.2 \/ (a.1.2 = b.1.2 /\ a.2 < b.2))).

Lemma float64_less_sort_key (x y : F64.float64) :
  float64_less x y = true <-> sort_key_lt (sort_key x) (sort_key y).
Proof.
  unfold float64_less, F64.ltb, SFltb, SFcompare, sort_key_lt.
  destruct x as [sx | sx | | sx mx ex], y as [sy | sy | | sy my ey];
    try destruct sx; try destruct sy; cbn;
    try (split; [discriminate | lia]); try (split; [lia | reflexivity]).
  - change (Pos.compare_cont Eq mx my) with (Pos.compare mx my).
    destruct (Z.compare_spec ex ey); [| split; [discriminate | lia] | split; [lia | reflexivity]].
    destruct (Pos.compare_spec mx my); cbn; split; try discriminate; try lia; reflexivity.
  - change (Pos.compare_cont Eq mx my) with (Pos.compare mx my).
    destruct (Z.compare_spec ex ey); [| split; [lia | reflexivity] | split; [discriminate | lia]].
    destruct (Pos.compare_spec mx my); cbn; split; try discriminate; try lia; reflexivity.
Qed.

Lemma float64_less_false_sort_key (x y : F64.float64) :
  float64_less y x = false <-> ~ sort_key_lt (sort_key y) (sort_key x).
Proof.
  rewrite <- float64_less_sort_key. destruct (float64_less y x); split; congruence.
Qed.

(** The keys in their order: [a] comes before [b], or they are equal. *)
Definition sort_key_le (a b : Z * Z * Z) : Prop := ~ sort_key_lt b a.

Lemma sort_key_le_trans : Transitive sort_key_le.
Proof. intros a b c. unfold sort_key_le, sort_key_lt. lia. Qed.

Lemma sort_key_le_antisym : AntiSymm eq sort_key_le.
Proof.
  intros [[a1 a2] a3] [[b1 b2] b3]. unfold sort_key_le, sort_key_lt. cbn.
  intros H1 H2. assert (a1 = b1 /\ a2 = b2 /\ a3 = b3) as (-> & -> & ->) by lia.
  reflexivity.
Qed.

(** Floats with the same key are the same float, or two zeros. *)
Lemma sort_key_inj (v w : F64.float64) :
  sort_key v = sort_key w ->
  v = w \/ exists s s', v = S754_zero s /\ w = S754_zero s'.
Proof.
  destruct v as [sv | sv | | sv mv ev], w as [sw | sw | | sw mw ew];
    try destruct sv; try destruct sw; cbn; intros [= ]; subst;
    try (left; reflexivity); try (right; eauto; fail).
  left. f_equal. lia.
Qed.

(** Two ascending arrangements of the same elements hold the same number
    at every index; only the sign of a zero may differ. *)
Lemma ascending_unique (s1 s2 : list F64.float64) (i : nat) (v w : F64.float64) :
  ascending s1 -> ascending s2 -> Permutation s1 s2 ->
  s1 !! i = Some v -> s2 !! i = Some w ->
  v = w \/ exists s s', v = S754_zero s /\ w = S754_zero s'.
Proof.
  intros H1 H2 Hp Hv Hw. apply sort_key_inj.
  assert (Hk : forall s, ascending s -> Sorted sort_key_le (sort_key <$> s)).
  { intros s Hs. apply (Sorted_fmap sort_key (fun x y => float64_less y x = false)); [| exact Hs].
    intros x y Hxy. apply float64_less_false_sort_key. exact Hxy. }
  assert (E : sort_key <$> s1 = sort_key <$> s2).
  { apply (@Sorted_unique _ sort_key_le sort_key_le_trans sort_key_le_antisym); [apply Hk, H1 | apply Hk, H2 |].
    apply fmap_Permutation. exact Hp. }
  apply (f_equal (fun l => l !! i)) in E. rewrite !list_lookup_fmap, Hv, Hw in E.
  cbn in E. congruence.
Qed.

(** The contract leaves the order of the two zeros open. *)
Example zeros_in_either_order :
  ascending [S754_zero true; S754_zero false] /\
  ascending [S754_zero false; S754_zero true].
Proof. split; repeat constructor. Qed.

(** ** Properties of the sample window *)

Section Window.

Implicit Types (l : list (F64.float64 * Z)) (o : F64.float64 * Z).

Lemma lastn_length {A} (n : nat) (l : list A) :
  length (lastn n l) = Nat.min n (length l).
Proof. unfold lastn. rewrite length_drop. lia. Qed.

Lemma lastn_all {A} (n : nat) (l : list A) :
  (length l <= n)%nat -> lastn n l = l.
Proof.
  intros H. unfold lastn. replace (length l - n)%nat with 0%nat by lia.
  reflexivity.
Qed.

Lemma lastn_snoc_short {A} (n : nat) (l : list A) (x : A) :
  (length l < n)%nat -> lastn n (l ++ [x]) = lastn n l ++ [x].
Proof.
  intros H. rewrite !lastn_all; [reflexivity | lia |].
  rewrite length_app. simpl. lia.
Qed.

Lemma lastn_snoc_full {A} (n : nat) (l : list A) (x : A) :
  (n <= length l)%nat -> (0 < n)%nat ->
  lastn n (l ++ [x]) = drop 1 (lastn n l ++ [x]).
Proof.
  intros H Hn. unfold lastn. rewrite length_app. simpl.
  replace (length l + 1 - n)%nat with ((length l - n) + 1)%nat by lia.
  rewrite <- drop_drop. f_equal.
  rewrite drop_app_le by lia. reflexivity.
Qed.

(** The store that holds the window of the observations [l]. *)
Definition window_of l : Store :=
  {| latencies := (lastn 1000 l).*1; proxyHops := (lastn 1000 l).*2 |}.

Lemma record_window l o :
  record (window_of l) o = Some (window_of (l ++ [o])).
Proof.
  unfold record, window_of, W. cbn [latencies proxyHops].
  rewrite length_app, length_fmap, lastn_length. cbn [length].
  destruct (decide (length l < 1000)%nat) as [Hs | Hf].
  - destruct (Z.gtb_spec (Z.of_nat (1000 `min` length l + 1)) 1000); [lia |].
    rewrite lastn_snoc_short by lia. rewrite !fmap_app. reflexivity.
  - destruct (Z.gtb_spec (Z.of_nat (1000 `min` length l + 1)) 1000); [| lia].
    rewrite lastn_snoc_full by lia.
    rewrite !fmap_drop, !fmap_app. cbn [fmap list_fmap].
    destruct (lastn 1000 l) as [| a w] eqn:E.
    + apply (f_equal length) in E. rewrite lastn_length in E. cbn [length] in E. lia.
    + reflexivity.
Qed.

Lemma record_all_window l os :
  record_all (window_of l) os = Some (window_of (l ++ os)).
Proof.
  revert l. induction os as [| o os IH]; intros l; cbn [record_all].
  - rewrite app_nil_r. reflexivity.
  - rewrite record_window. cbn. rewrite IH, <- app_assoc. reflexivity.
Qed.

End Window.

(** C1. Whatever sequence of observations the handler records, starting
    from the empty store of [main], no append panics, the store never
    holds more than 1000 entries, and it holds the most recent
    1000 observations (all of them when fewer were recorded) in arrival
    order: the latencies and the hop counts of the last
    [min 1000 (length os)] observations; beyond 1000 recorded observations
    the store holds exactly 1000. *)
Theorem handler_window_fifo (os : list (F64.float64 * Z)) :
  exists st,
    record_all empty_store os = Some st /\
    (length (latencies st) <= 1000)%nat /\
    (length (proxyHops st) <= 1000)%nat /\
    latencies st = (drop (length os - 1000) os).*1 /\
    proxyHops st = (drop (length os - 1000) os).*2 /\
    ((1000 < length os)%nat ->
       length (latencies st) = 1000%nat /\ length (proxyHops st) = 1000%nat).
Proof.
  exists (window_of os). split.
  - change empty_store with (window_of []). apply record_all_window.
  - unfold window_of; cbn [latencies proxyHops].
    rewrite !length_fmap, lastn_length. repeat split; lia.
Qed.

(** ** 64-bit arithmetic without overflow *)

Lemma Int64_wrap_small (z : Z) : Int64.in_range z -> Int64.wrap z = z.
Proof.
  unfold Int64.in_range, Int64.min_int, Int64.max_int, Int64.wrap. intros H.
  rewrite Z.mod_small; lia.
Qed.

Lemma Int64_add_small (x y : Z) : Int64.in_range (x + y) -> Int64.add x y = x + y.
Proof. apply Int64_wrap_small. Qed.

Lemma Int64_sub_small (x y : Z) : Int64.in_range (x - y) -> Int64.sub x y = x - y.
Proof. apply Int64_wrap_small. Qed.

Lemma Int64_wrap_range (z : Z) : Int64.in_range (Int64.wrap z).
Proof.
  unfold Int64.in_range, Int64.min_int, Int64.max_int, Int64.wrap.
  pose proof (Z.mod_pos_bound (z + 2 ^ 63) (2 ^ 64) ltac:(lia)). lia.
Qed.

(** ** The hop heuristics *)

Section Hops.

(** The number of commas of a string. *)
Definition separators (s : string) : Z :=
  Z.of_nat (count_occ ascii_dec (String.list_ascii_of_string s) ","%char).

(** What a forwarding header contributes: nothing when it is absent or
    empty, otherwise one more than its number of commas. *)
Definition contribution (value : string) : Z :=
  if Http.nonempty value then 1 + separators value else 0.

(** A header value short enough for the comma counts to add up within a
    Go [int]: fewer than [2^61] bytes, far more than the address space
    holds (and [net/http] reads at most a megabyte of headers). *)
Definition fits (value : string) : Prop :=
  Z.of_nat (String.length value) < 2 ^ 61.

Lemma separators_bounds (s : string) :
  0 <= separators s <= Z.of_nat (String.length s).
Proof.
  unfold separators. induction s as [| c s IH]; cbn [String.list_ascii_of_string count_occ String.length].
  - lia.
  - destruct (ascii_dec c ","); lia.
Qed.

Lemma count_commas_separators (s : string) (count : Z) :
  0 <= count -> count + Z.of_nat (String.length s) <= Int64.max_int ->
  count_commas s count = count + separators s.
Proof.
  revert count. unfold separators.
  induction s as [| c s IH]; intros count H0 Hmax;
    cbn [count_commas String.list_ascii_of_string count_occ String.length] in *.
  - lia.
  - destruct (Ascii.eqb_spec c ",") as [-> | Hne].
    + destruct (ascii_dec "," ",") as [_ | []]; [| reflexivity].
      rewrite Int64_add_small by (unfold Int64.in_range, Int64.min_int; lia).
      rewrite IH by lia. lia.
    + destruct (ascii_dec c ",") as [-> | _]; [contradiction |].
      rewrite IH by lia. lia.
Qed.

Lemma countProxyHops_contributions (r : Http.Request) :
  fits (Http.Get (Http.Header r) "X-Forwarded-For") ->
  fits (Http.Get (Http.Header r) "Via") ->
  countProxyHops r =
    contribution (Http.Get (Http.Header r) "X-Forwarded-For") +
    contribution (Http.Get (Http.Header r) "Via").
Proof.
  unfold fits, countProxyHops, contribution. intros Hx Hv.
  set (xff := Http.Get _ "X-Forwarded-For") in *.
  set (via := Http.Get _ "Via") in *.
  pose proof (separators_bounds xff). pose proof (separators_bounds via).
  assert (Hc : forall s, fits s -> count_commas s 1 = 1 + separators s).
  { intros s Hs. apply count_commas_separators; unfold fits, Int64.max_int in *; lia. }
  rewrite !Hc by assumption.
  rewrite (Int64_add_small 0 (1 + separators xff))
    by (unfold Int64.in_range, Int64.min_int, Int64.max_int; lia).
  destruct (Http.nonempty xff), (Http.nonempty via);
    rewrite ?Int64_add_small;
    unfold Int64.in_range, Int64.min_int, Int64.max_int; lia.
Qed.

Lemma countProxyHops_range (r : Http.Request) :
  fits (Http.Get (Http.Header r) "X-Forwarded-For") ->
  fits (Http.Get (Http.Header r) "Via") ->
  0 <= countProxyHops r <= 2 ^ 62.
Proof.
  intros Hx Hv. rewrite countProxyHops_contributions by assumption.
  unfold contribution, fits in *.
  pose proof (separators_bounds (Http.Get (Http.Header r) "X-Forwarded-For")).
  pose proof (separators_bounds (Http.Get (Http.Header r) "Via")).
  do 2 destruct (Http.nonempty _); lia.
Qed.

(** The marker headers of [countServiceMeshHops]. *)
Definition meshMarkers : list string :=
  ["X-Request-Id"; "X-Envoy-External-Address"; "X-Envoy-Decorator-Operation";
   "X-B3-TraceId"; "X-B3-SpanId"].

(** The markers a request carries with a non-empty value. *)
Definition markersPresent (r : Http.Request) : list string :=
  List.filter (fun key => Http.nonempty (Http.Get (Http.Header r) key)) meshMarkers.

Lemma countServiceMeshHops_markers (r : Http.Request) :
  countServiceMeshHops r = Z.of_nat (length (markersPresent r)).
Proof.
  unfold countServiceMeshHops, markersPresent, meshMarkers. cbn [List.filter].
  do 5 destruct (Http.nonempty _); reflexivity.
Qed.

Lemma countServiceMeshHops_range (r : Http.Request) :
  0 <= countServiceMeshHops r <= 5.
Proof.
  unfold countServiceMeshHops.
  do 5 destruct (Http.nonempty _); vm_compute; split; discriminate.
Qed.

End Hops.

(** A request with a forwarding chain of three addresses, the same with a
    [Via] header, and a request carrying two mesh markers only. *)
Definition req_xff : Http.Request :=
  {| Http.Header := Http.Set_ ∅ "X-Forwarded-For" "1.1.1.1,2.2.2.2,3.3.3.3";
     Http.RemoteAddr := "10.0.0.1:5000" |}.

Definition req_xff_via : Http.Request :=
  {| Http.Header := Http.Set_ (Http.Header req_xff) "Via" "proxyA";
     Http.RemoteAddr := "10.0.0.1:5000" |}.

Definition req_mesh : Http.Request :=
  {| Http.Header :=
       Http.Set_ (Http.Set_ ∅ "X-B3-TraceId" "80f198ee56343ba8")
         "X-Envoy-Decorator-Operation" "podmeter.default.svc.cluster.local:80/*";
     Http.RemoteAddr := "10.0.0.1:5000" |}.

(** C6. For every header map whose forwarding values fit a Go string, the
    traditional-proxy hop count is the sum of two contributions: one plus
    the number of commas of the [X-Forwarded-For] value when that header
    is present and not empty, and one plus the number of commas of the
    [Via] value when that one is.  A chain of three addresses alone gives
    3; with [Via: proxyA] besides it gives 4. *)
Theorem countProxyHops_spec (r : Http.Request) :
  let xff := Http.Get (Http.Header r) "X-Forwarded-For" in
  let via := Http.Get (Http.Header r) "Via" in
  fits xff -> fits via ->
  countProxyHops r =
    (if Http.nonempty xff then 1 + separators xff else 0) +
    (if Http.nonempty via then 1 + separators via else 0)
  /\ countProxyHops req_xff = 3
  /\ countProxyHops req_xff_via = 4.
Proof.
  intros xff via Hx Hv. split.
  - apply countProxyHops_contributions; assumption.
  - split; vm_compute; reflexivity.
Qed.

Lemma countProxyHops_spec_witness :
  fits (Http.Get (Http.Header req_xff_via) "X-Forwarded-For") /\
  fits (Http.Get (Http.Header req_xff_via) "Via") /\
  countProxyHops req_xff_via = (1 + 2) + (1 + 0).
Proof.
  assert (Hx : fits (Http.Get (Http.Header req_xff_via) "X-Forwarded-For"))
    by (vm_compute; reflexivity).
  assert (Hv : fits (Http.Get (Http.Header req_xff_via) "Via"))
    by (vm_compute; reflexivity).
  split; [exact Hx | split; [exact Hv |]].
  exact (proj1 (countProxyHops_spec req_xff_via Hx Hv)).
Defined.

(** ** The fields of the statistics *)

(** The two ways [computeStats] answers: the branch of the empty window
    (with or without requests counted) and the branch that computes the
    latency figures. *)
Ltac computeStats_cases H :=
  unfold computeStats in H;
  destruct (getSystemInfo _) as [hostname kernelVersion];
  destruct (getDiskStats _) as [[totalDiskGB availDiskGB] diskUsagePercent] eqn:Edisk;
  destruct (Z.of_nat (length (latenciesCopy _)) =? 0) eqn:Elen;
  [ destruct (totalRequests _ >? 0) eqn:Ereq; injection H as <-
  | destruct (index (latenciesCopy _) 0) as [first |] eqn:Efirst;
    [| discriminate H];
    cbn [mbind option_bind] in H;
    destruct (latencyLoop _ _) as [[sum minLat] maxLat] eqn:Eloop;
    destruct (percentile (latenciesCopy _) F64.c0_50) as [p50 |] eqn:E50;
    [| discriminate H];
    destruct (percentile (latenciesCopy _) F64.c0_95) as [p95 |] eqn:E95;
    [| discriminate H];
    destruct (percentile (latenciesCopy _) F64.c0_99) as [p99 |] eqn:E99;
    [| discriminate H];
    destruct (percentile (latenciesCopy _) F64.c0_999) as [p999 |] eqn:E999;
    [| discriminate H];
    cbn [mbind option_bind] in H; injection H as <- ].

(** What follows holds for every sort that meets the contract of
    [sort.Float64s]. *)
Section AnySort.
Context `{srt : SortFloat64s}.

Lemma computeStats_hop_fields (i : StatsInput) (st : Stats) :
  computeStats i = Some st ->
  ProxyHopCount st = countProxyHops (in_request i) /\
  ServiceMeshHops st = countServiceMeshHops (in_request i) /\
  TotalHopCount st =
    Int64.add (countProxyHops (in_request i)) (countServiceMeshHops (in_request i)) /\
  CurrentHopCount st = TotalHopCount st /\
  ProxyDetected st = (TotalHopCount st >? 0).
Proof. intros H. computeStats_cases H; cbn; repeat split. Qed.

Lemma computeStats_counters (i : StatsInput) (st : Stats) :
  computeStats i = Some st ->
  Requests st = totalRequests i /\
  Errors st = totalErrors i /\
  RequestsViaProxy st = totalViaProxy i /\
  IstioSidecar st = istioDetected i.
Proof. intros H. computeStats_cases H; cbn; repeat split. Qed.

(** A host, and a call of [statsHandler] for the request [req_mesh] before
    any observation was recorded. *)
Definition facts_example : Host.Facts :=
  {| Host.memStats :=
       {| Host.Alloc := 1048576; Host.Sys := 8388608; Host.TotalAlloc := 2097152;
          Host.PauseNs := replicate 256 0; Host.NumGC := 0 |};
     Host.NumGoroutine := 4;
     Host.GOOS := "linux";
     Host.GOARCH := "amd64";
     Host.NumCPU_ := 2;
     Host.os_Hostname := "podmeter-0";
     Host.uname := Some "Linux podmeter-0 6.1.0 x86_64 GNU/Linux";
     Host.MemTotal_kb := Some (F64.of_int 8388608);
     Host.MemAvailable_kb := Some (F64.of_int 4194304);
     Host.statfs := Some {| Host.Blocks := 1000000; Host.Bavail := 250000;
                            Host.Bsize := 4096 |} |}.

Definition input_mesh : StatsInput :=
  {| in_request := req_mesh;
     latenciesCopy := [];
     proxyHopsCopy := [];
     totalRequests := 0;
     totalErrors := 0;
     totalViaProxy := 0;
     sinceStart := 5 * Time.Second;
     istioDetected := true;
     facts := facts_example |}.

(** C7. In the answer of [statsHandler], the service-mesh hop count is the
    number of the five marker headers that the request carries with a
    non-empty value (one for each, whatever the value), the total is the
    sum of the traditional and the mesh hops (as it is in [handler]), and
    [proxy_detected] is true exactly when the total is positive.  A request
    with [X-B3-TraceId] and [X-Envoy-Decorator-Operation] and no forwarding
    header has 2 mesh hops, 0 traditional hops, a total of 2, and a proxy
    detected. *)
Theorem hop_classification (i : StatsInput) (st : Stats) :
  let r := in_request i in
  fits (Http.Get (Http.Header r) "X-Forwarded-For") ->
  fits (Http.Get (Http.Header r) "Via") ->
  computeStats i = Some st ->
  (ServiceMeshHops st = countServiceMeshHops r /\
   countServiceMeshHops r = Z.of_nat (length (markersPresent r))) /\
  (ProxyHopCount st = countProxyHops r /\
   TotalHopCount st = ProxyHopCount st + ServiceMeshHops st /\
   countTotalHops r = countProxyHops r + countServiceMeshHops r) /\
  (ProxyDetected st = true <-> TotalHopCount st > 0) /\
  (exists st0, computeStats input_mesh = Some st0 /\
     ServiceMeshHops st0 = 2 /\ ProxyHopCount st0 = 0 /\
     TotalHopCount st0 = 2 /\ ProxyDetected st0 = true).
Proof.
  intros r Hx Hv H.
  destruct (computeStats_hop_fields i st H) as (Hp & Hm & Ht & _ & Hd).
  pose proof (countProxyHops_range r Hx Hv) as Rp.
  pose proof (countServiceMeshHops_range r) as Rm.
  assert (Hsum : Int64.add (countProxyHops r) (countServiceMeshHops r) =
                 countProxyHops r + countServiceMeshHops r).
  { apply Int64_add_small. unfold Int64.in_range, Int64.min_int, Int64.max_int. lia. }
  fold r in Hp, Hm, Ht. rewrite Hsum in Ht.
  repeat split.
  - exact Hm.
  - apply countServiceMeshHops_markers.
  - exact Hp.
  - rewrite Ht, Hp, Hm. reflexivity.
  - exact Hsum.
  - rewrite Hd. intros Hgt. apply Z.gtb_gt in Hgt. lia.
  - rewrite Hd. intros Hgt. apply Z.gtb_gt. lia.
  - eexists. split; [vm_compute; reflexivity |]. vm_compute. repeat split.
Qed.

End AnySort.

(** The examples are computed with the insertion sort. *)
Section Examples.
#[local] Existing Instance insertion_sort.

Lemma hop_classification_witness :
  exists st,
    computeStats input_mesh = Some st /\
    ServiceMeshHops st = 2 /\
    TotalHopCount st = ProxyHopCount st + ServiceMeshHops st /\
    (ProxyDetected st = true <-> TotalHopCount st > 0).
Proof.
  destruct (computeStats input_mesh) as [st |] eqn:E; [| vm_compute in E; discriminate E].
  assert (Hx : fits (Http.Get (Http.Header (in_request input_mesh)) "X-Forwarded-For"))
    by (vm_compute; reflexivity).
  assert (Hv : fits (Http.Get (Http.Header (in_request input_mesh)) "Via"))
    by (vm_compute; reflexivity).
  destruct (hop_classification input_mesh st Hx Hv E)
    as ((Hm & Hk) & (Hp & Ht & _) & Hd & _).
  exists st. split; [reflexivity |]. split; [| split; [exact Ht | exact Hd]].
  rewrite Hm, Hk. vm_compute. reflexivity.
Defined.

End Examples.

(** ** binary64 arithmetic

    What the proofs need of the rounding of [SpecFloat]: a mantissa is
    shifted down to 53 bits and rounded to one of its two neighbours, to
    itself when no bit is lost. *)

Section Iter.
Context {A : Type} (f : A -> A) (P : Z -> A -> Prop).
Hypothesis Hstep : forall k x, 0 <= k -> P k x -> P (k + 1) (f x).

Lemma iter_pos_invariant (p : positive) :
  forall k x, 0 <= k -> P k x -> P (k + Z.pos p) (iter_pos f p x).
Proof.
  induction p as [p IH | p IH |]; intros k x Hk Hx; cbn [iter_pos].
  - replace (k + Z.pos p~1) with (k + 1 + Z.pos p + Z.pos p) by lia.
    apply IH; [lia |]. apply IH; [lia |]. apply Hstep; assumption.
  - replace (k + Z.pos p~0) with (k + Z.pos p + Z.pos p) by lia.
    apply IH; [lia |]. apply IH; assumption.
  - apply Hstep; assumption.
Qed.

End Iter.

Lemma digits2_bounds (p : positive) :
  2 ^ (Z.pos (digits2_pos p) - 1) <= Z.pos p < 2 ^ Z.pos (digits2_pos p).
Proof.
  induction p as [p IH | p IH |]; cbn [digits2_pos].
  - rewrite Pos2Z.inj_succ. replace (Z.succ (Z.pos (digits2_pos p)) - 1) with (Z.pos (digits2_pos p) - 1 + 1) by lia.
    rewrite Z.pow_succ_r by lia. rewrite Z.pow_add_r by lia. lia.
  - rewrite Pos2Z.inj_succ. replace (Z.succ (Z.pos (digits2_pos p)) - 1) with (Z.pos (digits2_pos p) - 1 + 1) by lia.
    rewrite Z.pow_succ_r by lia. rewrite Z.pow_add_r by lia. lia.
  - cbn. lia.
Qed.

Lemma digits2_unique (p : positive) (k : Z) :
  2 ^ (k - 1) <= Z.pos p < 2 ^ k -> Z.pos (digits2_pos p) = k.
Proof.
  intros [Hlo Hhi]. pose proof (digits2_bounds p) as [Dlo Dhi].
  assert (0 < k).
  { destruct (Z.lt_ge_cases 0 k) as [|Hk]; [assumption|].
    assert (2 ^ k <= 2 ^ 0) by (apply Z.pow_le_mono_r; lia). cbn in *. lia. }
  set (d := Z.pos (digits2_pos p)) in *.
  destruct (Z.lt_trichotomy d k) as [Hlt | [Heq | Hgt]]; [| assumption |].
  - assert (2 ^ d <= 2 ^ (k - 1)) by (apply Z.pow_le_mono_r; lia). lia.
  - assert (2 ^ k <= 2 ^ (d - 1)) by (apply Z.pow_le_mono_r; lia). lia.
Qed.

Lemma shr_1_nonneg (m : Z) (r s : bool) :
  0 <= m ->
  shr_1 {| shr_m := m; shr_r := r; shr_s := s |} =
  {| shr_m := m / 2; shr_r := Z.odd m; shr_s := r || s |}.
Proof.
  intros Hm. destruct m as [| p | p]; [reflexivity | | lia].
  destruct p as [p | p |]; cbn [shr_1 Z.odd].
  - f_equal. rewrite Pos2Z.inj_xI. apply Z.div_unique with (r := 1); lia.
  - f_equal. rewrite Pos2Z.inj_xO. apply Z.div_unique with (r := 0); lia.
  - reflexivity.
Qed.

(** After [k] shifts of an exact mantissa [m]: the quotient, and no lost bit
    when [2^k] divides [m]. *)
Definition shifted (m : Z) (k : Z) (mrs : shr_record) : Prop :=
  shr_m mrs = m / 2 ^ k /\
  (m mod 2 ^ k = 0 -> shr_r mrs = false /\ shr_s mrs = false).

Lemma shifted_step (m k : Z) (mrs : shr_record) :
  0 <= m -> 0 <= k -> shifted m k mrs -> shifted m (k + 1) (shr_1 mrs).
Proof.
  intros Hm Hk [Hq Hex]. destruct mrs as [q r s]. cbn [shr_m shr_r shr_s] in *.
  assert (Hp : 0 < 2 ^ k) by (apply Z.pow_pos_nonneg; lia).
  rewrite shr_1_nonneg by (subst q; apply Z.div_pos; lia).
  unfold shifted; cbn [shr_m shr_r shr_s].
  rewrite Z.pow_add_r, Z.pow_1_r by lia. subst q. split.
  - rewrite Z.div_div by lia. reflexivity.
  - intros Hmod.
    assert (Hm2 : m = 2 ^ k * 2 * (m / (2 ^ k * 2))).
    { pose proof (Z.div_mod m (2 ^ k * 2) ltac:(lia)). lia. }
    assert (Hmk : m mod 2 ^ k = 0).
    { rewrite Hm2. rewrite <- Z.mul_assoc, Z.mul_comm. apply Z.mod_mul. lia. }
    destruct (Hex Hmk) as [-> ->]. split; [| reflexivity].
    assert (Hd : m / 2 ^ k = 2 * (m / (2 ^ k * 2))).
    { rewrite Hm2 at 1. rewrite <- Z.mul_assoc, Z.mul_comm. rewrite Z.div_mul by lia. reflexivity. }
    rewrite Hd. rewrite Z.odd_mul. reflexivity.
Qed.

Lemma shifted_iter (m : Z) (p : positive) :
  0 <= m ->
  shifted m (Z.pos p)
    (iter_pos shr_1 p {| shr_m := m; shr_r := false; shr_s := false |}).
Proof.
  intros Hm.
  apply (iter_pos_invariant shr_1 (shifted m)) with (k := 0) (p := p).
  - intros k x Hk. apply shifted_step; assumption.
  - lia.
  - split; cbn; [rewrite Z.div_1_r; reflexivity | auto].
Qed.

Lemma round_nearest_even_shifted (m k : Z) (mrs : shr_record) :
  shifted m k mrs ->
  let c := round_nearest_even (shr_m mrs) (loc_of_shr_record mrs) in
  (c = m / 2 ^ k \/ c = m / 2 ^ k + 1) /\ (m mod 2 ^ k = 0 -> c = m / 2 ^ k).
Proof.
  intros [Hq Hex]. destruct mrs as [q r s]. cbn [shr_m shr_r shr_s] in *.
  subst q. cbn zeta. split.
  - destruct r, s; cbn; try destruct (Z.even _); auto.
  - intros Hmod. destruct (Hex Hmod) as [-> ->]. reflexivity.
Qed.

Lemma fexp64 (e : Z) : fexp 53 1024 e = Z.max (e - 53) (-1074).
Proof. reflexivity. Qed.

(** A mantissa of at most 53 bits is kept as it is. *)
Lemma binary_round_aux_exact (m : positive) (e : Z) :
  Z.pos (digits2_pos m) <= 53 -> -1074 <= e <= 971 ->
  binary_round_aux 53 1024 false (Z.pos m) e loc_Exact = S754_finite false m e.
Proof.
  intros Hd He. unfold binary_round_aux, shr_fexp.
  cbn [Zdigits2 shr_record_of_loc]. rewrite fexp64.
  assert (Hn : Z.max (Z.pos (digits2_pos m) + e - 53) (-1074) - e <= 0) by lia.
  unfold shr.
  destruct (Z.max (Z.pos (digits2_pos m) + e - 53) (-1074) - e) as [| n | n] eqn:En;
    [| lia |];
    cbn [shr_m loc_of_shr_record round_nearest_even Zdigits2 shr_record_of_loc];
    rewrite fexp64, En; cbn [shr_m];
    (destruct (Z.leb_spec e (1024 - 53)); [reflexivity | lia]).
Qed.

(** A longer mantissa is shifted down to 53 bits and rounded to one of
    its two neighbours, to the lower one when no bit is lost. *)
Lemma binary_round_aux_round (m : positive) (e : Z) :
  let d := Z.pos (digits2_pos m) in
  let n := d - 53 in
  let q := Z.pos m / 2 ^ n in
  53 < d -> -1074 <= e + n < 971 ->
  exists c,
    (c = q \/ c = q + 1) /\ (Z.pos m mod 2 ^ n = 0 -> c = q) /\
    2 ^ 52 <= q < 2 ^ 53 /\
    binary_round_aux 53 1024 false (Z.pos m) e loc_Exact =
      if c =? 2 ^ 53 then S754_finite false (2 ^ 52) (e + n + 1)
      else S754_finite false (Z.to_pos c) (e + n).
Proof.
  intros d n q Hd He.
  pose proof (digits2_bounds m) as [Dlo Dhi]. fold d in Dlo, Dhi.
  assert (Hn : 0 < n) by (unfold n; lia).
  assert (Hq : 2 ^ 52 <= q < 2 ^ 53).
  { unfold q. replace (d - 1) with (52 + n) in Dlo by (unfold n; lia).
    replace d with (53 + n) in Dhi by (unfold n; lia).
    rewrite Z.pow_add_r in Dlo, Dhi by lia.
    assert (0 < 2 ^ n) by (apply Z.pow_pos_nonneg; lia).
    split.
    - apply Z.div_le_lower_bound; lia.
    - apply Z.div_lt_upper_bound; lia. }
  unfold binary_round_aux, shr_fexp at 1.
  cbn [Zdigits2 shr_record_of_loc]. rewrite fexp64. fold d.
  replace (Z.max (d + e - 53) (-1074) - e) with n by (unfold n in *; lia).
  unfold shr at 1. destruct n as [| p | p] eqn:En; [lia | | lia].
  pose proof (shifted_iter (Z.pos m) p ltac:(lia)) as Hsh.
  set (mrs := iter_pos shr_1 p _) in *.
  destruct (round_nearest_even_shifted _ _ _ Hsh) as [Hc Hex].
  set (c := round_nearest_even (shr_m mrs) (loc_of_shr_record mrs)) in *.
  fold q in Hc, Hex. exists c. split; [exact Hc |]. split; [exact Hex |].
  split; [exact Hq |].
  assert (Hcr : 2 ^ 52 <= c <= 2 ^ 53) by lia.
  destruct c as [| pc | pc] eqn:Ec; [lia | | lia].
  unfold shr_fexp. cbn [Zdigits2 shr_record_of_loc]. rewrite fexp64.
  destruct (Z.eqb_spec (Z.pos pc) (2 ^ 53)) as [E53 | N53].
  - assert (pc = 9007199254740992%positive) as -> by lia.
    change (Z.pos (digits2_pos 9007199254740992)) with 54.
    replace (Z.max (54 + (e + Z.pos p) - 53) (-1074) - (e + Z.pos p)) with 1 by lia.
    cbn [shr iter_pos shr_1 shr_m].
    destruct (Z.leb_spec (e + Z.pos p + 1) (1024 - 53)); [reflexivity | lia].
  - assert (Hdc : Z.pos (digits2_pos pc) = 53).
    { apply digits2_unique. change (2 ^ (53 - 1)) with (2 ^ 52). lia. }
    rewrite Hdc.
    replace (Z.max (53 + (e + Z.pos p) - 53) (-1074) - (e + Z.pos p)) with 0 by lia.
    cbn [shr shr_m].
    destruct (Z.leb_spec (e + Z.pos p) (1024 - 53)); [reflexivity | lia].
Qed.

Lemma pos_iter_xO (p k : positive) :
  Z.pos (Pos.iter xO p k) = Z.pos p * 2 ^ Z.pos k.
Proof.
  induction k as [| k IH] using Pos.peano_ind.
  - cbn [Pos.iter]. lia.
  - rewrite Pos.iter_succ, Pos2Z.inj_xO, IH, Pos2Z.inj_succ, Z.pow_succ_r by lia. lia.
Qed.

(** The conversion of a positive integer below [2^53] is exact: the
    integer, shifted to a mantissa of 53 bits. *)
Lemma F64_of_int_exact (p : positive) :
  let d := Z.pos (digits2_pos p) in
  d <= 53 ->
  F64.of_int (Z.pos p) = S754_finite false (Z.to_pos (Z.pos p * 2 ^ (53 - d))) (d - 53).
Proof.
  intros d Hd. unfold F64.of_int, F64.prec, F64.emax, binary_normalize, binary_round.
  rewrite fexp64. fold d. unfold shl_align.
  replace (Z.max (d + 0 - 53) (-1074) - 0) with (d - 53) by lia.
  replace (Z.max (d + 0 - 53) (-1074)) with (d - 53) by lia.
  pose proof (digits2_bounds p) as [Dlo Dhi]. fold d in Dlo, Dhi.
  destruct (d - 53) as [| k | k] eqn:Ek; [| lia |].
  - replace (53 - d) with 0 by lia. rewrite Z.mul_1_r. cbn [Z.to_pos].
    apply binary_round_aux_exact; fold d; lia.
  - replace (53 - d) with (Z.pos k) by lia.
    rewrite <- pos_iter_xO. cbn [Z.to_pos].
    apply binary_round_aux_exact; [| lia].
    rewrite (digits2_unique _ 53); [lia |].
    rewrite pos_iter_xO.
    assert (H2 : 2 ^ 52 = 2 ^ (d - 1) * 2 ^ Z.pos k).
    { rewrite <- Z.pow_add_r by lia. f_equal. lia. }
    assert (H3 : 2 ^ 53 = 2 ^ d * 2 ^ Z.pos k).
    { rewrite <- Z.pow_add_r by lia. f_equal. lia. }
    change (2 ^ (53 - 1)) with (2 ^ 52).
    rewrite H2, H3.
    assert (0 < 2 ^ Z.pos k) by (apply Z.pow_pos_nonneg; lia). nia.
Qed.

(** The conversion of a positive [int64] (of any positive integer below
    [2^1023]) is a positive finite number. *)
Lemma F64_of_int_finite (p : positive) :
  Z.pos (digits2_pos p) <= 1023 ->
  exists m e, F64.of_int (Z.pos p) = S754_finite false m e.
Proof.
  intros Hd. destruct (Z.le_gt_cases (Z.pos (digits2_pos p)) 53) as [Hs | Hl].
  - rewrite F64_of_int_exact by assumption. eauto.
  - unfold F64.of_int, F64.prec, F64.emax, binary_normalize, binary_round.
    rewrite fexp64. unfold shl_align.
    set (d := Z.pos (digits2_pos p)) in *.
    replace (Z.max (d + 0 - 53) (-1074) - 0) with (d - 53) by lia.
    destruct (d - 53) as [| k | k] eqn:Ek; [lia | | lia].
    destruct (binary_round_aux_round p 0) as (c & Hc & _ & Hq & ->);
      fold d; [lia | lia |].
    destruct (_ =? _); eauto.
Qed.

Lemma F64_of_int_int64_finite (n : Z) :
  0 < n < 2 ^ 63 -> exists m e, F64.of_int n = S754_finite false m e.
Proof.
  intros Hn. destruct n as [| p | p]; [lia | | lia].
  apply F64_of_int_finite. pose proof (digits2_bounds p) as [Dlo _].
  destruct (Z.le_gt_cases (Z.pos (digits2_pos p)) 1023) as [| Hbig]; [assumption |].
  assert (2 ^ 63 <= 2 ^ (Z.pos (digits2_pos p) - 1)) by (apply Z.pow_le_mono_r; lia).
  lia.
Qed.

(** A finite number divided by itself is one. *)
Lemma F64_div_self (s : bool) (m : positive) (e : Z) :
  F64.div (S754_finite s m e) (S754_finite s m e) = F64.one.
Proof.
  unfold F64.div, F64.prec, F64.emax, SFdiv, SFdiv_core_binary. cbn [Zdigits2].
  replace (Z.pos (digits2_pos m) + e - (Z.pos (digits2_pos m) + e)) with 0 by lia.
  replace (e - e) with 0 by lia.
  change (Z.min (fexp 53 1024 0) 0) with (-53).
  change (0 - -53) with 53.
  rewrite Z.shiftl_mul_pow2 by lia.
  pose proof (Z.div_eucl_eq (Z.pos m * 2 ^ 53) (Z.pos m) ltac:(lia)) as Heq.
  pose proof (Z.mod_pos_bound (Z.pos m * 2 ^ 53) (Z.pos m) ltac:(lia)) as Hr.
  unfold Z.modulo in Hr.
  destruct (Z.div_eucl (Z.pos m * 2 ^ 53) (Z.pos m)) as [q r].
  assert (q = 2 ^ 53) as ->.
  { assert (r = Z.pos m * (2 ^ 53 - q)) by lia.
    destruct (Z.lt_trichotomy q (2 ^ 53)) as [Hlt | [Heq' | Hgt]]; [| assumption |].
    - assert (1 <= 2 ^ 53 - q) by lia. nia.
    - assert (2 ^ 53 - q <= -1) by lia. nia. }
  assert (r = 0) as -> by lia.
  assert (Hloc : new_location (Z.pos m) 0 = loc_Exact).
  { unfold new_location. destruct (Z.even _); reflexivity. }
  rewrite Hloc. destruct s; vm_compute; reflexivity.
Qed.

(** The arithmetic behind the nearest-rank index: [mp / 2^53] is the
    binary64 number just below [a / 1000], [M = mp * n * A] is the exact
    product with the element count (scaled), and [c] is [M / B] rounded to
    a neighbour.  Then [c / C] rounds up to the rank [k] of [a n / 1000]. *)
Lemma nearest_rank_core (a mp n k A B C M c : Z) :
  2 ^ 52 <= mp ->
  0 <= a * 2 ^ 53 - 1000 * mp < 1000 ->
  1 <= n <= 2 ^ 40 ->
  1000 * (k - 1) < a * n <= 1000 * k ->
  2 ^ 12 <= A -> 0 < B <= 2 ^ 53 -> 0 < C -> B * C = 2 ^ 53 * A ->
  M = mp * n * A ->
  (c = M / B \/ c = M / B + 1) -> (M mod B = 0 -> c = M / B) ->
  (k - 1) * C < c <= k * C.
Proof.
  intros Hmp Hd Hn Hk HA HB HC HBC HM Hc Hex.
  assert (Hup : M <= k * C * B).
  { assert (1000 * M <= 1000 * (k * C * B)); [| lia].
    replace (k * C * B) with (k * (B * C)) by ring. rewrite HBC, HM.
    assert (1000 * mp * n <= a * 2 ^ 53 * n) by nia.
    assert (a * n * (2 ^ 53 * A) <= 1000 * k * (2 ^ 53 * A)) by nia.
    nia. }
  assert (Hlo : (k - 1) * C * B + B <= M).
  { assert (1000 * ((k - 1) * C * B + B) <= 1000 * M); [| lia].
    replace ((k - 1) * C * B) with ((k - 1) * (B * C)) by ring. rewrite HBC, HM.
    assert (H1 : (1000 * (k - 1) + 1) * (2 ^ 53 * A) <= a * n * (2 ^ 53 * A)) by nia.
    assert (H2 : a * 2 ^ 53 * n - 999 * n <= 1000 * mp * n) by nia.
    assert (H3 : (a * 2 ^ 53 * n - 999 * n) * A <= 1000 * mp * n * A) by nia.
    assert (H4 : 1000 * B <= (2 ^ 53 - 999 * n) * A).
    { assert (7 * 2 ^ 50 <= 2 ^ 53 - 999 * n) by lia.
      assert (7 * 2 ^ 50 * 2 ^ 12 <= (2 ^ 53 - 999 * n) * A) by nia.
      lia. }
    nia. }
  assert (Hq1 : M / B <= k * C) by (apply Z.div_le_upper_bound; lia).
  assert (Hq2 : (k - 1) * C + 1 <= M / B) by (apply Z.div_le_lower_bound; lia).
  split; [lia |].
  destruct (Z.eq_dec (M / B) (k * C)) as [Heq | Hne]; [| lia].
  rewrite Hex; [lia |].
  pose proof (Z.div_mod M B ltac:(lia)) as Hdm.
  pose proof (Z.mod_pos_bound M B ltac:(lia)). nia.
Qed.

(** Rounding a quotient up. *)
Lemma ceil_quotient (c C k : Z) :
  0 < C -> (k - 1) * C < c <= k * C ->
  (if c mod C =? 0 then c / C else c / C + 1) = k.
Proof.
  intros HC Hk.
  pose proof (Z.div_mod c C ltac:(lia)) as Hdm.
  pose proof (Z.mod_pos_bound c C ltac:(lia)) as Hr.
  destruct (Z.eqb_spec (c mod C) 0) as [E | E]; nia.
Qed.

Lemma F64_to_int_of_int (p : positive) :
  Z.pos (digits2_pos p) <= 53 -> F64.to_int (F64.of_int (Z.pos p)) = Z.pos p.
Proof.
  intros Hd. rewrite F64_of_int_exact by assumption.
  pose proof (digits2_bounds p) as [Dlo Dhi].
  set (d := Z.pos (digits2_pos p)) in *.
  assert (Hp : 0 < 2 ^ (53 - d)) by (apply Z.pow_pos_nonneg; lia).
  assert (Hlt : Z.pos p < 2 ^ 53).
  { assert (2 ^ d <= 2 ^ 53) by (apply Z.pow_le_mono_r; lia). lia. }
  unfold F64.to_int.
  rewrite Z2Pos.id by lia.
  destruct (Z.leb_spec 0 (d - 53)) as [H0 | H0].
  - replace (d - 53) with 0 by lia. replace (53 - d) with 0 by lia.
    rewrite !Z.mul_1_r.
    unfold Int64.min_int, Int64.max_int.
    destruct (Z.leb_spec (- 2 ^ 63) (Z.pos p)); [| lia].
    destruct (Z.leb_spec (Z.pos p) (2 ^ 63 - 1)); [reflexivity | lia].
  - replace (- (d - 53)) with (53 - d) by lia.
    rewrite Z.div_mul by lia.
    unfold Int64.min_int, Int64.max_int.
    destruct (Z.leb_spec (- 2 ^ 63) (Z.pos p)); [| lia].
    destruct (Z.leb_spec (Z.pos p) (2 ^ 63 - 1)); [reflexivity | lia].
Qed.

(** [int(math.Ceil(x))] of a positive number with a fractional part. *)
Lemma F64_Ceil_to_int (m : positive) (e : Z) :
  e < 0 -> Z.pos m <= 2 ^ 53 ->
  F64.to_int (F64.Ceil (S754_finite false m e)) =
    if Z.pos m mod 2 ^ (- e) =? 0 then Z.pos m / 2 ^ (- e)
    else Z.pos m / 2 ^ (- e) + 1.
Proof.
  intros He Hm. unfold F64.Ceil.
  destruct (Z.leb_spec 0 e); [lia |].
  assert (Hp : 2 <= 2 ^ (- e)).
  { change 2 with (2 ^ 1) at 1. apply Z.pow_le_mono_r; lia. }
  pose proof (Z.div_mod (Z.pos m) (2 ^ (- e)) ltac:(lia)) as Hdm.
  pose proof (Z.mod_pos_bound (Z.pos m) (2 ^ (- e)) ltac:(lia)) as Hr.
  assert (Hq : 0 <= Z.pos m / 2 ^ (- e)) by (apply Z.div_pos; lia).
  set (K := if Z.pos m mod 2 ^ (- e) =? 0 then _ else _).
  assert (HK : 0 < K < 2 ^ 53).
  { unfold K. destruct (Z.eqb_spec (Z.pos m mod 2 ^ (- e)) 0); nia. }
  destruct K as [| pk | pk] eqn:EK; [lia | | lia].
  apply F64_to_int_of_int.
  pose proof (digits2_bounds pk) as [Dlo _].
  destruct (Z.le_gt_cases (Z.pos (digits2_pos pk)) 53) as [| Hbig]; [assumption |].
  assert (2 ^ 53 <= 2 ^ (Z.pos (digits2_pos pk) - 1)) by (apply Z.pow_le_mono_r; lia).
  lia.
Qed.

(** The index [percentile] computes in binary64 is the nearest-rank index
    computed exactly, for every element count up to [2^40]: [mp / 2^53]
    is the binary64 number of a quantile [a / 1000], the nearest one below
    it. *)
Lemma percentile_idx_exact (a : Z) (mp : positive) (n : Z) :
  2 ^ 52 <= Z.pos mp < 2 ^ 53 ->
  0 <= a * 2 ^ 53 - 1000 * Z.pos mp < 1000 ->
  1 <= n <= 2 ^ 40 ->
  percentile_idx (S754_finite false mp (-53)) n = (a * n + 999) / 1000 - 1.
Proof.
  intros Hmp Hd Hn. destruct n as [| pn | pn]; [lia | | lia].
  unfold percentile_idx.
  (* float64(n) *)
  pose proof (digits2_bounds pn) as [Nlo Nhi].
  set (dn := Z.pos (digits2_pos pn)) in *.
  assert (Hdn : 1 <= dn <= 41).
  { split; [unfold dn; lia |].
    destruct (Z.le_gt_cases dn 41) as [| Hbig]; [assumption |].
    assert (2 ^ 41 <= 2 ^ (dn - 1)) by (apply Z.pow_le_mono_r; lia). lia. }
  rewrite F64_of_int_exact by (fold dn; lia). fold dn.
  set (u := 53 - dn).
  assert (HA : 2 ^ 12 <= 2 ^ u) by (apply Z.pow_le_mono_r; unfold u; lia).
  set (A := 2 ^ u) in *.
  set (mz := Z.to_pos (Z.pos pn * A)).
  assert (Hmz : Z.pos mz = Z.pos pn * A) by (unfold mz; rewrite Z2Pos.id; lia).
  (* the product *)
  unfold F64.mul, F64.prec, F64.emax, SFmul. cbn [xorb].
  set (M := (mp * mz)%positive).
  assert (HM : Z.pos M = Z.pos mp * Z.pos pn * A).
  { unfold M. rewrite Pos2Z.inj_mul, Hmz. ring. }
  assert (HMz : 2 ^ 52 <= Z.pos mz < 2 ^ 53).
  { rewrite Hmz. unfold A, u.
    replace (2 ^ 52) with (2 ^ (dn - 1) * 2 ^ (53 - dn))
      by (rewrite <- Z.pow_add_r by lia; f_equal; lia).
    replace (2 ^ 53) with (2 ^ dn * 2 ^ (53 - dn))
      by (rewrite <- Z.pow_add_r by lia; f_equal; lia).
    assert (0 < 2 ^ (53 - dn)) by (apply Z.pow_pos_nonneg; lia). nia. }
  pose proof (digits2_bounds M) as [Mlo Mhi].
  set (d := Z.pos (digits2_pos M)) in *.
  assert (Hdd : 105 <= d <= 106).
  { assert (HMr : 2 ^ 104 <= Z.pos M < 2 ^ 106).
    { unfold M. rewrite Pos2Z.inj_mul.
      change (2 ^ 104) with (2 ^ 52 * 2 ^ 52). change (2 ^ 106) with (2 ^ 53 * 2 ^ 53).
      nia. }
    split.
    - destruct (Z.le_gt_cases 105 d) as [| Hsmall]; [assumption |].
      assert (2 ^ d <= 2 ^ 104) by (apply Z.pow_le_mono_r; unfold d; lia). lia.
    - destruct (Z.le_gt_cases d 106) as [| Hbig]; [assumption |].
      assert (2 ^ 106 <= 2 ^ (d - 1)) by (apply Z.pow_le_mono_r; lia). lia. }
  destruct (binary_round_aux_round M (-53 + (dn - 53)))
    as (c & Hc & Hex & Hq & ->); fold d; [lia | lia |].
  set (s := d - 53) in *.
  assert (HB : 0 < 2 ^ s <= 2 ^ 53).
  { split; [apply Z.pow_pos_nonneg; unfold s; lia |].
    apply Z.pow_le_mono_r; unfold s; lia. }
  set (B := 2 ^ s) in *.
  set (t := 53 + u - s).
  assert (Ht : 1 <= t) by (unfold t, u, s; lia).
  assert (HC : 0 < 2 ^ t) by (apply Z.pow_pos_nonneg; lia).
  assert (HBC : B * 2 ^ t = 2 ^ 53 * A).
  { unfold B, A. rewrite <- !Z.pow_add_r by (unfold u, s in *; lia).
    f_equal. unfold t. lia. }
  set (k := (a * Z.pos pn + 999) / 1000).
  assert (Hk : 1000 * (k - 1) < a * Z.pos pn <= 1000 * k).
  { unfold k. pose proof (Z.div_mod (a * Z.pos pn + 999) 1000 ltac:(lia)).
    pose proof (Z.mod_pos_bound (a * Z.pos pn + 999) 1000 ltac:(lia)). lia. }
  pose proof (nearest_rank_core a (Z.pos mp) (Z.pos pn) k A B (2 ^ t) (Z.pos M) c
                ltac:(lia) Hd Hn Hk HA HB HC HBC HM Hc Hex) as Hkc.
  assert (Ha : 0 < a) by nia.
  assert (Hkn : 1 <= k <= Z.pos pn).
  { assert (a < 1000) by nia. split; nia. }
  assert (Hidx : forall m' e', e' < 0 -> Z.pos m' <= 2 ^ 53 ->
            (k - 1) * 2 ^ (- e') < Z.pos m' <= k * 2 ^ (- e') ->
            Int64.sub (F64.to_int (F64.Ceil (S754_finite false m' e'))) 1 = k - 1).
  { intros m' e' He' Hm' Hb. rewrite F64_Ceil_to_int by assumption.
    rewrite ceil_quotient with (k := k); [| apply Z.pow_pos_nonneg; lia | exact Hb].
    apply Int64_sub_small. unfold Int64.in_range, Int64.min_int, Int64.max_int. lia. }
  destruct (Z.eqb_spec c (2 ^ 53)) as [E53 | N53].
  - apply Hidx; [unfold s; lia | lia |].
    replace (- (-53 + (dn - 53) + s + 1)) with (t - 1) by (unfold t, u; lia).
    assert (2 ^ t = 2 * 2 ^ (t - 1)).
    { rewrite <- Z.pow_succ_r by lia. f_equal. lia. }
    change (Z.pos (2 ^ 52)) with (2 ^ 52). lia.
  - assert (0 < c) by lia.
    apply Hidx; [unfold s; lia | rewrite Z2Pos.id by lia; lia |].
    replace (- (-53 + (dn - 53) + s)) with t by (unfold t, u; lia).
    rewrite Z2Pos.id by lia. exact Hkc.
Qed.

(** ** The nearest-rank percentile *)

(** The quantiles [statsHandler] asks for: the binary64 literal, and the
    thousandths it stands for. *)
Definition quantiles : list (F64.float64 * Z) :=
  [(F64.c0_50, 500); (F64.c0_95, 950); (F64.c0_99, 990); (F64.c0_999, 999)].

Lemma quantile_idx (p : F64.float64) (a n : Z) :
  In (p, a) quantiles -> 1 <= n <= 2 ^ 40 ->
  percentile_idx p n = (a * n + 999) / 1000 - 1 /\ 0 < a < 1000.
Proof.
  intros Hin Hn. unfold quantiles in Hin. cbn [In] in Hin.
  destruct Hin as [[= <- <-] | [[= <- <-] | [[= <- <-] | [[= <- <-] | []]]]];
    (split; [apply percentile_idx_exact; [vm_compute; split; congruence
                                         | vm_compute; split; congruence
                                         | exact Hn]
            | lia]).
Qed.

Lemma index_lookup {A} (l : list A) (i : Z) :
  0 <= i -> index l i = l !! Z.to_nat i.
Proof. intros Hi. unfold index. destruct (Z.ltb_spec i 0); [lia | reflexivity]. Qed.

Section AnySort.
Context `{srt : SortFloat64s}.

Lemma Float64s_length (data : list F64.float64) :
  length (Float64s data) = length data.
Proof. apply Permutation_length, Float64s_perm. Qed.

Lemma percentile_unfold (data : list F64.float64) (p : F64.float64) :
  percentile data p =
    index (Float64s data) (percentile_idx p (Z.of_nat (length data))).
Proof. unfold percentile. cbn [app]. rewrite Float64s_length. reflexivity. Qed.

(** [percentile] leaves the slice it is given as it was: it sorts an array
    of its own. *)
Lemma Mem_percentile_pure (h : gmap positive (list F64.float64)) (l : positive)
    (data : list F64.float64) (p : F64.float64) :
  h !! l = Some data ->
  match Mem.percentile h l p with
  | Some (v, h') => percentile data p = Some v /\ h' !! l = Some data
  | None => percentile data p = None
  end.
Proof.
  intros Hl. unfold Mem.percentile, Mem.alloc. rewrite Hl. cbn [mbind option_bind app].
  set (c := fresh (dom h)).
  assert (Hne : c <> l).
  { intros E. apply (is_fresh (dom h)). fold c. rewrite E.
    apply elem_of_dom. exists data. exact Hl. }
  rewrite lookup_insert_eq. cbn [mbind option_bind].
  rewrite lookup_insert_eq. cbn [mbind option_bind].
  rewrite percentile_unfold, Float64s_length.
  destruct (index (Float64s data) _) as [v |]; cbn [mbind option_bind].
  - split; [reflexivity |]. rewrite !lookup_insert_ne by assumption. exact Hl.
  - reflexivity.
Qed.

(** The element [percentile] returns: the index computed in binary64 is
    the exact nearest-rank index, and it is in bounds. *)
Lemma percentile_defined (data : list F64.float64) (p : F64.float64) (a : Z) :
  In (p, a) quantiles ->
  data <> [] ->
  Z.of_nat (length data) <= 2 ^ 40 ->
  let n := Z.of_nat (length data) in
  exists idx v,
    percentile_idx p n = idx /\
    1000 * idx < a * n <= 1000 * (idx + 1) /\
    0 <= idx <= n - 1 /\
    percentile data p = Some v /\
    Float64s data !! Z.to_nat idx = Some v.
Proof.
  intros Hin Hne Hlen n.
  assert (Hn : 1 <= n <= 2 ^ 40).
  { unfold n. destruct data; [contradiction | cbn [length] in *; lia]. }
  destruct (quantile_idx p a n Hin Hn) as [Hidx Ha].
  set (idx := (a * n + 999) / 1000 - 1) in *.
  assert (Hceil : 1000 * idx < a * n <= 1000 * (idx + 1)).
  { unfold idx. pose proof (Z.div_mod (a * n + 999) 1000 ltac:(lia)).
    pose proof (Z.mod_pos_bound (a * n + 999) 1000 ltac:(lia)). lia. }
  assert (Hrange : 0 <= idx <= n - 1) by nia.
  assert (Hlt : (Z.to_nat idx < length (Float64s data))%nat).
  { rewrite Float64s_length. unfold n in Hrange. lia. }
  destruct (lookup_lt_is_Some_2 _ _ Hlt) as [v Hv].
  exists idx, v. repeat split; try assumption; try lia.
  rewrite percentile_unfold. fold n. rewrite Hidx, index_lookup by lia. exact Hv.
Qed.

(** C3. For every non-empty slice (of at most [2^40] elements: 8 TiB of
    samples) and each of the quantiles 0.50, 0.95, 0.99 and 0.999,
    [percentile] returns the element at index [ceil(p * len) - 1] of the
    slice sorted in ascending order, whatever function meeting the
    contract of [sort.Float64s] does the sorting: the index [idx] that the
    function computes in binary64 is the exact one ([idx + 1] is the least
    integer not below [a * len / 1000], for the quantile of [a]
    thousandths), it lies within [0, len - 1], so the access never panics
    and nothing needs clamping; the sorted slice is a permutation of the
    input in ascending order, and every ascending arrangement of the input
    holds the same number at that index (a zero may come with either
    sign); the array of the caller is left as it was; and on a slice of
    one element the result is that element. *)
Theorem percentile_nearest_rank (data : list F64.float64) (p : F64.float64) (a : Z) :
  In (p, a) quantiles ->
  data <> [] ->
  Z.of_nat (length data) <= 2 ^ 40 ->
  let n := Z.of_nat (length data) in
  exists idx v,
    percentile_idx p n = idx /\
    1000 * idx < a * n <= 1000 * (idx + 1) /\
    0 <= idx <= n - 1 /\
    percentile data p = Some v /\
    Float64s data !! Z.to_nat idx = Some v /\
    Permutation (Float64s data) data /\
    ascending (Float64s data) /\
    (forall sorted w,
        Permutation sorted data -> ascending sorted ->
        sorted !! Z.to_nat idx = Some w ->
        v = w \/ exists s s', v = S754_zero s /\ w = S754_zero s') /\
    (forall (h : gmap positive (list F64.float64)) (l : positive),
        h !! l = Some data ->
        exists h', Mem.percentile h l p = Some (v, h') /\ h' !! l = Some data) /\
    (forall x, data = [x] -> v = x).
Proof.
  intros Hin Hne Hlen n.
  destruct (percentile_defined data p a Hin Hne Hlen)
    as (idx & v & Hidx & Hceil & Hrange & Hp & Hv).
  fold n in Hidx, Hceil, Hrange.
  exists idx, v. repeat split; try assumption; try lia.
  - apply Float64s_perm.
  - apply Float64s_ascending.
  - intros sorted w Hperm Hasc Hw.
    apply (ascending_unique (Float64s data) sorted (Z.to_nat idx));
      [apply Float64s_ascending | exact Hasc | | exact Hv | exact Hw].
    rewrite Hperm. apply Float64s_perm.
  - intros h l Hl. pose proof (Mem_percentile_pure h l data p Hl) as Hm.
    destruct (Mem.percentile h l p) as [[v' h'] |].
    + destruct Hm as [Hm1 Hm2]. rewrite Hp in Hm1. injection Hm1 as <-.
      exists h'. split; [reflexivity | exact Hm2].
    + congruence.
  - intros x ->. unfold n in *. cbn [length] in *.
    assert (idx = 0) by lia. replace (Z.to_nat idx) with 0%nat in Hv by lia.
    pose proof (Float64s_perm [x]) as Hperm.
    apply Permutation_singleton_r in Hperm. rewrite Hperm in Hv.
    cbn in Hv. congruence.
Qed.

End AnySort.

(** Twenty-six latencies, from 45 ms down to 20 ms. *)
Definition latencies_example : list F64.float64 :=
  map (fun k => F64.of_int (45 - Z.of_nat k)) (seq 0 26).

Section Examples.
#[local] Existing Instance insertion_sort.

Lemma percentile_nearest_rank_witness :
  In (F64.c0_95, 950) quantiles /\ latencies_example <> [] /\
  Z.of_nat (length latencies_example) <= 2 ^ 40 /\
  percentile latencies_example F64.c0_95 = Some (F64.of_int 44).
Proof.
  assert (Hin : In (F64.c0_95, 950) quantiles) by (right; left; reflexivity).
  assert (Hne : latencies_example <> []) by discriminate.
  assert (Hlen : Z.of_nat (length latencies_example) <= 2 ^ 40)
    by (vm_compute; discriminate).
  split; [exact Hin | split; [exact Hne | split; [exact Hlen |]]].
  destruct (percentile_nearest_rank latencies_example F64.c0_95 950 Hin Hne Hlen)
    as (idx & v & Hidx & _ & _ & Hp & Hv & _).
  rewrite Hp. f_equal.
  assert (E : Float64s latencies_example !! Z.to_nat idx = Some (F64.of_int 44)).
  { rewrite <- Hidx. vm_compute. reflexivity. }
  congruence.
Defined.

End Examples.

(** ** Rounding to two decimals *)

(** [math.Round] rounds the magnitude [m / 2^(-e)] to the integer [q] with
    [q <= m / 2^(-e) + 1/2 < q + 1]: to the nearest integer, and away from
    zero when two are as near. *)
Lemma F64_Round_half_away (s : bool) (m : positive) (e : Z) :
  e < 0 ->
  exists q,
    2 * q * 2 ^ (- e) <= 2 * Z.pos m + 2 ^ (- e) < 2 * (q + 1) * 2 ^ (- e) /\
    F64.Round (S754_finite s m e) =
      if q =? 0 then S754_zero s else F64.of_int (if s then - q else q).
Proof.
  intros He. exists ((2 * Z.pos m + 2 ^ (- e)) / 2 ^ (- e + 1)). split.
  - assert (Hp : 0 < 2 ^ (- e)) by (apply Z.pow_pos_nonneg; lia).
    rewrite Z.pow_add_r, Z.pow_1_r by lia.
    pose proof (Z.div_mod (2 * Z.pos m + 2 ^ (- e)) (2 ^ (- e) * 2) ltac:(lia)).
    pose proof (Z.mod_pos_bound (2 * Z.pos m + 2 ^ (- e)) (2 ^ (- e) * 2) ltac:(lia)).
    lia.
  - unfold F64.Round. destruct (Z.leb_spec 0 e); [lia | reflexivity].
Qed.

Lemma round_zero : round F64.zero = F64.zero.
Proof. vm_compute. reflexivity. Qed.

Lemma round_c100 : round F64.c100 = F64.c100.
Proof. vm_compute. reflexivity. Qed.

(** [round] of a value whose product with 100 has a fractional part. *)
Lemma round_fraction (val : F64.float64) (s : bool) (m : positive) (e : Z) :
  F64.mul val F64.c100 = S754_finite s m e -> e < 0 ->
  exists q,
    2 * q * 2 ^ (- e) <= 2 * Z.pos m + 2 ^ (- e) < 2 * (q + 1) * 2 ^ (- e) /\
    round val =
      F64.div (if q =? 0 then S754_zero s else F64.of_int (if s then - q else q))
              F64.c100.
Proof.
  intros Hm He. destruct (F64_Round_half_away s m e He) as (q & Hq & HR).
  exists q. split; [exact Hq |]. unfold round. rewrite Hm, HR. reflexivity.
Qed.

(** [round] of a value whose product with 100 has no fractional part: a
    whole number, a zero, an infinity or a NaN. *)
Lemma round_integer (val : F64.float64) :
  match F64.mul val F64.c100 with
  | S754_finite _ _ e => 0 <= e
  | _ => True
  end ->
  round val = F64.div (F64.mul val F64.c100) F64.c100.
Proof.
  unfold round. destruct (F64.mul val F64.c100) as [s | s | | s m e]; try reflexivity.
  intros He. unfold F64.Round. destruct (Z.leb_spec 0 e); [reflexivity | lia].
Qed.

(** [float64(b) / 1024 / 1024 / 1024]. *)
Definition toGB (b : Z) : F64.float64 :=
  F64.div (F64.div (F64.div (F64.of_int b) F64.c1024) F64.c1024) F64.c1024.

(** The figures of [getDiskStats]; the zeros that it returns without a call
    are [round 0]. *)
Lemma getDiskStats_round (f : Host.Facts) :
  match Host.statfs f with
  | None =>
      getDiskStats f = (round F64.zero, round F64.zero, round F64.zero)
  | Some stat =>
      let totalBytes := Uint64.mul (Host.Blocks stat) (Uint64.wrap (Host.Bsize stat)) in
      let availBytes := Uint64.mul (Host.Bavail stat) (Uint64.wrap (Host.Bsize stat)) in
      getDiskStats f =
        (round (toGB totalBytes), round (toGB availBytes),
         round (if F64.gtb (round (toGB totalBytes)) F64.zero
                then F64.mul (F64.div (F64.of_int (Uint64.sub totalBytes availBytes))
                                      (F64.of_int totalBytes)) F64.c100
                else F64.zero))
  end.
Proof.
  unfold getDiskStats. destruct (Host.statfs f) as [stat |].
  - cbv zeta. fold (toGB (Uint64.mul (Host.Blocks stat) (Uint64.wrap (Host.Bsize stat)))).
    fold (toGB (Uint64.mul (Host.Bavail stat) (Uint64.wrap (Host.Bsize stat)))).
    destruct (F64.gtb _ _); [reflexivity | rewrite round_zero; reflexivity].
  - rewrite round_zero. reflexivity.
Qed.

Section AnySort.
Context `{srt : SortFloat64s}.

(** C4. [round] is [math.Round] of a hundred times the value, divided by
    a hundred, where [math.Round] gives the nearest integer and, of two
    that are as near, the one away from zero: when the product
    [val * 100] has a fractional part, [round val] is the quotient by a
    hundred of the integer [q] (with the sign of the product) such that
    [q - 1/2 <= |val * 100| < q + 1/2]; when it has none, the quotient of
    the product itself (an eighth becomes 0.13, minus an eighth -0.13).
    And every floating field of the answer of [statsHandler] is [round] of
    the quantity computed for it: the rate, the success rate, the average,
    the four percentiles, the minimum and the maximum of the snapshot, the
    memory and pause figures, the average hop count, and the figures of
    [getTotalMemoryMB], [getAvailableMemoryMB] and [getDiskStats].  Where
    the code stores the constant 0 or 100.0 without a call (the latency
    fields of an empty window, a success rate without requests, a figure
    whose source is missing), the field is [round] of that constant all the
    same, as [round 0 = 0] and [round 100 = 100]. *)
Theorem round_two_decimals (i : StatsInput) (st : Stats) :
  computeStats i = Some st ->
  (forall val s m e,
     F64.mul val F64.c100 = S754_finite s m e -> e < 0 ->
     exists q,
       2 * q * 2 ^ (- e) <= 2 * Z.pos m + 2 ^ (- e) < 2 * (q + 1) * 2 ^ (- e) /\
       round val =
         F64.div (if q =? 0 then S754_zero s else F64.of_int (if s then - q else q))
                 F64.c100) /\
  (forall val,
     match F64.mul val F64.c100 with
     | S754_finite _ _ e => 0 <= e
     | _ => True
     end ->
     round val = F64.div (F64.mul val F64.c100) F64.c100) /\
  round (F64.lit 125 1000) = F64.lit 13 100 /\
  round (F64.lit (-125) 1000) = F64.lit (-13) 100 /\
  round F64.zero = F64.zero /\ round F64.c100 = F64.c100 /\
  let data := latenciesCopy i in
  let hops := proxyHopsCopy i in
  let mem := Host.memStats (facts i) in
  RequestsPerSecond st =
    round (F64.div (F64.of_int (totalRequests i)) (Time.Seconds (sinceStart i))) /\
  SuccessRate st =
    round (if totalRequests i >? 0
           then F64.mul (F64.div (F64.of_int (Int64.sub (totalRequests i) (totalErrors i)))
                                 (F64.of_int (totalRequests i))) F64.c100
           else F64.c100) /\
  match data with
  | [] =>
      Forall (eq (round F64.zero))
        [AvgLatency st; P50Latency st; P95Latency st; P99Latency st; P999Latency st;
         MinLatency st; MaxLatency st]
  | first :: _ =>
      exists sum minLat maxLat p50 p95 p99 p999,
        latencyLoop data (F64.zero, first, first) = (sum, minLat, maxLat) /\
        percentile data F64.c0_50 = Some p50 /\
        percentile data F64.c0_95 = Some p95 /\
        percentile data F64.c0_99 = Some p99 /\
        percentile data F64.c0_999 = Some p999 /\
        AvgLatency st = round (F64.div sum (F64.of_int (Z.of_nat (length data)))) /\
        P50Latency st = round p50 /\ P95Latency st = round p95 /\
        P99Latency st = round p99 /\ P999Latency st = round p999 /\
        MinLatency st = round minLat /\ MaxLatency st = round maxLat
  end /\
  MemoryHeapMB st = round (toMB (Host.Alloc mem)) /\
  MemorySysMB st = round (toMB (Host.Sys mem)) /\
  MemoryTotalMB st = round (toMB (Host.TotalAlloc mem)) /\
  GCPauseMs st = round (F64.div (F64.of_int (lastPauseNs mem)) F64.c1e6) /\
  AvgProxyHops st =
    round (if Z.of_nat (length hops) >? 0
           then F64.div (F64.of_int (sumHops hops)) (F64.of_int (Z.of_nat (length hops)))
           else F64.zero) /\
  TotalMemoryMB st =
    round (match Host.MemTotal_kb (facts i) with
           | Some kb => F64.div kb F64.c1024
           | None => F64.zero
           end) /\
  AvailableMemoryMB st =
    round (match Host.MemAvailable_kb (facts i) with
           | Some kb => F64.div kb F64.c1024
           | None => F64.zero
           end) /\
  match Host.statfs (facts i) with
  | None =>
      Forall (eq (round F64.zero)) [TotalDiskGB st; AvailableDiskGB st; DiskUsagePercent st]
  | Some stat =>
      let totalBytes := Uint64.mul (Host.Blocks stat) (Uint64.wrap (Host.Bsize stat)) in
      let availBytes := Uint64.mul (Host.Bavail stat) (Uint64.wrap (Host.Bsize stat)) in
      TotalDiskGB st = round (toGB totalBytes) /\
      AvailableDiskGB st = round (toGB availBytes) /\
      DiskUsagePercent st =
        round (if F64.gtb (round (toGB totalBytes)) F64.zero
               then F64.mul (F64.div (F64.of_int (Uint64.sub totalBytes availBytes))
                                     (F64.of_int totalBytes)) F64.c100
               else F64.zero)
  end.
Proof.
  intros H.
  split; [exact round_fraction |]. split; [exact round_integer |].
  split; [vm_compute; reflexivity |]. split; [vm_compute; reflexivity |].
  split; [exact round_zero |]. split; [exact round_c100 |].
  cbv zeta.
  assert (Hmem : forall o : option F64.float64,
            match o with
            | Some kb => round (F64.div kb F64.c1024)
            | None => F64.zero
            end =
            round (match o with Some kb => F64.div kb F64.c1024 | None => F64.zero end)).
  { intros [kb |]; [reflexivity | symmetry; exact round_zero]. }
  assert (Havg :
            (if Z.of_nat (length (proxyHopsCopy i)) >? 0
             then round (F64.div (F64.of_int (sumHops (proxyHopsCopy i)))
                           (F64.of_int (Z.of_nat (length (proxyHopsCopy i)))))
             else F64.zero) =
            round (if Z.of_nat (length (proxyHopsCopy i)) >? 0
                   then F64.div (F64.of_int (sumHops (proxyHopsCopy i)))
                          (F64.of_int (Z.of_nat (length (proxyHopsCopy i))))
                   else F64.zero)).
  { destruct (_ >? 0); [reflexivity | symmetry; exact round_zero]. }
  pose proof (getDiskStats_round (facts i)) as Hdisk.
  computeStats_cases H;
    cbn [RequestsPerSecond SuccessRate AvgLatency P50Latency P95Latency P99Latency
         P999Latency MinLatency MaxLatency MemoryHeapMB MemorySysMB MemoryTotalMB
         GCPauseMs AvgProxyHops TotalMemoryMB AvailableMemoryMB TotalDiskGB
         AvailableDiskGB DiskUsagePercent set_SuccessRate];
    unfold getTotalMemoryMB, getAvailableMemoryMB; rewrite !Hmem, Havg, ?Ereq.
  all: (split; [reflexivity |]).
  all: (split; [try reflexivity; try (symmetry; exact round_c100) |]).
  all: (split; [| repeat (split; [reflexivity |]);
                  destruct (Host.statfs (facts i)) as [stat |]; cbv zeta in Hdisk |- *;
                  injection Hdisk as -> -> ->;
                  [repeat split | repeat constructor]]).
  - destruct (latenciesCopy i); [| discriminate Elen].
    rewrite round_zero. repeat constructor.
  - destruct (latenciesCopy i); [| discriminate Elen].
    rewrite round_zero. repeat constructor.
  - destruct (latenciesCopy i) as [| x l] eqn:El; [discriminate Elen |].
    injection Efirst as <-.
    exists sum, minLat, maxLat, p50, p95, p99, p999. repeat split; assumption || reflexivity.
Qed.

End AnySort.

(** An answer after 26 requests in 7 seconds. *)
Definition input_busy : StatsInput :=
  {| in_request := req_mesh;
     latenciesCopy := latencies_example;
     proxyHopsCopy := replicate 26 2;
     totalRequests := 26;
     totalErrors := 0;
     totalViaProxy := 26;
     sinceStart := 7 * Time.Second;
     istioDetected := true;
     facts := facts_example |}.

Section Examples.
#[local] Existing Instance insertion_sort.

Lemma round_two_decimals_witness :
  exists st,
    computeStats input_busy = Some st /\
    RequestsPerSecond st = F64.lit 371 100 /\
    AvgLatency st = F64.lit 325 10 /\
    P95Latency st = F64.of_int 44 /\
    AvgProxyHops st = F64.of_int 2 /\
    DiskUsagePercent st = F64.of_int 75.
Proof.
  destruct (computeStats input_busy) as [st |] eqn:E; [| vm_compute in E; discriminate E].
  exists st. split; [reflexivity |].
  destruct (round_two_decimals input_busy st E)
    as (_ & _ & _ & _ & _ & _ & Hrps & _ & Hlat & _ & _ & _ & _ & Hhops & _ & _ & Hdisk).
  cbn [latenciesCopy input_busy] in Hlat.
  change latencies_example with (F64.of_int 45 :: tail latencies_example) in Hlat at 1.
  cbv iota in Hlat.
  destruct Hlat as (sum & minLat & maxLat & p50 & p95 & p99 & p999 &
                    Hloop & _ & H95 & _ & _ & Havg & _ & Hp95 & _).
  vm_compute in Hloop. injection Hloop as <- _ _.
  vm_compute in H95. injection H95 as <-.
  cbn [facts input_busy Host.statfs facts_example] in Hdisk. cbv zeta in Hdisk.
  destruct Hdisk as (_ & _ & Hdisk).
  rewrite Hrps, Havg, Hp95, Hhops, Hdisk.
  vm_compute. repeat split.
Defined.

End Examples.

(** ** The sidecar probe cache *)

(** The freshness test of [istioSidecarPresent], in plain time: the
    saturation of [Sub] never changes its outcome. *)
Lemma recent_iff (now last : Z) :
  (Time.Since now last <? cooldown) = (now - last <? 30 * 1000000000).
Proof.
  unfold Time.Since, Time.Sub, cooldown, Time.Second, Int64.min_int, Int64.max_int.
  destruct (Z.ltb_spec (now - last) (30 * 1000000000));
    destruct (Z.ltb_spec (Z.max (- 2 ^ 63) (Z.min (2 ^ 63 - 1) (now - last)))
                (30 * 1000000000)); try reflexivity; lia.
Qed.

(** A call within the cooldown of the last check. *)
Definition fresh_at (c : ProbeCache) (w : ProbeWorld) : Prop :=
  now_check w - istioLastChecked c < 30 * 1000000000.

Lemma istioSidecarPresent_fresh (c : ProbeCache) (w : ProbeWorld) :
  fresh_at c w -> istioSidecarPresent c w = (istioPresentCached c, c, []).
Proof.
  unfold fresh_at, istioSidecarPresent. intros H. rewrite recent_iff.
  destruct (Z.ltb_spec (now_check w - istioLastChecked c) (30 * 1000000000));
    [reflexivity | lia].
Qed.

Lemma istioSidecarPresent_stale (c : ProbeCache) (w : ProbeWorld) :
  ~ fresh_at c w ->
  istioSidecarPresent c w =
    (probeEnvoyAdmin (dial w),
     {| istioPresentCached := probeEnvoyAdmin (dial w);
        istioLastChecked := now_store w |},
     [probeEvent]).
Proof.
  unfold fresh_at, istioSidecarPresent. intros H. rewrite recent_iff.
  destruct (Z.ltb_spec (now_check w - istioLastChecked c) (30 * 1000000000));
    [lia | reflexivity].
Qed.

Lemma istio_calls_fresh (c : ProbeCache) (ws : list ProbeWorld) :
  Forall (fresh_at c) ws ->
  istio_calls c ws = (map (fun _ => istioPresentCached c) ws, c, []).
Proof.
  induction 1 as [| w ws Hw _ IH]; cbn [istio_calls map].
  - reflexivity.
  - rewrite istioSidecarPresent_fresh by assumption. rewrite IH. reflexivity.
Qed.

(** C8. One call of [istioSidecarPresent], run without interference from
    another call.  Within 30 seconds of the last check it returns the
    cached boolean, leaves the cache as it is and dials nothing.  Once the
    30 seconds have elapsed (as at the first call of the process) it dials
    the admin port exactly once, stores the outcome (present on a
    connection, absent on every failure) with the current time as
    the time of the check, and returns it.  Calls within the same cooldown
    window all return the same cached boolean without a probe, and so does
    a call within 30 seconds of a refresh. *)
Theorem sidecar_probe_cache (c : ProbeCache) (w : ProbeWorld) :
  (fresh_at c w ->
     istioSidecarPresent c w = (istioPresentCached c, c, [])) /\
  (~ fresh_at c w ->
     exists present,
       istioSidecarPresent c w =
         (present,
          {| istioPresentCached := present; istioLastChecked := now_store w |},
          [probeEvent]) /\
       present = probeEnvoyAdmin (dial w) /\
       (present = true <-> dial w = DialConnected)) /\
  (30 * 1000000000 <= now_check w ->
     (istioSidecarPresent probe_init w).2 = [probeEvent]) /\
  (forall w2, fresh_at c w -> fresh_at c w2 ->
     istio_calls c [w; w2] =
       ([istioPresentCached c; istioPresentCached c], c, [])) /\
  (forall ws, Forall (fresh_at c) ws ->
     istio_calls c ws = (map (fun _ => istioPresentCached c) ws, c, [])) /\
  (forall w2, ~ fresh_at c w ->
     now_check w2 - now_store w < 30 * 1000000000 ->
     istio_calls c [w; w2] =
       ([probeEnvoyAdmin (dial w); probeEnvoyAdmin (dial w)],
        {| istioPresentCached := probeEnvoyAdmin (dial w);
           istioLastChecked := now_store w |},
        [probeEvent])).
Proof.
  split; [apply istioSidecarPresent_fresh |].
  split.
  { intros H. exists (probeEnvoyAdmin (dial w)).
    split; [apply istioSidecarPresent_stale; assumption |].
    split; [reflexivity |].
    destruct (dial w); cbn; split; congruence. }
  split.
  { intros H. rewrite istioSidecarPresent_stale; [reflexivity |].
    unfold fresh_at, probe_init, Time.zero. cbn. lia. }
  split.
  { intros w2 H1 H2. apply (istio_calls_fresh c [w; w2]). repeat constructor; assumption. }
  split; [apply istio_calls_fresh |].
  intros w2 H1 H2. cbn [istio_calls].
  rewrite istioSidecarPresent_stale by assumption.
  rewrite istioSidecarPresent_fresh by exact H2. reflexivity.
Qed.

(** A cache refreshed at second 1000 with the sidecar absent, a call ten
    seconds later and a call forty seconds later that reaches the
    sidecar. *)
Definition cache_example : ProbeCache :=
  {| istioPresentCached := false; istioLastChecked := 1000 * Time.Second |}.

Definition world_fresh : ProbeWorld :=
  {| now_check := 1010 * Time.Second; dial := DialConnected;
     now_store := 1010 * Time.Second + 2 * Time.Millisecond |}.

Definition world_stale : ProbeWorld :=
  {| now_check := 1040 * Time.Second; dial := DialConnected;
     now_store := 1040 * Time.Second + 2 * Time.Millisecond |}.

Lemma sidecar_probe_cache_witness :
  fresh_at cache_example world_fresh /\
  ~ fresh_at cache_example world_stale /\
  istioSidecarPresent cache_example world_fresh = (false, cache_example, []) /\
  (istioSidecarPresent cache_example world_stale).2 = [probeEvent] /\
  (istioSidecarPresent cache_example world_stale).1.1 = true.
Proof.
  assert (Hf : fresh_at cache_example world_fresh) by (vm_compute; reflexivity).
  assert (Hs : ~ fresh_at cache_example world_stale) by (vm_compute; discriminate).
  split; [exact Hf | split; [exact Hs |]].
  split.
  - exact (proj1 (sidecar_probe_cache cache_example world_fresh) Hf).
  - destruct (proj1 (proj2 (sidecar_probe_cache cache_example world_stale)) Hs)
      as (present & -> & -> & _).
    split; reflexivity.
Defined.

(** ** Invariants of the running server *)

Import Server.

Section AnySort.
Context `{srt : SortFloat64s}.

(** An invariant holds in the initial state and is kept by every step. *)
Lemma reachable_invariant (I : State -> Prop) :
  I init -> (forall s s', reachable s -> I s -> step s s' -> I s') ->
  forall s, reachable s -> I s.
Proof. intros H0 Hstep s Hs. induction Hs; eauto. Qed.

End AnySort.

(** *** Counting goroutines *)

Section Count.

Context {A : Type}.
Implicit Types (f : A -> nat) (l : list A).

(** The goroutines of [l] counted by [f] (0 or 1 each). *)
Fixpoint tsum f l : nat :=
  match l with
  | [] => 0
  | x :: l' => f x + tsum f l'
  end.

Lemma tsum_snoc f l x : tsum f (l ++ [x]) = (tsum f l + f x)%nat.
Proof.
  induction l as [| z l IH]; cbn in *; lia.
Qed.

Lemma tsum_insert f l i x y :
  l !! i = Some x -> (tsum f (<[i := y]> l) + f x = tsum f l + f y)%nat.
Proof.
  revert i. induction l as [| z l IH]; intros [| i] H; try discriminate.
  - injection H as ->. cbn. lia.
  - specialize (IH i H). change (<[S i := y]> (z :: l)) with (z :: <[i := y]> l).
    cbn [tsum]. lia.
Qed.

Lemma tsum_lookup f l i x : l !! i = Some x -> (f x <= tsum f l)%nat.
Proof.
  revert i. induction l as [| z l IH]; intros [| i] H; cbn in *;
    try discriminate.
  - injection H as ->. lia.
  - specialize (IH i H). lia.
Qed.

Lemma tsum_lookup2 f l i j x y :
  i <> j -> l !! i = Some x -> l !! j = Some y -> (f x + f y <= tsum f l)%nat.
Proof.
  revert i j. induction l as [| z l IH]; intros [| i] [| j] Hne Hi Hj;
    cbn in *; try discriminate; try contradiction.
  - injection Hi as ->. pose proof (tsum_lookup f l j y Hj). lia.
  - injection Hj as ->. pose proof (tsum_lookup f l i x Hi). lia.
  - assert (i <> j) by congruence. specialize (IH i j ltac:(assumption) Hi Hj). lia.
Qed.

Lemma tsum_le_length f l : (forall x, (f x <= 1)%nat) -> (tsum f l <= length l)%nat.
Proof.
  intros Hf. induction l as [| z l IH]; cbn; [lia |].
  specialize (Hf z). lia.
Qed.

Lemma tsum_le f g l : (forall x, (f x <= g x)%nat) -> (tsum f l <= tsum g l)%nat.
Proof.
  intros Hf. induction l as [| z l IH]; cbn; [lia |].
  specialize (Hf z). lia.
Qed.

End Count.

(** *** The counters *)

(** The handler goroutines that have executed [requests.Add(1)]. *)
Definition counted (t : Thread) : nat :=
  match t with
  | Handler H_AddRequests _ _ => 0
  | Handler _ _ _ => 1
  | _ => 0
  end.

(** Those that have executed [requestsViaProxy.Add(1)]. *)
Definition counted_via (t : Thread) : nat :=
  match t with
  | Handler H_AddRequests _ _ | Handler H_AddViaProxy _ _ => 0
  | Handler _ hops _ => if hops >? 0 then 1 else 0
  | _ => 0
  end.

Lemma counted_via_le (t : Thread) : (counted_via t <= counted t)%nat.
Proof. destruct t as [[] hops lat | |]; cbn; try destruct (hops >? 0); lia. Qed.

Lemma counted_le_1 (t : Thread) : (counted t <= 1)%nat.
Proof. destruct t as [[] hops lat | |]; cbn; lia. Qed.

(** The counters are the numbers of goroutines that have incremented them
    (modulo [2^64]); [errors] is zero. *)
Definition counters_ok (s : State) : Prop :=
  requests s = Int64.wrap (Z.of_nat (tsum counted (threads s))) /\
  requestsViaProxy s = Int64.wrap (Z.of_nat (tsum counted_via (threads s))) /\
  errors s = 0.

Lemma Int64_wrap_add (x y : Z) : Int64.add (Int64.wrap x) y = Int64.wrap (x + y).
Proof.
  unfold Int64.add, Int64.wrap.
  replace (((x + 2 ^ 63) mod 2 ^ 64 - 2 ^ 63 + y + 2 ^ 63))
    with ((x + 2 ^ 63) mod 2 ^ 64 + y) by lia.
  replace (x + y + 2 ^ 63) with ((x + 2 ^ 63) + y) by lia.
  rewrite Z.add_mod_idemp_l by lia. reflexivity.
Qed.

(** The cases of a step: a request arrives, or a goroutine executes a
    statement. *)
Ltac step_cases Hstep :=
  let Hth := fresh "Hth" in
  let Hts := fresh "Hts" in
  inversion Hstep as [ ? r elapsed | ? r | ? r
                     | ? ? i pc hops lat Hth Hts
                     | ? ? i pc l Hth Hts
                     | ? i r Hth ]; subst;
  [ | | | inversion Hts; subst | inversion Hts; subst | ].

Ltac state_simpl :=
  cbn [mu store requests requestsViaProxy errors probeCache threads recorded
       dialled goto spawn set_threads set_requests set_requestsViaProxy set_mu
       set_store set_recorded set_dialled set_probeCache] in *.

(** The count [f] after goroutine [i] has moved. *)
Ltac count_moved f :=
  match goal with
  | Hth : threads ?s !! ?i = Some ?t |- context [tsum f (<[?i := ?t']> (threads ?s))] =>
      let E := fresh "E" in
      pose proof (tsum_insert f (threads s) i t t' Hth) as E;
      cbn [f] in E;
      let X := fresh "X" in
      set (X := tsum f (<[i := t']> (threads s))) in *
  end.

Section AnySort.
Context `{srt : SortFloat64s}.

Lemma counters_ok_step (s s' : State) :
  counters_ok s -> step s s' -> counters_ok s'.
Proof.
  intros (Hr & Hv & He) Hstep. unfold counters_ok.
  step_cases Hstep; unfold handler_start; state_simpl;
    repeat match goal with
           | |- context [if ?b then _ else _] => destruct b eqn:?; state_simpl
           end;
    rewrite ?tsum_snoc; cbn [counted counted_via];
    try count_moved counted; try count_moved counted_via;
    repeat match goal with
           | E : context [if ?b then _ else _] |- _ =>
               match type of E with (_ = _)%nat => destruct b eqn:? end
           end;
    rewrite ?Hr, ?Hv, ?Int64_wrap_add;
    (split; [| split]); try assumption; try (f_equal; lia); try congruence.
Qed.

Lemma counters_ok_reachable (s : State) : reachable s -> counters_ok s.
Proof.
  apply reachable_invariant.
  - repeat split.
  - intros s0 s' _. apply counters_ok_step.
Qed.

End AnySort.

(** *** The lock *)

(** The goroutines inside the critical section of [handler]: between
    [mu.Lock()] and [mu.Unlock()] (a panic there leaves the lock held). *)
Definition writing (t : Thread) : nat :=
  match t with
  | Handler (H_AppendLat | H_AppendHops | H_CheckLen | H_SliceLat
            | H_SliceHops | H_Unlock | H_Panic) _ _ => 1
  | _ => 0
  end.

(** The goroutines inside the critical section of [statsHandler]. *)
Definition reading (t : Thread) : nat :=
  match t with
  | StatsHandler (S_MakeLat | S_MakeHops | S_CopyLat | S_CopyHops | S_RUnlock) _ => 1
  | _ => 0
  end.

(** The mutex counts the readers inside; it is write-locked exactly when
    one goroutine is inside the section of [handler], and then no reader
    is inside. *)
Definition lock_ok (s : State) : Prop :=
  readers (mu s) = tsum reading (threads s) /\
  tsum writing (threads s) = (if writer (mu s) then 1 else 0)%nat /\
  (writer (mu s) = true -> readers (mu s) = 0%nat).

Section AnySort.
Context `{srt : SortFloat64s}.

Lemma lock_ok_step (s s' : State) : lock_ok s -> step s s' -> lock_ok s'.
Proof.
  intros (Hr & Hw & Hx) Hstep. unfold lock_ok.
  step_cases Hstep; unfold handler_start; state_simpl;
    repeat match goal with
           | |- context [if ?b then _ else _] =>
               lazymatch b with
               | writer _ => fail
               | _ => destruct b eqn:?; state_simpl
               end
           end;
    rewrite ?tsum_snoc; cbn [reading writing];
    try count_moved reading; try count_moved writing;
    cbn [writer readers] in *;
    try (pose proof (tsum_lookup writing _ _ _ Hth) as Lw; cbn [writing] in Lw);
    try (pose proof (tsum_lookup reading _ _ _ Hth) as Lr; cbn [reading] in Lr);
    destruct (writer (mu s)) eqn:Ew;
    try (specialize (Hx eq_refl));
    repeat split; try (intros Hf; try discriminate Hf); try congruence; try lia.
Qed.

Lemma lock_ok_reachable (s : State) : reachable s -> lock_ok s.
Proof.
  apply reachable_invariant.
  - repeat split; try reflexivity; intros [=].
  - intros s0 s' _. apply lock_ok_step.
Qed.

(** A goroutine inside the section of [handler] holds the write lock; no
    other goroutine is inside it, and none is inside the section of
    [statsHandler]. *)
Lemma writer_alone (s : State) (i j : nat) (t u : Thread) :
  lock_ok s -> threads s !! i = Some t -> writing t = 1%nat ->
  threads s !! j = Some u -> i <> j -> writing u = 0%nat /\ reading u = 0%nat.
Proof.
  intros (Hr & Hw & Hx) Hi Ht Hj Hne.
  pose proof (tsum_lookup2 writing _ _ _ _ _ Hne Hi Hj) as H2.
  pose proof (tsum_lookup reading _ _ _ Hj) as H3.
  destruct (writer (mu s)); [| lia]. specialize (Hx eq_refl). lia.
Qed.

Lemma writer_holds (s : State) (i : nat) (t : Thread) :
  lock_ok s -> threads s !! i = Some t -> writing t = 1%nat ->
  writer (mu s) = true.
Proof.
  intros (Hr & Hw & Hx) Hi Ht.
  pose proof (tsum_lookup writing _ _ _ Hi). destruct (writer (mu s)); [reflexivity | lia].
Qed.

Lemma reader_excludes (s : State) (i : nat) (t : Thread) :
  lock_ok s -> threads s !! i = Some t -> reading t = 1%nat ->
  writer (mu s) = false.
Proof.
  intros (Hr & Hw & Hx) Hi Ht.
  pose proof (tsum_lookup reading _ _ _ Hi).
  destruct (writer (mu s)); [| reflexivity]. specialize (Hx eq_refl). lia.
Qed.

(** *** [statsHandler] does not panic *)

Lemma percentile_some (data : list F64.float64) (p : F64.float64) (a : Z) :
  In (p, a) quantiles -> data <> [] -> Z.of_nat (length data) <= 2 ^ 40 ->
  exists v, percentile data p = Some v.
Proof.
  intros Hin Hne Hlen.
  destruct (percentile_defined data p a Hin Hne Hlen) as (idx & v & _ & _ & _ & Hp & _).
  eauto.
Qed.

Lemma computeStats_total (i : StatsInput) :
  Z.of_nat (length (latenciesCopy i)) <= 2 ^ 40 ->
  exists st, computeStats i = Some st.
Proof.
  intros Hlen. unfold computeStats.
  destruct (getSystemInfo _) as [hostname kernelVersion].
  destruct (getDiskStats _) as [[totalDiskGB availDiskGB] diskUsagePercent].
  destruct (Z.eqb_spec (Z.of_nat (length (latenciesCopy i))) 0) as [E0 | N0].
  - eauto.
  - assert (Hne : latenciesCopy i <> []).
    { intros E. rewrite E in N0. cbn in N0. lia. }
    destruct (percentile_some _ F64.c0_50 500 ltac:(cbn; tauto) Hne Hlen) as [p50 ->].
    destruct (percentile_some _ F64.c0_95 950 ltac:(cbn; tauto) Hne Hlen) as [p95 ->].
    destruct (percentile_some _ F64.c0_99 990 ltac:(cbn; tauto) Hne Hlen) as [p99 ->].
    destruct (percentile_some _ F64.c0_999 999 ltac:(cbn; tauto) Hne Hlen) as [p999 ->].
    destruct (index (latenciesCopy i) 0) as [first |] eqn:Ef.
    + cbn [mbind option_bind].
      destruct (latencyLoop _ _) as [[sum minLat] maxLat].
      cbn [mbind option_bind]. eauto.
    + unfold index in Ef. cbn in Ef. destruct (latenciesCopy i); [contradiction | discriminate].
Qed.

End AnySort.

(** *** The window and the goroutines *)

(** What holds of the window while a handler is at [pc]: outside its
    critical section nothing; inside, the window of the recorded
    observations with the pending append half done. *)
Definition handler_ok (s : State) (pc : HPc) (hops : Z) (lat : F64.float64) : Prop :=
  match pc with
  | H_AddRequests | H_AddViaProxy | H_Lock | H_Done => True
  | H_AppendLat | H_Unlock => store s = window_of (recorded s)
  | H_AppendHops =>
      exists log0, recorded s = log0 ++ [(lat, hops)] /\
        latencies (store s) = latencies (window_of log0) ++ [lat] /\
        proxyHops (store s) = proxyHops (window_of log0)
  | H_CheckLen =>
      exists log0, recorded s = log0 ++ [(lat, hops)] /\
        latencies (store s) = latencies (window_of log0) ++ [lat] /\
        proxyHops (store s) = proxyHops (window_of log0) ++ [hops]
  | H_SliceLat =>
      exists log0, recorded s = log0 ++ [(lat, hops)] /\
        latencies (store s) = latencies (window_of log0) ++ [lat] /\
        proxyHops (store s) = proxyHops (window_of log0) ++ [hops] /\
        (1000 <= length log0)%nat
  | H_SliceHops =>
      exists log0, recorded s = log0 ++ [(lat, hops)] /\
        latencies (store s) = latencies (window_of (log0 ++ [(lat, hops)])) /\
        proxyHops (store s) = proxyHops (window_of log0) ++ [hops] /\
        (1000 <= length log0)%nat
  | H_Panic => False
  end.

(** The copies are the window as it was after some number of appends. *)
Definition snapshot_of (s : State) (l : SLocals) : Prop :=
  exists k, (k <= length (recorded s))%nat /\
    s_latenciesCopy l = latencies (window_of (take k (recorded s))) /\
    s_proxyHopsCopy l = proxyHops (window_of (take k (recorded s))).

(** The counters a [statsHandler] call has loaded. *)
Definition locals_ok (s : State) (l : SLocals) : Prop :=
  s_totalErrors l = 0 /\
  exists k, (k <= length (threads s))%nat /\
    s_totalRequests l = Int64.wrap (Z.of_nat k).

Section AnySort.
Context `{srt : SortFloat64s}.

(** The response of a call that has answered: what [computeStats] gives
    for its locals. *)
Definition responded (l : SLocals) : Prop :=
  exists resp since f,
    s_response l = Some resp /\ computeStats (input_of l since f) = Some resp.

Definition stats_ok (s : State) (pc : SPc) (l : SLocals) : Prop :=
  locals_ok s l /\
  (pc <> S_Done -> s_response l = None) /\
  match pc with
  | S_RLock | S_MakeLat => True
  | S_MakeHops =>
      length (s_latenciesCopy l) = length (latencies (store s))
  | S_CopyLat =>
      length (s_latenciesCopy l) = length (latencies (store s)) /\
      length (s_proxyHopsCopy l) = length (proxyHops (store s))
  | S_CopyHops =>
      s_latenciesCopy l = latencies (store s) /\
      length (s_proxyHopsCopy l) = length (proxyHops (store s))
  | S_RUnlock =>
      s_latenciesCopy l = latencies (store s) /\
      s_proxyHopsCopy l = proxyHops (store s)
  | S_LoadRequests | S_LoadErrors | S_LoadViaProxy | S_Detect | S_Probe
  | S_StoreProbe | S_Compute => snapshot_of s l
  | S_Done => snapshot_of s l /\ responded l
  | S_Panic => False
  end.

Definition thread_ok (s : State) (t : Thread) : Prop :=
  match t with
  | Handler pc hops lat => handler_ok s pc hops lat
  | StatsHandler pc l => stats_ok s pc l
  | DebugHeadersHandler _ _ => True
  end.

(** The invariant of the server. *)
Definition server_ok (s : State) : Prop :=
  counters_ok s /\ lock_ok s /\
  (writer (mu s) = false -> store s = window_of (recorded s)) /\
  (forall i t, threads s !! i = Some t -> thread_ok s t).

(** A step that leaves the window and the history alone keeps what holds
    of the other goroutines. *)
Lemma thread_ok_same (s s' : State) (t : Thread) :
  store s' = store s -> recorded s' = recorded s ->
  (length (threads s) <= length (threads s'))%nat ->
  thread_ok s t -> thread_ok s' t.
Proof.
  intros Hs Hr Hl. destruct t as [pc hops lat | pc l |]; cbn [thread_ok]; [| | tauto].
  - unfold handler_ok. rewrite Hs, Hr. tauto.
  - unfold stats_ok, locals_ok, snapshot_of. rewrite Hs, Hr.
    intros ((He & (k & Hk & Hq)) & Hpc).
    split; [| exact Hpc]. split; [exact He |].
    exists k. split; [lia | exact Hq].
Qed.

(** A goroutine outside the critical sections is not concerned by an
    append. *)
Lemma thread_ok_outside (s s' : State) (t : Thread) (ext : list (F64.float64 * Z)) :
  writing t = 0%nat -> reading t = 0%nat ->
  recorded s' = recorded s ++ ext ->
  (length (threads s) <= length (threads s'))%nat ->
  thread_ok s t -> thread_ok s' t.
Proof.
  intros Hw Hrd Hr Hl. destruct t as [pc hops lat | pc l |]; cbn [thread_ok]; [| | tauto].
  - destruct pc; cbn in Hw |- *; try discriminate; tauto.
  - unfold stats_ok, locals_ok.
    intros ((He & (k & Hk & Hq)) & Hnone & Hpc).
    assert (Hsnap : snapshot_of s l -> snapshot_of s' l).
    { intros (n & Hn & Hlc & Hhc). exists n. rewrite Hr.
      rewrite length_app, take_app_le by lia. repeat split; [lia | assumption ..]. }
    split; [| split; [exact Hnone |]].
    + split; [exact He |]. exists k. split; [lia | exact Hq].
    + destruct pc; cbn in Hrd; try discriminate; try tauto.
Qed.

Lemma locals_ok_fields (s s' : State) (l l' : SLocals) :
  (length (threads s) <= length (threads s'))%nat ->
  s_totalErrors l' = s_totalErrors l ->
  s_totalRequests l' = s_totalRequests l ->
  locals_ok s l -> locals_ok s' l'.
Proof.
  intros Hlen He Hq (H1 & (k & Hk & H2)). unfold locals_ok.
  rewrite He, Hq. split; [assumption |].
  exists k. split; [lia | assumption].
Qed.

Lemma copy_same_length {A} (dst src : list A) :
  length dst = length src -> copy dst src = src.
Proof.
  intros H. unfold copy. rewrite H, take_ge, drop_ge by lia.
  apply app_nil_r.
Qed.

Lemma window_of_length (log : list (F64.float64 * Z)) :
  length (latencies (window_of log)) = Nat.min 1000 (length log) /\
  length (proxyHops (window_of log)) = Nat.min 1000 (length log).
Proof.
  unfold window_of; cbn [latencies proxyHops].
  rewrite !length_fmap, lastn_length. split; reflexivity.
Qed.

Lemma window_of_snoc_short (log : list (F64.float64 * Z)) (o : F64.float64 * Z) :
  (length log < 1000)%nat ->
  latencies (window_of (log ++ [o])) = latencies (window_of log) ++ [o.1] /\
  proxyHops (window_of (log ++ [o])) = proxyHops (window_of log) ++ [o.2].
Proof.
  intros H. unfold window_of; cbn [latencies proxyHops].
  rewrite lastn_snoc_short by assumption. rewrite !fmap_app. split; reflexivity.
Qed.

Lemma window_of_snoc_full (log : list (F64.float64 * Z)) (o : F64.float64 * Z) :
  (1000 <= length log)%nat ->
  latencies (window_of (log ++ [o])) = drop 1 (latencies (window_of log) ++ [o.1]) /\
  proxyHops (window_of (log ++ [o])) = drop 1 (proxyHops (window_of log) ++ [o.2]).
Proof.
  intros H. unfold window_of; cbn [latencies proxyHops].
  rewrite lastn_snoc_full by lia. rewrite !fmap_drop, !fmap_app. split; reflexivity.
Qed.

Lemma slice1_drop {A} (l l' : list A) : slice1 l = Some l' -> l' = drop 1 l.
Proof. destruct l; cbn; [discriminate | intros [= <-]; reflexivity]. Qed.

Lemma slice1_snoc {A} (l : list A) (x : A) : slice1 (l ++ [x]) <> None.
Proof. destruct l; cbn; discriminate. Qed.

Lemma Store_eq (a b : Store) :
  latencies a = latencies b -> proxyHops a = proxyHops b -> a = b.
Proof. destruct a, b; cbn; intros -> ->; reflexivity. Qed.

(** The goroutines after goroutine [i] has moved from [t] to [t']. *)
Lemma threads_ok_goto (s s' : State) (i : nat) (t t' : Thread) :
  threads s' = <[i := t']> (threads s) ->
  threads s !! i = Some t ->
  thread_ok s' t' ->
  (forall j u, j <> i -> threads s !! j = Some u -> thread_ok s u -> thread_ok s' u) ->
  (forall j u, threads s !! j = Some u -> thread_ok s u) ->
  forall j u, threads s' !! j = Some u -> thread_ok s' u.
Proof.
  intros Hth Hi Hself Hframe Hall j u Hj. rewrite Hth in Hj.
  apply list_lookup_insert_Some in Hj as [(-> & <- & _) | (Hne & Hj)].
  - exact Hself.
  - apply (Hframe j); [congruence | exact Hj | apply (Hall j); exact Hj].
Qed.

(** The goroutines after a request has arrived. *)
Lemma threads_ok_spawn (s s' : State) (t : Thread) :
  threads s' = threads s ++ [t] ->
  thread_ok s' t ->
  (forall u, thread_ok s u -> thread_ok s' u) ->
  (forall j u, threads s !! j = Some u -> thread_ok s u) ->
  forall j u, threads s' !! j = Some u -> thread_ok s' u.
Proof.
  intros Hth Hself Hframe Hall j u Hj. rewrite Hth in Hj.
  apply lookup_snoc_Some in Hj as [(_ & Hj) | (_ & <-)].
  - apply Hframe, (Hall j), Hj.
  - exact Hself.
Qed.

End AnySort.

Lemma locals0_ok (s : State) (r : Http.Request) : locals_ok s (locals0 r).
Proof.
  unfold locals_ok, locals0; cbn. split; [reflexivity |].
  exists 0%nat. split; [lia | reflexivity].
Qed.

Lemma requests_loaded (s : State) :
  counters_ok s ->
  exists k, (k <= length (threads s))%nat /\ requests s = Int64.wrap (Z.of_nat k).
Proof.
  intros (Hr & _). exists (tsum counted (threads s)). split; [| exact Hr].
  apply tsum_le_length, counted_le_1.
Qed.

(** The other goroutines, after a step that leaves the window alone. *)
Ltac frame_same :=
  intros ? ? _ _; apply thread_ok_same; cbn;
  rewrite ?length_insert; try reflexivity; lia.

(** The other goroutines, after a step inside the critical section of
    [handler]. *)
Ltac frame_outside Hl Hth ext :=
  let j := fresh "j" in
  let u := fresh "u" in
  let Hne := fresh "Hne" in
  let Hj := fresh "Hj" in
  let Hw := fresh "Hw" in
  let Hr := fresh "Hr" in
  intros j u Hne Hj;
  destruct (writer_alone _ _ j _ u Hl Hth eq_refl Hj ltac:(congruence)) as [Hw Hr];
  apply (thread_ok_outside _ _ u ext Hw Hr); cbn;
  rewrite ?length_insert, ?app_nil_r; try reflexivity; lia.

Ltac ok_simpl :=
  cbn [thread_ok handler_ok stats_ok mu store requests requestsViaProxy errors
       probeCache threads recorded dialled goto spawn set_threads set_requests
       set_requestsViaProxy set_mu set_store set_recorded set_dialled
       set_probeCache writer readers s_r s_latenciesCopy s_proxyHopsCopy
       s_totalRequests s_totalErrors s_totalViaProxy s_present s_istioDetected
       s_response set_latenciesCopy set_proxyHopsCopy set_totalRequests
       set_totalErrors set_totalViaProxy set_present set_istioDetected
       set_response latencies proxyHops fst snd] in *.

Ltac keep_locals Hloc :=
  revert Hloc; apply locals_ok_fields;
  [cbn; rewrite ?length_insert; lia | reflexivity ..].

Ltac moved Hth Ht :=
  match type of Hth with
  | threads ?s !! _ = _ =>
      eapply (threads_ok_goto s); [reflexivity | exact Hth | | | exact Ht]
  end.

Section AnySort.
Context `{srt : SortFloat64s}.

Lemma server_ok_step (s s' : State) : server_ok s -> step s s' -> server_ok s'.
Proof.
  intros (Hc & Hl & Hs & Ht) Hstep.
  pose proof (counters_ok_step s s' Hc Hstep) as Hc'.
  pose proof (lock_ok_step s s' Hl Hstep) as Hl'.
  split; [exact Hc' |]. split; [exact Hl' |]. clear Hc' Hl'.
  step_cases Hstep.
  (* a request arrives *)
  1-3: split; [exact Hs |];
       eapply (threads_ok_spawn s); [reflexivity | | | exact Ht];
       [ cbn; try exact I; try (split; [apply locals0_ok | split; [reflexivity | exact I]])
       | intros u; apply thread_ok_same; cbn; rewrite ?length_app; cbn; try reflexivity; lia ].
  all: try specialize (Ht _ _ Hth) as Hme; cbn [thread_ok] in Hme.
  (* handler *)
  - (* requests.Add(1) *)
    split; [exact Hs |]. moved Hth Ht; [exact I | frame_same].
  - (* requestsViaProxy.Add(1) *)
    destruct (hops >? 0); (split; [exact Hs |]); (moved Hth Ht; [exact I | frame_same]).
  - (* mu.Lock() *)
    split; [intros [=] |]. moved Hth Ht; [cbn; auto | frame_same].
  - (* append to latencies *)
    pose proof (writer_holds _ _ _ Hl Hth eq_refl) as Hwr.
    split; [cbn; congruence |].
    moved Hth Ht; [| frame_outside Hl Hth [(lat, hops)]].
    ok_simpl. exists (recorded s). rewrite Hme. repeat split.
  - (* append to proxyHops *)
    pose proof (writer_holds _ _ _ Hl Hth eq_refl) as Hwr.
    split; [cbn; congruence |].
    moved Hth Ht; [| frame_outside Hl Hth (@nil (F64.float64 * Z))].
    ok_simpl. destruct Hme as (log0 & H1 & H2 & H3).
    exists log0. rewrite H2, H3. repeat split. exact H1.
  - (* len(latencies) > 1000 *)
    split; [exact Hs |].
    moved Hth Ht; [| frame_same].
    ok_simpl. destruct Hme as (log0 & H1 & H2 & H3).
    pose proof (window_of_length log0) as [L1 L2].
    assert (Hlen : length (latencies (store s)) = (Nat.min 1000 (length log0) + 1)%nat).
    { rewrite H2, length_app, L1. reflexivity. }
    unfold W. destruct (Z.gtb_spec (Z.of_nat (length (latencies (store s)))) 1000).
    + ok_simpl. exists log0. repeat split; try assumption. lia.
    + ok_simpl. destruct (window_of_snoc_short log0 (lat, hops) ltac:(lia)) as [S1 S2].
      rewrite H1. apply Store_eq; cbn [fst snd] in *; congruence.
  - (* latencies[1:] *)
    pose proof (writer_holds _ _ _ Hl Hth eq_refl) as Hwr.
    split; [cbn; congruence |].
    moved Hth Ht; [| frame_outside Hl Hth (@nil (F64.float64 * Z))].
    ok_simpl. destruct Hme as (log0 & H1 & H2 & H3 & H4).
    exists log0. repeat split; try assumption.
    destruct (window_of_snoc_full log0 (lat, hops) H4) as [S1 _].
    match goal with H : slice1 _ = Some _ |- _ => apply slice1_drop in H; rewrite H end.
    rewrite S1, H2. reflexivity.
  - (* latencies[1:] does not panic *)
    exfalso. ok_simpl. destruct Hme as (log0 & H1 & H2 & H3 & H4).
    match goal with H : slice1 _ = None |- _ => rewrite H2 in H; exact (slice1_snoc _ _ H) end.
  - (* proxyHops[1:] *)
    pose proof (writer_holds _ _ _ Hl Hth eq_refl) as Hwr.
    split; [cbn; congruence |].
    moved Hth Ht; [| frame_outside Hl Hth (@nil (F64.float64 * Z))].
    ok_simpl. destruct Hme as (log0 & H1 & H2 & H3 & H4).
    destruct (window_of_snoc_full log0 (lat, hops) H4) as [_ S2].
    match goal with H : slice1 _ = Some _ |- _ => apply slice1_drop in H; rewrite H end.
    rewrite H1. apply Store_eq; cbn [latencies proxyHops fst snd] in *; congruence.
  - (* proxyHops[1:] does not panic *)
    exfalso. ok_simpl. destruct Hme as (log0 & H1 & H2 & H3 & H4).
    match goal with H : slice1 _ = None |- _ => rewrite H3 in H; exact (slice1_snoc _ _ H) end.
  - (* mu.Unlock() *)
    split; [intros _; exact Hme |]. moved Hth Ht; [exact I | frame_same].
  (* statsHandler *)
  - (* mu.RLock() *)
    split; [intros _; apply Hs; assumption |]. moved Hth Ht; [| frame_same].
    destruct Hme as (Hloc & Hnone & _).
    split; [keep_locals Hloc | split; [intros _; apply Hnone; discriminate | exact I]].
  - (* make latenciesCopy *)
    split; [exact Hs |]. moved Hth Ht; [| frame_same].
    destruct Hme as (Hloc & Hnone & _).
    split; [keep_locals Hloc | split; [intros _; apply Hnone; discriminate |]].
    ok_simpl. apply length_replicate.
  - (* make proxyHopsCopy *)
    split; [exact Hs |]. moved Hth Ht; [| frame_same].
    destruct Hme as (Hloc & Hnone & Hpc).
    split; [keep_locals Hloc | split; [intros _; apply Hnone; discriminate |]].
    ok_simpl. split; [exact Hpc | apply length_replicate].
  - (* copy latencies *)
    split; [exact Hs |]. moved Hth Ht; [| frame_same].
    destruct Hme as (Hloc & Hnone & Hl1 & Hl2).
    split; [keep_locals Hloc | split; [intros _; apply Hnone; discriminate |]].
    ok_simpl. split; [apply copy_same_length; exact Hl1 | exact Hl2].
  - (* copy proxyHops *)
    split; [exact Hs |]. moved Hth Ht; [| frame_same].
    destruct Hme as (Hloc & Hnone & Hl1 & Hl2).
    split; [keep_locals Hloc | split; [intros _; apply Hnone; discriminate |]].
    ok_simpl. split; [exact Hl1 | apply copy_same_length; exact Hl2].
  - (* mu.RUnlock() *)
    pose proof (reader_excludes _ _ _ Hl Hth eq_refl) as Hwr.
    split; [intros _; apply Hs; exact Hwr |]. moved Hth Ht; [| frame_same].
    destruct Hme as (Hloc & Hnone & Hl1 & Hl2).
    split; [keep_locals Hloc | split; [intros _; apply Hnone; discriminate |]].
    unfold snapshot_of. ok_simpl. exists (length (recorded s)). rewrite take_ge by lia.
    rewrite <- (Hs Hwr). repeat split; [lia | assumption ..].
  - (* requests.Load() *)
    split; [exact Hs |]. moved Hth Ht; [| frame_same].
    destruct Hme as ((He & _) & Hnone & Hpc).
    split; [| split; [intros _; apply Hnone; discriminate | exact Hpc]].
    split; [exact He |].
    destruct (requests_loaded s Hc) as (k & Hk & Hq). exists k.
    split; [cbn; rewrite length_insert; lia | exact Hq].
  - (* errors.Load() *)
    split; [exact Hs |]. moved Hth Ht; [| frame_same].
    destruct Hme as ((He & (k & Hk & Hq)) & Hnone & Hpc).
    split; [| split; [intros _; apply Hnone; discriminate | exact Hpc]].
    split; [apply Hc |].
    exists k. split; [cbn; rewrite length_insert; lia | exact Hq].
  - (* requestsViaProxy.Load() *)
    split; [exact Hs |]. moved Hth Ht; [| frame_same].
    destruct Hme as (Hloc & Hnone & Hpc).
    split; [keep_locals Hloc | split; [intros _; apply Hnone; discriminate | exact Hpc]].
  - (* the headers decide *)
    split; [exact Hs |]. moved Hth Ht; [| frame_same].
    destruct Hme as (Hloc & Hnone & Hpc).
    split; [keep_locals Hloc | split; [intros _; apply Hnone; discriminate | exact Hpc]].
  - (* the cache is fresh *)
    split; [exact Hs |]. moved Hth Ht; [| frame_same].
    destruct Hme as (Hloc & Hnone & Hpc).
    split; [keep_locals Hloc | split; [intros _; apply Hnone; discriminate | exact Hpc]].
  - (* the cache is stale *)
    split; [exact Hs |]. moved Hth Ht; [| frame_same].
    destruct Hme as (Hloc & Hnone & Hpc).
    split; [keep_locals Hloc | split; [intros _; apply Hnone; discriminate | exact Hpc]].
  - (* the probe *)
    split; [exact Hs |]. moved Hth Ht; [| frame_same].
    destruct Hme as (Hloc & Hnone & Hpc).
    split; [keep_locals Hloc | split; [intros _; apply Hnone; discriminate | exact Hpc]].
  - (* the cache is written *)
    split; [exact Hs |]. moved Hth Ht; [| frame_same].
    destruct Hme as (Hloc & Hnone & Hpc).
    split; [keep_locals Hloc | split; [intros _; apply Hnone; discriminate | exact Hpc]].
  - (* the response *)
    split; [exact Hs |]. moved Hth Ht; [| frame_same].
    destruct Hme as (Hloc & Hnone & Hpc).
    split; [keep_locals Hloc | split; [intros Hd; contradiction |]].
    split; [exact Hpc |]. exists resp, since, f. split; [reflexivity | assumption].
  - (* the computation does not panic *)
    exfalso. destruct Hme as (_ & _ & (k & Hk & Hlc & _)).
    destruct (computeStats_total (input_of l since f)) as [st Hst]; [| congruence].
    cbn. rewrite Hlc. destruct (window_of_length (take k (recorded s))) as [-> _]. lia.
  (* debugHeadersHandler *)
  - split; [exact Hs |]. moved Hth Ht; [exact I | frame_same].
Qed.

Lemma server_ok_reachable (s : State) : reachable s -> server_ok s.
Proof.
  apply reachable_invariant.
  - split; [repeat split |]. split; [repeat split; try reflexivity; intros [=] |].
    split; [reflexivity |]. intros i t [=].
  - intros s0 s' _. apply server_ok_step.
Qed.

End AnySort.

(** *** The success rate *)

(** With no error counted, the success rate of [r > 0] requests is
    [r / r * 100], which is 100 in binary64 whatever [r]. *)
Lemma success_rate_no_error (r : Z) :
  Int64.in_range r -> 0 < r ->
  F64.mul (F64.div (F64.of_int (Int64.sub r 0)) (F64.of_int r)) F64.c100 = F64.c100.
Proof.
  intros Hr Hpos. rewrite Int64_sub_small by (rewrite Z.sub_0_r; exact Hr).
  rewrite Z.sub_0_r.
  destruct (F64_of_int_int64_finite r) as (m & e & ->).
  { unfold Int64.in_range, Int64.max_int in Hr. lia. }
  rewrite F64_div_self. vm_compute. reflexivity.
Qed.

Section AnySort.
Context `{srt : SortFloat64s}.

Lemma computeStats_success_rate (i : StatsInput) (st : Stats) :
  computeStats i = Some st ->
  totalErrors i = 0 -> Int64.in_range (totalRequests i) ->
  SuccessRate st = F64.c100.
Proof.
  intros H He Hr.
  computeStats_cases H; cbn [SuccessRate set_SuccessRate]; rewrite ?He.
  - apply Z.gtb_gt in Ereq.
    rewrite success_rate_no_error by (assumption || lia). apply round_c100.
  - reflexivity.
  - destruct (Z.gtb_spec (totalRequests i) 0).
    + rewrite success_rate_no_error by (assumption || lia). apply round_c100.
    + apply round_c100.
Qed.

(** *** The empty window *)



(** *** Schedules are runs *)

Lemma exec_step (s s' : State) (a : Action) : exec s a = Some s' -> step s s'.
Proof.
  destruct a as [r elapsed | r | r | i w]; cbn [exec].
  - intros [= <-]. constructor.
  - intros [= <-]. constructor.
  - intros [= <-]. constructor.
  - destruct (threads s !! i) as [[pc hops lat | pc l | r [|]] |] eqn:Hth;
      try discriminate.
    + intros H. eapply step_handler; [exact Hth |].
      destruct pc; cbn [exec_handler] in H; try discriminate.
      * injection H as <-. constructor.
      * injection H as <-. constructor.
      * destruct (writer (mu s)) eqn:Ew; [discriminate |].
        destruct (readers (mu s)) eqn:Er; [| discriminate].
        injection H as <-. constructor; assumption.
      * injection H as <-. constructor.
      * injection H as <-. constructor.
      * injection H as <-. constructor.
      * destruct (slice1 (latencies (store s))) eqn:E; injection H as <-;
          constructor; assumption.
      * destruct (slice1 (proxyHops (store s))) eqn:E; injection H as <-;
          constructor; assumption.
      * injection H as <-. constructor.
    + intros H. eapply step_stats; [exact Hth |].
      destruct pc; cbn [exec_stats] in H; try discriminate.
      * destruct (writer (mu s)) eqn:Ew; [discriminate |].
        injection H as <-. constructor; assumption.
      * injection H as <-. constructor.
      * injection H as <-. constructor.
      * injection H as <-. constructor.
      * injection H as <-. constructor.
      * injection H as <-. constructor.
      * injection H as <-. constructor.
      * injection H as <-. constructor.
      * injection H as <-. constructor.
      * destruct (hasIstioHeaders (s_r l)) eqn:Eh.
        -- injection H as <-. constructor; assumption.
        -- destruct (Time.Since (w_now w) _ <? cooldown) eqn:Ec; injection H as <-.
           ++ eapply ss_Detect_cached; eassumption.
           ++ eapply ss_Detect_stale; eassumption.
      * injection H as <-. constructor.
      * injection H as <-. constructor.
      * destruct (computeStats _) eqn:Ec; injection H as <-.
        -- eapply ss_Compute; eassumption.
        -- eapply ss_Compute_panic; eassumption.
    + intros [= <-]. apply step_debug. exact Hth.
Qed.

Lemma run_reachable (s s' : State) (sched : list Action) :
  reachable s -> run s sched = Some s' -> reachable s'.
Proof.
  revert s. induction sched as [| a sched IH]; intros s Hs; cbn [run].
  - intros [= <-]. exact Hs.
  - destruct (exec s a) as [s1 |] eqn:E; [| discriminate]. cbn [mbind option_bind].
    apply IH. eapply reachable_step; [exact Hs | apply exec_step with a; exact E].
Qed.

(** *** The counters move up by one *)

Lemma counts_step (s s' : State) :
  step s s' ->
  (tsum counted (threads s') = tsum counted (threads s) \/
   tsum counted (threads s') = S (tsum counted (threads s))) /\
  (tsum counted_via (threads s') = tsum counted_via (threads s) \/
   tsum counted_via (threads s') = S (tsum counted_via (threads s))) /\
  errors s' = errors s.
Proof.
  intros Hstep.
  step_cases Hstep; unfold handler_start; state_simpl;
    repeat match goal with
           | |- context [if ?b then _ else _] => destruct b eqn:?; state_simpl
           end;
    rewrite ?tsum_snoc; cbn [counted counted_via];
    try count_moved counted; try count_moved counted_via;
    repeat match goal with
           | E : context [if ?b then _ else _] |- _ =>
               match type of E with (_ = _)%nat => destruct b eqn:? end
           end;
    (split; [| split]); try reflexivity; lia.
Qed.

Lemma counters_in_range (s : State) :
  counters_ok s -> Z.of_nat (length (threads s)) <= Int64.max_int ->
  requests s = Z.of_nat (tsum counted (threads s)) /\
  requestsViaProxy s = Z.of_nat (tsum counted_via (threads s)) /\
  errors s = 0.
Proof.
  intros (Hr & Hv & He) Hlen.
  pose proof (tsum_le_length counted (threads s) counted_le_1).
  pose proof (tsum_le counted_via counted (threads s) counted_via_le).
  rewrite Hr, Hv, !Int64_wrap_small
    by (unfold Int64.in_range, Int64.min_int, Int64.max_int in *; lia).
  auto.
Qed.

(** C9. The three counters are zero when the server starts.  In every
    reachable state (with fewer than [2^63] requests received, so that no
    [int64] has wrapped around) [requests_via_proxy <= requests], and
    every step of every goroutine leaves each counter as it is or adds one
    to it: none is ever decremented or reset ([errors] never moves). *)
Theorem counters_monotone (s : State) :
  reachable s ->
  Z.of_nat (length (threads s)) <= Int64.max_int ->
  (requests init = 0 /\ errors init = 0 /\ requestsViaProxy init = 0) /\
  0 <= requestsViaProxy s <= requests s /\
  0 <= errors s /\
  (forall s', step s s' ->
     Z.of_nat (length (threads s')) <= Int64.max_int ->
     (requests s' = requests s \/ requests s' = requests s + 1) /\
     (requestsViaProxy s' = requestsViaProxy s \/
      requestsViaProxy s' = requestsViaProxy s + 1) /\
     errors s' = errors s).
Proof.
  intros Hs Hlen. split; [repeat split |].
  pose proof (counters_ok_reachable s Hs) as Hc.
  destruct (counters_in_range s Hc Hlen) as (Hr & Hv & He).
  pose proof (tsum_le counted_via counted (threads s) counted_via_le).
  split; [lia |]. split; [lia |].
  intros s' Hstep Hlen'.
  pose proof (counters_ok_step s s' Hc Hstep) as Hc'.
  destruct (counters_in_range s' Hc' Hlen') as (Hr' & Hv' & He').
  destruct (counts_step s s' Hstep) as (Cr & Cv & Ce).
  rewrite Hr, Hv, Hr', Hv'. repeat split; [lia | lia | exact Ce].
Qed.

End AnySort.

(** *** The window seen by the readers *)

Lemma window_of_zip (log : list (F64.float64 * Z)) :
  zip (latencies (window_of log)) (proxyHops (window_of log)) =
    drop (length log - 1000) log.
Proof. unfold window_of; cbn [latencies proxyHops]. apply zip_fst_snd. Qed.

(** The program points of [statsHandler] at which both copies are made. *)
Definition snapshot_taken (pc : SPc) : bool :=
  match pc with
  | S_RLock | S_MakeLat | S_MakeHops | S_CopyLat | S_CopyHops | S_Panic => false
  | _ => true
  end.

(** A goroutine that a run-time panic has ended. *)
Definition panicked (t : Thread) : bool :=
  match t with
  | Handler H_Panic _ _ | StatsHandler S_Panic _ => true
  | _ => false
  end.

Lemma snapshot_aligned (s : State) (l : SLocals) :
  snapshot_of s l ->
  length (s_latenciesCopy l) = length (s_proxyHopsCopy l) /\
  exists k, (k <= length (recorded s))%nat /\
    zip (s_latenciesCopy l) (s_proxyHopsCopy l) =
      drop (k - 1000) (take k (recorded s)).
Proof.
  intros (k & Hk & -> & ->).
  destruct (window_of_length (take k (recorded s))) as [-> ->].
  split; [reflexivity |]. exists k. split; [exact Hk |].
  rewrite window_of_zip, length_take. do 2 f_equal. lia.
Qed.

Lemma tsum_pos {A} (f : A -> nat) (l : list A) :
  (0 < tsum f l)%nat -> exists i x, l !! i = Some x /\ (0 < f x)%nat.
Proof.
  induction l as [| z l IH]; cbn [tsum]; [lia |]. intros H.
  destruct (f z) eqn:E.
  - destruct (IH ltac:(lia)) as (i & x & Hi & Hx). exists (S i), x. auto.
  - exists 0%nat, z. split; [reflexivity | lia].
Qed.

Section AnySort.
Context `{srt : SortFloat64s}.

(** Inside the critical section of [handler] the two slices are at most
    one element apart. *)
Lemma store_lengths (s : State) :
  server_ok s ->
  let n := length (latencies (store s)) in
  let m := length (proxyHops (store s)) in
  (n <= 1001 /\ m <= 1001 /\ n <= m + 1 /\ m <= n + 1)%nat.
Proof.
  intros (_ & Hl & Hw & Ht) n m. unfold n, m.
  destruct (writer (mu s)) eqn:Ew.
  - destruct Hl as (_ & Hsum & _). rewrite Ew in Hsum. cbn iota in Hsum.
    destruct (tsum_pos writing (threads s) ltac:(lia)) as (i & t & Hi & Hpos).
    specialize (Ht i t Hi).
    destruct t as [pc hops lat | pc l |]; cbn in Hpos; try lia.
    cbn [thread_ok] in Ht.
    destruct pc; cbn in Hpos; try lia; cbn [handler_ok] in Ht.
    + rewrite Ht. destruct (window_of_length (recorded s)) as [-> ->]. lia.
    + destruct Ht as (log0 & _ & -> & ->). rewrite length_app.
      destruct (window_of_length log0) as [-> ->]. cbn [length]. lia.
    + destruct Ht as (log0 & _ & -> & ->). rewrite !length_app.
      destruct (window_of_length log0) as [-> ->]. cbn [length]. lia.
    + destruct Ht as (log0 & _ & -> & -> & _). rewrite !length_app.
      destruct (window_of_length log0) as [-> ->]. cbn [length]. lia.
    + destruct Ht as (log0 & _ & -> & -> & _). rewrite !length_app.
      destruct (window_of_length log0) as [_ ->].
      destruct (window_of_length (log0 ++ [(lat, hops)])) as [-> _].
      rewrite length_app. cbn [length]. lia.
    + rewrite Ht. destruct (window_of_length (recorded s)) as [-> ->]. lia.
    + destruct Ht.
  - rewrite (Hw eq_refl). destruct (window_of_length (recorded s)) as [-> ->]. lia.
Qed.

(** C2. In every reachable state in which no handler is inside its
    critical section (the write lock is free: the only states a reader can
    observe, since a goroutine copying the window excludes the writers),
    the latencies and the hop counts have the same length and their
    [i]-th entries are those of one observation: zipped, they are the last
    1000 recorded observations in order.  Every snapshot [statsHandler] has
    taken consists of two copies of the same length, index-aligned, the
    window as it was after some number of appends, whatever the
    interleaving of the goroutines.  In the states in between, while a
    handler is inside its critical section, the two slices hold at most
    1001 elements and are at most one element apart.  No goroutine has
    panicked. *)
Theorem snapshot_alignment (s : State) :
  reachable s ->
  (writer (mu s) = false ->
     length (latencies (store s)) = length (proxyHops (store s)) /\
     zip (latencies (store s)) (proxyHops (store s)) =
       drop (length (recorded s) - 1000) (recorded s)) /\
  (forall i pc l, threads s !! i = Some (StatsHandler pc l) ->
     reading (StatsHandler pc l) = 1%nat ->
     writer (mu s) = false /\
     forall j u, threads s !! j = Some u -> writing u = 0%nat) /\
  (forall i pc l, threads s !! i = Some (StatsHandler pc l) ->
     snapshot_taken pc = true ->
     length (s_latenciesCopy l) = length (s_proxyHopsCopy l) /\
     exists k, (k <= length (recorded s))%nat /\
       zip (s_latenciesCopy l) (s_proxyHopsCopy l) =
         drop (k - 1000) (take k (recorded s))) /\
  (length (latencies (store s)) <= 1001 /\
   length (proxyHops (store s)) <= 1001 /\
   length (latencies (store s)) <= length (proxyHops (store s)) + 1 /\
   length (proxyHops (store s)) <= length (latencies (store s)) + 1)%nat /\
  (forall i t, threads s !! i = Some t -> panicked t = false).
Proof.
  intros Hs. pose proof (server_ok_reachable s Hs) as Hok.
  pose proof (store_lengths s Hok) as Hlen. cbn zeta in Hlen.
  destruct Hok as (Hc & Hl & Hw & Ht).
  split; [| split; [| split; [| split]]]; [| | | exact Hlen |].
  - intros Hfree. rewrite (Hw Hfree).
    destruct (window_of_length (recorded s)) as [-> ->].
    split; [reflexivity | apply window_of_zip].
  - intros i pc l Hi Hr.
    pose proof (reader_excludes s i _ Hl Hi Hr) as Hfree.
    split; [exact Hfree |]. intros j u Hj.
    destruct Hl as (_ & Hsum & _). rewrite Hfree in Hsum.
    pose proof (tsum_lookup writing _ _ _ Hj). lia.
  - intros i pc l Hi Htaken. specialize (Ht i _ Hi). cbn [thread_ok] in Ht.
    destruct Ht as (_ & _ & Hpc).
    assert (Hsnap : snapshot_of s l).
    { destruct pc; cbn in Htaken; try discriminate; try exact Hpc.
      - destruct Hpc as [H1 H2].
        pose proof (reader_excludes s i _ Hl Hi eq_refl) as Hfree.
        exists (length (recorded s)). rewrite take_ge by lia.
        rewrite <- (Hw Hfree). repeat split; [lia | assumption ..].
      - exact (proj1 Hpc). }
    apply snapshot_aligned. exact Hsnap.
  - intros i t Hi. specialize (Ht i t Hi).
    destruct t as [[] hops lat | [] l |]; try reflexivity.
    + destruct Ht.
    + destruct Ht as (_ & _ & []).
Qed.

(** *** The responses *)

Lemma response_of (s : State) (i : nat) (pc : SPc) (l : SLocals) (resp : Stats) :
  server_ok s -> threads s !! i = Some (StatsHandler pc l) ->
  s_response l = Some resp ->
  pc = S_Done /\ s_totalErrors l = 0 /\ Int64.in_range (s_totalRequests l) /\
  exists since f, computeStats (input_of l since f) = Some resp.
Proof.
  intros (_ & _ & _ & Ht) Hi Hresp. specialize (Ht i _ Hi). cbn [thread_ok] in Ht.
  destruct Ht as ((He & (k & _ & Hq)) & Hnone & Hpc).
  assert (pc = S_Done) as ->.
  { destruct pc; try reflexivity; rewrite Hnone in Hresp by discriminate;
      discriminate. }
  split; [reflexivity |]. split; [exact He |]. split.
  - rewrite Hq. apply Int64_wrap_range.
  - destruct Hpc as (_ & resp' & since & f & Hr & Hcs).
    exists since, f. congruence.
Qed.

Lemma done_responded (s : State) (i : nat) (l : SLocals) :
  server_ok s -> threads s !! i = Some (StatsHandler S_Done l) ->
  exists resp, s_response l = Some resp.
Proof.
  intros (_ & _ & _ & Ht) Hi. specialize (Ht i _ Hi). cbn [thread_ok] in Ht.
  destruct Ht as (_ & _ & _ & resp & since & f & Hr & _). eauto.
Qed.

(** C10. No step of the server changes [errors], so it is zero in every
    reachable state; every response of [statsHandler] reports zero errors
    and a success rate of 100, in the branch of the empty window and in the
    other one, whatever requests were served and however the goroutines
    interleaved.  Every call that reaches its end has such a response. *)
Theorem errors_never_counted (s : State) :
  reachable s ->
  errors s = 0 /\
  (forall s', step s s' -> errors s' = errors s) /\
  (forall i pc l resp,
     threads s !! i = Some (StatsHandler pc l) ->
     s_response l = Some resp ->
     Errors resp = 0 /\ SuccessRate resp = F64.c100) /\
  (forall i l,
     threads s !! i = Some (StatsHandler S_Done l) ->
     exists resp, s_response l = Some resp) /\
  (forall (i : StatsInput) (st : Stats),
     computeStats i = Some st -> totalErrors i = 0 ->
     Int64.in_range (totalRequests i) ->
     Errors st = 0 /\ SuccessRate st = F64.c100).
Proof.
  intros Hs. pose proof (server_ok_reachable s Hs) as Hok.
  assert (Hpure : forall (i : StatsInput) (st : Stats),
             computeStats i = Some st -> totalErrors i = 0 ->
             Int64.in_range (totalRequests i) ->
             Errors st = 0 /\ SuccessRate st = F64.c100).
  { intros i st Hst He Hr. split.
    - destruct (computeStats_counters i st Hst) as (_ & -> & _). exact He.
    - apply (computeStats_success_rate i st Hst He Hr). }
  split; [apply Hok |]. split; [intros s' Hstep; apply (counts_step s s' Hstep) |].
  split; [| split; [| exact Hpure]].
  - intros i pc l resp Hi Hresp.
    destruct (response_of s i pc l resp Hok Hi Hresp)
      as (_ & He & Hr & since & f & Hst).
    apply (Hpure _ _ Hst); assumption.
  - intros i l Hi. apply (done_responded s i l Hok Hi).
Qed.


End AnySort.

(** *** Two runs *)

(** The world of the examples: the sidecar does not answer. *)
Definition world_example : World :=
  {| w_now := 1700000000 * Time.Second;
     w_dial := DialRefused;
     w_since := 5 * Time.Second;
     w_facts := facts_example |}.

Definition req_plain : Http.Request :=
  {| Http.Header := ∅; Http.RemoteAddr := "10.0.0.2:4000" |}.

(** A request through three proxies is served to its end, then the
    statistics are asked for. *)
Definition sched_served : list Action :=
  Request req_xff (25 * Time.Millisecond)
  :: replicate 7 (Run 0 world_example)
  ++ StatsRequest req_mesh
  :: replicate 11 (Run 1 world_example).


Section Examples.
#[local] Existing Instance insertion_sort.

Lemma sched_served_runs : is_Some (run init sched_served).
Proof. vm_compute. eauto. Qed.


Lemma snapshot_alignment_witness :
  exists s l,
    run init sched_served = Some s /\
    threads s !! 1%nat = Some (StatsHandler S_Done l) /\
    length (s_latenciesCopy l) = length (s_proxyHopsCopy l) /\
    zip (latencies (store s)) (proxyHops (store s)) = [(F64.of_int 25, 3)].
Proof.
  destruct sched_served_runs as [s E]. 
  pose proof (run_reachable init s sched_served reachable_init E) as Hs.
  destruct (snapshot_alignment s Hs) as (Hfree & _ & Hsnap & _).
  assert (Hth : exists l, threads s !! 1%nat = Some (StatsHandler S_Done l)).
  { vm_compute in E. injection E as <-. eexists. reflexivity. }
  destruct Hth as [l Hth]. exists s, l. split; [exact E |]. split; [exact Hth |].
  split; [apply (Hsnap 1%nat S_Done l Hth eq_refl) |].
  assert (Hw : writer (mu s) = false) by (vm_compute in E; injection E as <-; reflexivity).
  rewrite (proj2 (Hfree Hw)).
  vm_compute in E. injection E as <-. vm_compute. reflexivity.
Defined.

Lemma counters_monotone_witness :
  exists s,
    run init sched_served = Some s /\
    Z.of_nat (length (threads s)) <= Int64.max_int /\
    requests s = 1 /\ requestsViaProxy s = 1 /\
    requestsViaProxy s <= requests s.
Proof.
  destruct sched_served_runs as [s E].
  pose proof (run_reachable init s sched_served reachable_init E) as Hs.
  assert (Hlen : Z.of_nat (length (threads s)) <= Int64.max_int).
  { vm_compute in E. injection E as <-. vm_compute. discriminate. }
  destruct (counters_monotone s Hs Hlen) as (_ & Hle & _).
  exists s. split; [exact E |]. split; [exact Hlen |].
  split; [vm_compute in E; injection E as <-; reflexivity |].
  split; [vm_compute in E; injection E as <-; reflexivity |].
  apply Hle.
Defined.

Lemma errors_never_counted_witness :
  exists s l resp,
    run init sched_served = Some s /\
    threads s !! 1%nat = Some (StatsHandler S_Done l) /\
    s_response l = Some resp /\
    length (s_latenciesCopy l) = 1%nat /\
    Errors resp = 0 /\ SuccessRate resp = F64.c100.
Proof.
  destruct sched_served_runs as [s E].
  pose proof (run_reachable init s sched_served reachable_init E) as Hs.
  destruct (errors_never_counted s Hs) as (_ & _ & Hresp & _).
  assert (Hth : exists l resp,
             threads s !! 1%nat = Some (StatsHandler S_Done l) /\
             s_response l = Some resp /\ length (s_latenciesCopy l) = 1%nat).
  { vm_compute in E. injection E as <-. do 2 eexists.
    split; [reflexivity |]. split; reflexivity. }
  destruct Hth as (l & resp & Hth & Hr & Hone).
  exists s, l, resp. split; [exact E |]. split; [exact Hth |].
  split; [exact Hr |]. split; [exact Hone |].
  apply (Hresp 1%nat S_Done l resp Hth Hr).
Defined.


End Examples.

(** *** What the interleaving allows

    Two runs that show where the properties above stop.  The counters are
    loaded one after the other, so a response can report a request as
    proxied that it does not yet count; and two calls that both find the
    probe cache stale both dial, the later store deciding what is cached. *)

Definition sched_between_loads : list Action :=
  StatsRequest req_plain
  :: replicate 7 (Run 0 world_example)
  ++ Request req_xff (25 * Time.Millisecond)
  :: replicate 2 (Run 1 world_example)
  ++ replicate 6 (Run 0 world_example).

Definition world_up : World :=
  {| w_now := 1700000002 * Time.Second;
     w_dial := DialConnected;
     w_since := 7 * Time.Second;
     w_facts := facts_example |}.

Definition sched_two_probes : list Action :=
  StatsRequest req_plain
  :: StatsRequest req_plain
  :: replicate 10 (Run 0 world_example)
  ++ replicate 10 (Run 1 world_example)
  ++ [Run 0 world_example; Run 0 world_example;
      Run 1 world_up; Run 1 world_up].

Section Examples.
#[local] Existing Instance insertion_sort.

Example response_loads_are_separate :
  exists s l resp,
    run init sched_between_loads = Some s /\
    threads s !! 0%nat = Some (StatsHandler S_Done l) /\
    s_response l = Some resp /\
    Requests resp = 0 /\ RequestsViaProxy resp = 1 /\
    requests s = 1 /\ requestsViaProxy s = 1.
Proof.
  assert (E : is_Some (run init sched_between_loads)) by (vm_compute; eauto).
  destruct E as [s E]. vm_compute in E. injection E as <-.
  do 3 eexists. split; [vm_compute; reflexivity |].
  split; [reflexivity |]. split; [reflexivity |]. repeat split.
Qed.

Example overlapping_calls_both_probe :
  exists s,
    run init sched_two_probes = Some s /\
    dialled s = [probeEvent; probeEvent] /\
    probeCache s = {| istioPresentCached := true;
                      istioLastChecked := 1700000002 * Time.Second |}.
Proof.
  assert (E : is_Some (run init sched_two_probes)) by (vm_compute; eauto).
  destruct E as [s E]. vm_compute in E. injection E as <-.
  eexists. split; [vm_compute; reflexivity |]. split; reflexivity.
Qed.

End Examples.

(** * Part III: further properties *)

(** ** More on the headers *)

(** The request with every header cut down to its first value. *)
Definition first_values (r : Http.Request) : Http.Request :=
  {| Http.Header := take 1 <$> Http.Header r; Http.RemoteAddr := Http.RemoteAddr r |}.

Lemma Get_first_values (r : Http.Request) (key : string) :
  Http.Get (Http.Header (first_values r)) key = Http.Get (Http.Header r) key.
Proof.
  unfold Http.Get, first_values. cbn [Http.Header]. rewrite lookup_fmap.
  destruct (Http.Header r !! Http.CanonicalMIMEHeaderKey key) as [[| v vs] |];
    reflexivity.
Qed.

Lemma collectDebugHeaders_fold (r : Http.Request) (l : list string)
    (m : gmap string string) (k : string) :
  fold_left
    (fun (m : gmap string string) hdr =>
       let val := Http.Get (Http.Header r) hdr in
       if Http.nonempty val then <[hdr := val]> m else m) l m !! k =
  if decide (k ∈ l /\ Http.nonempty (Http.Get (Http.Header r) k) = true)
  then Some (Http.Get (Http.Header r) k) else m !! k.
Proof.
  revert m. induction l as [| hdr l IH]; intros m; cbn [fold_left].
  - destruct (decide _) as [[H _] |]; [| reflexivity]. inversion H.
  - rewrite IH. cbn zeta.
    destruct (decide (k ∈ l /\ _)) as [[Hin Hne] | Hn].
    + rewrite decide_True; [reflexivity |]. split; [right; exact Hin | exact Hne].
    + destruct (decide (k = hdr)) as [-> | Hk].
      * destruct (Http.nonempty (Http.Get (Http.Header r) hdr)) eqn:E.
        -- rewrite lookup_insert_eq, decide_True; [reflexivity |].
           split; [left | reflexivity].
        -- rewrite decide_False; [reflexivity |]. intros [_ H]. discriminate.
      * assert (Hm : (if Http.nonempty (Http.Get (Http.Header r) hdr)
                      then <[hdr := Http.Get (Http.Header r) hdr]> m else m) !! k
                     = m !! k).
        { destruct (Http.nonempty (Http.Get (Http.Header r) hdr));
          [apply lookup_insert_ne; congruence | reflexivity]. }
        rewrite Hm. rewrite decide_False; [reflexivity |].
        intros [Hin Hne]. apply Hn. split; [| exact Hne].
        apply elem_of_cons in Hin as [-> | Hin]; [contradiction | exact Hin].
Qed.

Lemma collectDebugHeaders_lookup (r : Http.Request) (k v : string) :
    collectDebugHeaders r !! k = Some v <->
    k ∈ headersToCheck /\ Http.Get (Http.Header r) k = v /\ Http.nonempty v = true.
Proof.
  unfold collectDebugHeaders. rewrite collectDebugHeaders_fold.
  destruct (decide _) as [[Hin Hne] | Hn].
  - split.
    + intros [= <-]. auto.
    + intros (_ & <- & _). reflexivity.
  - rewrite lookup_empty. split; [discriminate |].
    intros (Hin & <- & Hne). exfalso. apply Hn. auto.
Qed.

(** X1. The hop heuristics read a header through [Header.Get], which
    gives the first value stored under the name: a request and the same
    request with every header cut down to its first value have the same
    traditional and mesh hop counts, the same total, the same Istio
    signal and the same debug headers.  Values after the first (a second
    [X-Forwarded-For] line, say) are never counted. *)
Theorem hops_read_first_value (r : Http.Request) :
  countProxyHops (first_values r) = countProxyHops r /\
  countServiceMeshHops (first_values r) = countServiceMeshHops r /\
  countTotalHops (first_values r) = countTotalHops r /\
  hasIstioHeaders (first_values r) = hasIstioHeaders r /\
  collectDebugHeaders (first_values r) = collectDebugHeaders r.
Proof.
  unfold countTotalHops, countProxyHops, countServiceMeshHops, hasIstioHeaders,
    collectDebugHeaders, headersToCheck.
  cbn [fold_left]. rewrite !Get_first_values. repeat split.
Qed.

Section AnySort.
Context `{srt : SortFloat64s}.

(** X2. The [debug_headers] of an answer of [statsHandler]: a name is
    bound exactly when it is one of the eight names of [headersToCheck]
    and the request carries it with a non-empty first value, and it is
    bound to that value. *)
Theorem debug_headers_lookup (r : Http.Request) (k v : string) :
  (collectDebugHeaders r !! k = Some v <->
     k ∈ headersToCheck /\ Http.Get (Http.Header r) k = v /\ Http.nonempty v = true) /\
  (forall i : StatsInput, in_request i = r ->
     forall st, computeStats i = Some st -> DebugHeaders st = collectDebugHeaders r).
Proof.
  split; [apply collectDebugHeaders_lookup |].
  intros i <- st H. computeStats_cases H; reflexivity.
Qed.

Lemma Get_empty_debug (r : Http.Request) (k : string) :
  collectDebugHeaders r = ∅ -> k ∈ headersToCheck ->
  Http.Get (Http.Header r) k = EmptyString.
Proof.
  intros He Hin.
  destruct (Http.Get (Http.Header r) k) as [| c s] eqn:E; [reflexivity |].
  assert (H : collectDebugHeaders r !! k = Some (String c s)).
  { apply collectDebugHeaders_lookup. rewrite E. auto. }
  rewrite He, lookup_empty in H. discriminate.
Qed.

Definition input_plain : StatsInput :=
  {| in_request := req_plain;
     latenciesCopy := [];
     proxyHopsCopy := [];
     totalRequests := 0;
     totalErrors := 0;
     totalViaProxy := 0;
     sinceStart := 5 * Time.Second;
     istioDetected := false;
     facts := facts_example |}.

(** X3. Every header that counts as a hop is echoed: an answer whose
    [debug_headers] are empty reports no traditional hop, no mesh hop, a
    total of zero and no proxy detected. *)
Theorem no_debug_header_no_hop (i : StatsInput) (st : Stats) :
  computeStats i = Some st ->
  DebugHeaders st = ∅ ->
  ProxyHopCount st = 0 /\ ServiceMeshHops st = 0 /\ TotalHopCount st = 0 /\
  CurrentHopCount st = 0 /\ ProxyDetected st = false.
Proof.
  intros H He.
  destruct (computeStats_hop_fields i st H) as (Hp & Hm & Ht & Hc & Hd).
  assert (Hdbg : collectDebugHeaders (in_request i) = ∅).
  { rewrite <- He. clear -H. computeStats_cases H; reflexivity. }
  assert (Hg : forall k, k ∈ headersToCheck ->
                 Http.Get (Http.Header (in_request i)) k = EmptyString).
  { intros k. apply Get_empty_debug. exact Hdbg. }
  assert (P0 : countProxyHops (in_request i) = 0).
  { unfold countProxyHops. rewrite !Hg by (unfold headersToCheck; set_solver).
    reflexivity. }
  assert (M0 : countServiceMeshHops (in_request i) = 0).
  { unfold countServiceMeshHops. rewrite !Hg by (unfold headersToCheck; set_solver).
    reflexivity. }
  rewrite Hd, Hc, Ht, Hp, Hm, P0, M0. repeat split.
Qed.

(** The headers [hasIstioHeaders] looks for. *)
Definition istioMarkers : list string :=
  ["X-B3-TraceId"; "X-Envoy-Decorator-Operation"; "X-Request-Id";
   "X-Envoy-Attempt-Count"; "X-Envoy-Internal"].

Definition req_attempt : Http.Request :=
  {| Http.Header := Http.Set_ ∅ "X-Envoy-Attempt-Count" "1";
     Http.RemoteAddr := "10.0.0.1:5000" |}.

(** X4. [hasIstioHeaders] holds exactly when one of its five headers has
    a non-empty value.  Three of them are mesh markers, so a request
    without the signal has at most two mesh hops
    ([X-Envoy-External-Address] and [X-B3-SpanId]); the other two are no
    markers: a request with [X-Envoy-Attempt-Count] alone gives the signal
    with no hop at all. *)
Theorem istio_header_signal (r : Http.Request) :
  (hasIstioHeaders r = true <->
     exists k, k ∈ istioMarkers /\ Http.nonempty (Http.Get (Http.Header r) k) = true) /\
  (hasIstioHeaders r = false -> 0 <= countServiceMeshHops r <= 2) /\
  (hasIstioHeaders req_attempt = true /\ countTotalHops req_attempt = 0).
Proof.
  split; [| split].
  - unfold hasIstioHeaders, istioMarkers. split.
    + intros H.
      destruct (Http.nonempty (Http.Get _ "X-B3-TraceId")) eqn:E1;
        [eexists; split; [| exact E1]; set_solver |].
      destruct (Http.nonempty (Http.Get _ "X-Envoy-Decorator-Operation")) eqn:E2;
        [eexists; split; [| exact E2]; set_solver |].
      destruct (Http.nonempty (Http.Get _ "X-Request-Id")) eqn:E3;
        [eexists; split; [| exact E3]; set_solver |].
      destruct (Http.nonempty (Http.Get _ "X-Envoy-Attempt-Count")) eqn:E4;
        [eexists; split; [| exact E4]; set_solver |].
      destruct (Http.nonempty (Http.Get _ "X-Envoy-Internal")) eqn:E5;
        [eexists; split; [| exact E5]; set_solver |].
      discriminate.
    + intros (k & Hin & Hk).
      repeat (apply elem_of_cons in Hin as [-> | Hin];
              [rewrite Hk; repeat destruct (Http.nonempty _); reflexivity |]).
      inversion Hin.
  - unfold hasIstioHeaders, countServiceMeshHops. intros H.
    destruct (Http.nonempty (Http.Get _ "X-B3-TraceId")); [discriminate |].
    destruct (Http.nonempty (Http.Get _ "X-Envoy-Decorator-Operation")); [discriminate |].
    destruct (Http.nonempty (Http.Get _ "X-Request-Id")); [discriminate |].
    clear H. do 2 destruct (Http.nonempty _); vm_compute; split; discriminate.
  - vm_compute. split; reflexivity.
Qed.

Lemma copyHeader_list_to_map (order : list (string * list string)) :
  copyHeader order = list_to_map (rev order).
Proof.
  unfold copyHeader. rewrite <- fold_left_rev_right.
  induction (rev order) as [| [k v] l IH]; cbn; [reflexivity |].
  rewrite IH. reflexivity.
Qed.

Lemma copyHeader_any_order (h : gmap string (list string))
    (order : list (string * list string)) :
  order ≡ₚ map_to_list h -> copyHeader order = h.
Proof.
  intros Hp. rewrite copyHeader_list_to_map.
  transitivity (list_to_map (M := gmap string (list string)) (map_to_list h));
    [| apply list_to_map_to_list].
  apply list_to_map_proper.
  - rewrite <- (Permutation_rev order), Hp. apply NoDup_fst_map_to_list.
  - rewrite <- (Permutation_rev order). exact Hp.
Qed.

(** X5. The answer of [debugHeadersHandler]: the copy of the headers is
    the header map of the request, in whatever order the map is iterated;
    [hop_count] is [total_hop_count]; and the counts are those that
    [statsHandler] reports for the same request and that [handler] records
    for it. *)
Theorem debug_response_agrees (r : Http.Request) :
  let d := debugHeadersHandler r in
  (forall order, order ≡ₚ map_to_list (Http.Header r) -> copyHeader order = Http.Header r) /\
  headers d = Http.Header r /\
  remote_addr d = Http.RemoteAddr r /\
  hop_count d = total_hop_count d /\
  (forall elapsed,
     Server.handler_start r elapsed =
       Server.Handler Server.H_AddRequests (total_hop_count d)
         (F64.of_int (Time.Milliseconds elapsed))) /\
  (forall (i : StatsInput) (st : Stats),
     in_request i = r -> computeStats i = Some st ->
     ProxyHopCount st = proxy_hop_count d /\
     ServiceMeshHops st = mesh_hop_count d /\
     TotalHopCount st = total_hop_count d /\
     CurrentHopCount st = hop_count d).
Proof.
  cbn zeta. split; [apply copyHeader_any_order |].
  split; [apply copyHeader_any_order; reflexivity |].
  split; [reflexivity |]. split; [reflexivity |]. split; [reflexivity |].
  intros i st <- H.
  destruct (computeStats_hop_fields i st H) as (Hp & Hm & Ht & Hc & _).
  cbn [debugHeadersHandler proxy_hop_count mesh_hop_count total_hop_count hop_count].
  rewrite Hc, Ht, Hp, Hm. repeat split.
Qed.

End AnySort.

Section Examples.
#[local] Existing Instance insertion_sort.

Lemma no_debug_header_no_hop_witness :
  exists st,
    computeStats input_plain = Some st /\ DebugHeaders st = ∅ /\
    TotalHopCount st = 0 /\ ProxyDetected st = false.
Proof.
  destruct (computeStats input_plain) as [st |] eqn:E; [| vm_compute in E; discriminate E].
  assert (He : DebugHeaders st = ∅).
  { vm_compute in E. injection E as <-. reflexivity. }
  destruct (no_debug_header_no_hop input_plain st E He) as (_ & _ & Ht & _ & Hd).
  exists st. split; [reflexivity |]. split; [exact He |]. split; [exact Ht | exact Hd].
Defined.

End Examples.

(** ** Whole numbers in binary64 *)

Lemma digits2_scaled (K : positive) (t : Z) (M : positive) :
  0 <= t -> Z.pos M = Z.pos K * 2 ^ t ->
  Z.pos (digits2_pos M) = Z.pos (digits2_pos K) + t.
Proof.
  intros Ht HM. apply digits2_unique. rewrite HM.
  pose proof (digits2_bounds K) as [Klo Khi].
  set (d := Z.pos (digits2_pos K)) in *.
  assert (0 < 2 ^ t) by (apply Z.pow_pos_nonneg; lia).
  replace (d + t - 1) with (d - 1 + t) by lia.
  rewrite !Z.pow_add_r by lia. nia.
Qed.

(** Rounding a mantissa that stands for the integer [K] (of at most 53
    bits) gives the conversion of [K]. *)
Lemma binary_round_aux_of_int (K M : positive) (t : Z) :
  0 <= t -> Z.pos M = Z.pos K * 2 ^ t ->
  Z.pos (digits2_pos K) <= 53 -> 53 <= Z.pos (digits2_pos K) + t ->
  binary_round_aux 53 1024 false (Z.pos M) (- t) loc_Exact = F64.of_int (Z.pos K).
Proof.
  intros Ht HM HK Hbig.
  rewrite F64_of_int_exact by assumption.
  pose proof (digits2_scaled K t M Ht HM) as HD.
  pose proof (digits2_bounds K) as [Klo Khi].
  set (d := Z.pos (digits2_pos K)) in *.
  destruct (Z.eq_dec (d + t) 53) as [E53 | N53].
  - rewrite binary_round_aux_exact by lia.
    f_equal; [| lia]. replace (53 - d) with t by lia. rewrite <- HM. reflexivity.
  - pose proof (binary_round_aux_round M (- t)) as Hbr. cbv zeta in Hbr.
    rewrite HD in Hbr.
    destruct Hbr as (c & Hc & Hex & Hq & ->); [lia | lia |].
    set (n := d + t - 53) in *.
    assert (Hn : 0 < n <= t) by (unfold n; lia).
    assert (H2n : 0 < 2 ^ n) by (apply Z.pow_pos_nonneg; lia).
    assert (Hsplit : Z.pos M = Z.pos K * 2 ^ (53 - d) * 2 ^ n).
    { rewrite HM, <- Z.mul_assoc, <- Z.pow_add_r by lia. do 2 f_equal. unfold n. lia. }
    assert (Hmod : Z.pos M mod 2 ^ n = 0) by (rewrite Hsplit; apply Z.mod_mul; lia).
    assert (Hdiv : Z.pos M / 2 ^ n = Z.pos K * 2 ^ (53 - d))
      by (rewrite Hsplit; apply Z.div_mul; lia).
    rewrite (Hex Hmod), Hdiv in *.
    destruct (Z.eqb_spec (Z.pos K * 2 ^ (53 - d)) (2 ^ 53)) as [E | _]; [lia |].
    f_equal. unfold n. lia.
Qed.

Lemma digits2_le (k : positive) (b : Z) :
  0 <= b -> Z.pos k < 2 ^ b -> Z.pos (digits2_pos k) <= b.
Proof.
  intros Hb Hk. pose proof (digits2_bounds k) as [Klo _].
  destruct (Z.le_gt_cases (Z.pos (digits2_pos k)) b) as [| Hbig]; [assumption |].
  assert (2 ^ b <= 2 ^ (Z.pos (digits2_pos k) - 1)) by (apply Z.pow_le_mono_r; lia).
  lia.
Qed.

Lemma digits2_ge (k : positive) (b : Z) :
  2 ^ b <= Z.pos k -> b + 1 <= Z.pos (digits2_pos k).
Proof.
  intros Hk. pose proof (digits2_bounds k) as [_ Khi].
  destruct (Z.le_gt_cases (b + 1) (Z.pos (digits2_pos k))) as [| Hsmall]; [assumption |].
  assert (2 ^ Z.pos (digits2_pos k) <= 2 ^ b) by (apply Z.pow_le_mono_r; lia).
  lia.
Qed.

(** A whole number times a hundred, below [2^53]: the product is exact. *)
Lemma F64_mul_c100 (k : positive) :
  100 * Z.pos k < 2 ^ 53 ->
  F64.mul (F64.of_int (Z.pos k)) F64.c100 = F64.of_int (100 * Z.pos k).
Proof.
  intros Hk.
  assert (Hd : Z.pos (digits2_pos k) <= 53) by (apply digits2_le; lia).
  rewrite F64_of_int_exact by assumption.
  pose proof (digits2_bounds k) as [Klo Khi].
  set (d := Z.pos (digits2_pos k)) in *.
  assert (Hp : 0 < 2 ^ (53 - d)) by (apply Z.pow_pos_nonneg; lia).
  unfold F64.mul, F64.c100, F64.prec, F64.emax, SFmul. cbn [xorb].
  replace (d - 53 + -46) with (- (99 - d)) by lia.
  change (100 * Z.pos k) with (Z.pos (100 * k)).
  apply binary_round_aux_of_int.
  - lia.
  - rewrite Pos2Z.inj_mul, Z2Pos.id by lia.
    replace (99 - d) with ((53 - d) + 46) by lia. rewrite Z.pow_add_r by lia.
    change (Z.pos 7036874417766400) with (100 * 2 ^ 46). 
    rewrite Pos2Z.inj_mul. ring.
  - apply digits2_le; lia.
  - assert (7 <= Z.pos (digits2_pos (100 * k))) by (apply (digits2_ge _ 6); lia). lia.
Qed.

(** [math.Round] leaves the whole numbers as they are. *)
Lemma F64_Round_of_int (K : positive) :
  Z.pos K < 2 ^ 53 -> F64.Round (F64.of_int (Z.pos K)) = F64.of_int (Z.pos K).
Proof.
  intros HK.
  assert (Hd : Z.pos (digits2_pos K) <= 53) by (apply digits2_le; lia).
  rewrite F64_of_int_exact at 1 by assumption.
  set (d := Z.pos (digits2_pos K)) in *.
  assert (Hp : 0 < 2 ^ (53 - d)) by (apply Z.pow_pos_nonneg; lia).
  unfold F64.Round. destruct (Z.leb_spec 0 (d - 53)) as [H0 | H0].
  - rewrite F64_of_int_exact by assumption. reflexivity.
  - rewrite Z2Pos.id by lia.
    replace (- (d - 53)) with (53 - d) by lia.
    replace (2 * (Z.pos K * 2 ^ (53 - d)) + 2 ^ (53 - d))
      with (2 ^ (53 - d) * (2 * Z.pos K + 1)) by ring.
    rewrite Z.pow_add_r, Z.pow_1_r by lia.
    rewrite Z.div_mul_cancel_l by lia.
    replace ((2 * Z.pos K + 1) / 2) with (Z.pos K)
      by (apply Z.div_unique with (r := 1); lia).
    cbn [Z.eqb]. reflexivity.
Qed.

(** A hundred times a whole number, divided by a hundred: the quotient
    is exact. *)
Lemma F64_div_c100 (k : positive) :
  100 * Z.pos k < 2 ^ 53 ->
  F64.div (F64.of_int (100 * Z.pos k)) F64.c100 = F64.of_int (Z.pos k).
Proof.
  intros Hk.
  change (100 * Z.pos k) with (Z.pos (100 * k)).
  assert (HdK : Z.pos (digits2_pos (100 * k)) <= 53) by (apply digits2_le; lia).
  rewrite F64_of_int_exact by assumption.
  pose proof (digits2_bounds (100 * k)) as [Klo Khi].
  pose proof (digits2_bounds k) as [klo khi].
  set (dK := Z.pos (digits2_pos (100 * k))) in *.
  set (d := Z.pos (digits2_pos k)) in *.
  assert (HdK7 : dK <= d + 7).
  { apply digits2_le; [lia |]. rewrite Pos2Z.inj_mul, Z.pow_add_r by lia.
    change (2 ^ 7) with 128. lia. }
  assert (Hp : 0 < 2 ^ (53 - dK)) by (apply Z.pow_pos_nonneg; lia).
  set (mK := Z.to_pos (Z.pos (100 * k) * 2 ^ (53 - dK))).
  assert (HmK : Z.pos mK = 100 * Z.pos k * 2 ^ (53 - dK)).
  { unfold mK. rewrite Z2Pos.id by lia. rewrite Pos2Z.inj_mul. reflexivity. }
  assert (HdmK : Z.pos (digits2_pos mK) = 53).
  { rewrite (digits2_scaled (100 * k) (53 - dK) mK); fold dK; [lia | lia |].
    rewrite HmK, Pos2Z.inj_mul. reflexivity. }
  unfold F64.div, F64.c100, F64.prec, F64.emax, SFdiv, SFdiv_core_binary.
  cbn [Zdigits2 xorb]. rewrite HdmK.
  change (Z.pos (digits2_pos 7036874417766400)) with 53.
  replace (53 + (dK - 53) - (53 + -46)) with (dK - 7) by lia.
  replace (dK - 53 - -46) with (dK - 7) by lia.
  rewrite fexp64.
  replace (Z.min (Z.max (dK - 7 - 53) (-1074)) (dK - 7)) with (dK - 60) by lia.
  replace (dK - 7 - (dK - 60)) with 53 by lia.
  rewrite Z.shiftl_mul_pow2 by lia.
  set (q := Z.pos k * 2 ^ (60 - dK)).
  assert (H60 : 0 < 2 ^ (60 - dK)) by (apply Z.pow_pos_nonneg; lia).
  assert (Hprod : Z.pos mK * 2 ^ 53 = q * Z.pos 7036874417766400).
  { rewrite HmK. unfold q. change (Z.pos 7036874417766400) with (100 * 2 ^ 46).
    replace (60 - dK) with ((53 - dK) + 7) by lia. rewrite Z.pow_add_r by lia.
    change (2 ^ 53) with (2 ^ 7 * 2 ^ 46). ring. }
  rewrite Hprod.
  assert (Hde : Z.div_eucl (q * Z.pos 7036874417766400) (Z.pos 7036874417766400) = (q, 0)).
  { pose proof (Z.div_mul q (Z.pos 7036874417766400) ltac:(lia)) as Hq.
    pose proof (Z.mod_mul q (Z.pos 7036874417766400) ltac:(lia)) as Hr.
    unfold Z.div, Z.modulo in Hq, Hr.
    destruct (Z.div_eucl _ _) as [q' r']. congruence. }
  rewrite Hde.
  assert (Hloc : new_location (Z.pos 7036874417766400) 0 = loc_Exact)
    by reflexivity.
  rewrite Hloc.
  assert (Hq : 0 < q) by (unfold q; lia).
  destruct q as [| pq | pq] eqn:Eq; [lia | | lia].
  replace (dK - 60) with (- (60 - dK)) by lia.
  apply binary_round_aux_of_int; fold d.
  - lia.
  - symmetry. exact Eq.
  - apply digits2_le; lia.
  - assert (dK <= d + 7) by exact HdK7. lia.
Qed.

(** A whole number of milliseconds is left as it is by [round]. *)
Lemma round_whole (k : Z) :
  0 <= k -> 100 * k < 2 ^ 53 -> round (F64.of_int k) = F64.of_int k.
Proof.
  intros H0 Hk. destruct k as [| p | p]; [vm_compute; reflexivity | | lia].
  unfold round. rewrite F64_mul_c100 by assumption.
  change (100 * Z.pos p) with (Z.pos (100 * p)).
  rewrite F64_Round_of_int by lia.
  change (Z.pos (100 * p)) with (100 * Z.pos p).
  apply F64_div_c100. assumption.
Qed.

(** ** The order of the floats *)

Lemma lex_lt_trans (e1 e2 e3 : Z) (m1 m2 m3 : positive) :
  match e1 ?= e2 with Lt => Lt | Gt => Gt | Eq => Pos.compare_cont Eq m1 m2 end = Lt ->
  match e2 ?= e3 with Lt => Lt | Gt => Gt | Eq => Pos.compare_cont Eq m2 m3 end = Lt ->
  match e1 ?= e3 with Lt => Lt | Gt => Gt | Eq => Pos.compare_cont Eq m1 m3 end = Lt.
Proof.
  change (Pos.compare_cont Eq m1 m2) with (Pos.compare m1 m2).
  change (Pos.compare_cont Eq m2 m3) with (Pos.compare m2 m3).
  change (Pos.compare_cont Eq m1 m3) with (Pos.compare m1 m3).
  destruct (Z.compare_spec e1 e2), (Z.compare_spec e2 e3), (Z.compare_spec e1 e3);
    try discriminate; try lia; try reflexivity.
  rewrite !Pos.compare_lt_iff. lia.
Qed.

Lemma lex_gt_trans (e1 e2 e3 : Z) (m1 m2 m3 : positive) :
  match e1 ?= e2 with Lt => Gt | Gt => Lt | Eq => CompOpp (Pos.compare_cont Eq m1 m2) end = Lt ->
  match e2 ?= e3 with Lt => Gt | Gt => Lt | Eq => CompOpp (Pos.compare_cont Eq m2 m3) end = Lt ->
  match e1 ?= e3 with Lt => Gt | Gt => Lt | Eq => CompOpp (Pos.compare_cont Eq m1 m3) end = Lt.
Proof.
  change (Pos.compare_cont Eq m1 m2) with (Pos.compare m1 m2).
  change (Pos.compare_cont Eq m2 m3) with (Pos.compare m2 m3).
  change (Pos.compare_cont Eq m1 m3) with (Pos.compare m1 m3).
  destruct (Z.compare_spec e1 e2), (Z.compare_spec e2 e3), (Z.compare_spec e1 e3);
    try discriminate; try lia; try reflexivity.
  destruct (Pos.compare_spec m1 m2), (Pos.compare_spec m2 m3), (Pos.compare_spec m1 m3);
    cbn [CompOpp]; try discriminate; try lia; reflexivity.
Qed.

Lemma SFltb_trans (x y z : spec_float) :
  SFltb x y = true -> SFltb y z = true -> SFltb x z = true.
Proof.
  unfold SFltb, SFcompare.
  destruct x as [sx | sx | | sx mx ex], y as [sy | sy | | sy my ey],
           z as [sz | sz | | sz mz ez];
    try destruct sx; try destruct sy; try destruct sz;
    try discriminate; try reflexivity; intros H1 H2.
  - destruct (match ex ?= ey with Lt => Gt | Gt => Lt | Eq => CompOpp (Pos.compare_cont Eq mx my) end) eqn:E1;
      try discriminate.
    destruct (match ey ?= ez with Lt => Gt | Gt => Lt | Eq => CompOpp (Pos.compare_cont Eq my mz) end) eqn:E2;
      try discriminate.
    rewrite (lex_gt_trans _ _ _ _ _ _ E1 E2). reflexivity.
  - destruct (match ex ?= ey with Lt => Lt | Gt => Gt | Eq => Pos.compare_cont Eq mx my end) eqn:E1;
      try discriminate.
    destruct (match ey ?= ez with Lt => Lt | Gt => Gt | Eq => Pos.compare_cont Eq my mz end) eqn:E2;
      try discriminate.
    rewrite (lex_lt_trans _ _ _ _ _ _ E1 E2). reflexivity.
Qed.

Lemma SFltb_irrefl (x : spec_float) : SFltb x x = false.
Proof.
  destruct (SFltb x x) eqn:E; [| reflexivity].
  pose proof (SFltb_asym x x E). congruence.
Qed.

(** ** The minimum and the maximum *)

(** What the loop of [statsHandler] keeps: [minLat] and [maxLat] are
    among the latencies seen, none of which is below the one or above the
    other. *)
Definition extremes (seen : list F64.float64) (mn mx : F64.float64) : Prop :=
  In mn seen /\ In mx seen /\
  forall l, In l seen -> F64.ltb l mn = false /\ F64.gtb l mx = false.

Lemma latencyLoop_extremes (ls seen : list F64.float64)
    (sum mn mx : F64.float64) :
  extremes seen mn mx ->
  exists sum' mn' mx',
    latencyLoop ls (sum, mn, mx) = (sum', mn', mx') /\
    extremes (seen ++ ls) mn' mx'.
Proof.
  unfold latencyLoop. revert seen sum mn mx.
  induction ls as [| l ls IH]; intros seen sum mn mx Hex; cbn [fold_left].
  - rewrite app_nil_r. eauto.
  - replace (seen ++ l :: ls) with ((seen ++ [l]) ++ ls)
      by (rewrite <- app_assoc; reflexivity).
    apply IH. destruct Hex as (Hmn & Hmx & Hall). unfold extremes.
    setoid_rewrite in_app_iff. cbn [In].
    unfold F64.ltb, F64.gtb in *.
    split; [| split].
    + destruct (SFltb l mn); auto.
    + destruct (SFltb mx l); auto.
    + intros x [Hx | [<- | []]].
      * destruct (Hall x Hx) as [H1 H2]. split.
        -- destruct (SFltb l mn) eqn:E; [| exact H1].
           destruct (SFltb x l) eqn:E'; [| reflexivity].
           rewrite (SFltb_trans _ _ _ E' E) in H1. discriminate.
        -- destruct (SFltb mx l) eqn:E; [| exact H2].
           destruct (SFltb l x) eqn:E'; [| reflexivity].
           rewrite (SFltb_trans _ _ _ E E') in H2. discriminate.
      * split.
        -- destruct (SFltb l mn) eqn:E; [apply SFltb_irrefl | exact E].
        -- destruct (SFltb mx l) eqn:E; [apply SFltb_irrefl | exact E].
Qed.

Section AnySort.
Context `{srt : SortFloat64s}.

Lemma computeStats_extremes (i : StatsInput) (st : Stats) :
  computeStats i = Some st -> latenciesCopy i <> [] ->
  exists mn mx,
    MinLatency st = round mn /\ MaxLatency st = round mx /\
    extremes (latenciesCopy i) mn mx.
Proof.
  intros H Hne.
  computeStats_cases H.
  - destruct (latenciesCopy i); [contradiction | discriminate].
  - destruct (latenciesCopy i); [contradiction | discriminate].
  - assert (Hfirst : In first (latenciesCopy i)).
    { unfold index in Efirst. cbn in Efirst.
      destruct (latenciesCopy i) as [| x l]; [discriminate |].
      injection Efirst as ->. left. reflexivity. }
    destruct (latencyLoop_extremes (latenciesCopy i) [first] F64.zero first first)
      as (sum' & mn & mx & Hl & Hmn & Hmx & Hall).
    { split; [left; reflexivity |]. split; [left; reflexivity |].
      intros l [<- | []]. unfold F64.ltb, F64.gtb. split; apply SFltb_irrefl. }
    rewrite Hl in Eloop. injection Eloop as <- <- <-.
    exists mn, mx. cbn [MinLatency MaxLatency].
    split; [reflexivity |]. split; [reflexivity |].
    split; [| split].
    + destruct Hmn as [<- | Hmn]; [exact Hfirst | exact Hmn].
    + destruct Hmx as [<- | Hmx]; [exact Hfirst | exact Hmx].
    + intros l Hl'. apply Hall. right. exact Hl'.
Qed.

End AnySort.

(** ** Sorted slices *)

(** In a slice in ascending order no element is less than an earlier
    one. *)
Lemma ascending_lookup (l : list F64.float64) (i j : nat) (x y : F64.float64) :
  ascending l -> (i <= j)%nat -> l !! i = Some x -> l !! j = Some y ->
  float64_less y x = false.
Proof.
  unfold ascending. intros Hs.
  assert (Hss : StronglySorted (fun x y => float64_less y x = false) l).
  { apply Sorted_StronglySorted; [| exact Hs].
    intros a b c. rewrite !float64_less_false_sort_key. unfold sort_key_lt. lia. }
  clear Hs. revert i j. induction Hss as [| a l Hl IH Hall]; intros i j Hij Hi Hj.
  - discriminate.
  - destruct i as [| i], j as [| j]; cbn in Hi, Hj; try lia.
    + injection Hi as <-. injection Hj as <-.
      apply float64_less_false_sort_key. unfold sort_key_lt. lia.
    + injection Hi as <-. rewrite List.Forall_forall in Hall. apply Hall.
      apply list_elem_of_In. eapply list_elem_of_lookup_2. exact Hj.
    + apply (IH i j); [lia | assumption ..].
Qed.

Lemma ltb_less (x y : F64.float64) : F64.ltb x y = true -> float64_less x y = true.
Proof. unfold float64_less. intros ->. reflexivity. Qed.

Lemma ascending_lookup_ltb (l : list F64.float64) (i j : nat) (x y : F64.float64) :
  ascending l -> (i <= j)%nat -> l !! i = Some x -> l !! j = Some y ->
  F64.ltb y x = false.
Proof.
  intros Hs Hij Hi Hj. pose proof (ascending_lookup l i j x y Hs Hij Hi Hj) as H.
  destruct (F64.ltb y x) eqn:E; [| reflexivity].
  rewrite (ltb_less _ _ E) in H. discriminate.
Qed.

(** ** What a percentile says of the samples *)

Lemma filter_length_perm {A} (f : A -> bool) (l l' : list A) :
  Permutation l l' -> length (List.filter f l) = length (List.filter f l').
Proof.
  induction 1 as [| x l l' _ IH | x y l | l l' l'' _ IH1 _ IH2]; cbn [List.filter].
  - reflexivity.
  - destruct (f x); cbn [length]; congruence.
  - destruct (f x), (f y); reflexivity.
  - congruence.
Qed.

Lemma filter_none {A} (f : A -> bool) (l : list A) :
  (forall x, In x l -> f x = false) -> List.filter f l = [].
Proof.
  induction l as [| x l IH]; intros H; cbn [List.filter]; [reflexivity |].
  rewrite (H x (or_introl eq_refl)). apply IH. intros y Hy. apply H. right. exact Hy.
Qed.

Lemma filter_all {A} (f : A -> bool) (l : list A) :
  (forall x, In x l -> f x = true) -> List.filter f l = l.
Proof.
  induction l as [| x l IH]; intros H; cbn [List.filter]; [reflexivity |].
  rewrite (H x (or_introl eq_refl)). f_equal. apply IH. intros y Hy. apply H. right. exact Hy.
Qed.

Lemma filter_length_le {A} (f : A -> bool) (l : list A) :
  (length (List.filter f l) <= length l)%nat.
Proof.
  induction l as [| x l IH]; cbn [List.filter length]; [lia |].
  destruct (f x); cbn [length]; lia.
Qed.

(** The samples below [v], and those that do not exceed it. *)
Definition below (v : F64.float64) (data : list F64.float64) : Z :=
  Z.of_nat (length (List.filter (fun x => F64.ltb x v) data)).

Definition not_above (v : F64.float64) (data : list F64.float64) : Z :=
  Z.of_nat (length (List.filter (fun x => negb (F64.ltb v x)) data)).

(** In a sorted slice, at most [i] elements are below the one at index
    [i], and the first [i + 1] at least do not exceed it. *)
Lemma sorted_rank (s : list F64.float64) (i : nat) (v : F64.float64) :
  ascending s -> s !! i = Some v ->
  below v s <= Z.of_nat i /\ Z.of_nat i + 1 <= not_above v s.
Proof.
  intros Hs Hi. unfold below, not_above.
  assert (Hlt : (i < length s)%nat) by (eapply lookup_lt_Some; exact Hi).
  split.
  - rewrite <- (take_drop i s) at 1. rewrite List.filter_app, length_app.
    rewrite (filter_none _ (drop i s)).
    + pose proof (filter_length_le (fun x => F64.ltb x v) (take i s)).
      rewrite length_take in H. cbn [length]. lia.
    + intros y Hy. apply list_elem_of_In, list_elem_of_lookup_1 in Hy as [j Hj].
      rewrite lookup_drop in Hj.
      apply (ascending_lookup_ltb s i (i + j) v y Hs); [lia | assumption ..].
  - rewrite <- (take_drop (S i) s) at 1. rewrite List.filter_app, length_app.
    rewrite (filter_all _ (take (S i) s)).
    + rewrite length_take. lia.
    + intros x Hx. apply list_elem_of_In, list_elem_of_lookup_1 in Hx as [j Hj].
      apply lookup_take_Some in Hj as [Hj Hlt'].
      apply negb_true_iff.
      apply (ascending_lookup_ltb s j i x v Hs); [lia | assumption ..].
Qed.

Section AnySort.
Context `{srt : SortFloat64s}.

(** A percentile is one of the samples. *)
Lemma percentile_in (data : list F64.float64) (p : F64.float64) (a : Z) (v : F64.float64) :
  In (p, a) quantiles -> data <> [] -> Z.of_nat (length data) <= 2 ^ 40 ->
  percentile data p = Some v -> In v data.
Proof.
  intros Hin Hne Hlen Hv.
  destruct (percentile_defined data p a Hin Hne Hlen)
    as (idx & v' & _ & _ & _ & Hp & Hv').
  assert (v' = v) as -> by congruence.
  apply (Permutation_in _ (Float64s_perm data)).
  apply list_elem_of_In. eapply list_elem_of_lookup_2. exact Hv'.
Qed.

Lemma percentile_monotone (data : list F64.float64) (p q : F64.float64) (a b : Z) :
  In (p, a) quantiles -> In (q, b) quantiles -> a <= b ->
  data <> [] -> Z.of_nat (length data) <= 2 ^ 40 ->
  exists v w,
    percentile data p = Some v /\ percentile data q = Some w /\
    F64.ltb w v = false.
Proof.
  intros Hp Hq Hab Hne Hlen.
  destruct (percentile_defined data p a Hp Hne Hlen)
    as (i & v & _ & Hci & Hri & Hpv & Hv).
  destruct (percentile_defined data q b Hq Hne Hlen)
    as (j & w & _ & Hcj & Hrj & Hqw & Hw).
  exists v, w. split; [exact Hpv |]. split; [exact Hqw |].
  apply (ascending_lookup_ltb (Float64s data) (Z.to_nat i) (Z.to_nat j));
    [apply Float64s_ascending | | assumption ..].
  assert (i <= j) by nia. lia.
Qed.

(** The indices of the median and of the 99.9th percentile. *)
Lemma percentile_idx_edges (n : Z) :
  1 <= n <= 2 ^ 40 ->
  percentile_idx F64.c0_50 n = (n - 1) / 2 /\
  (n < 1000 -> percentile_idx F64.c0_999 n = n - 1) /\
  (n = 1000 -> percentile_idx F64.c0_999 n = 998).
Proof.
  intros Hn.
  destruct (quantile_idx F64.c0_50 500 n ltac:(cbn; tauto) Hn) as [-> _].
  destruct (quantile_idx F64.c0_999 999 n ltac:(cbn; tauto) Hn) as [-> _].
  split; [| split].
  - pose proof (Z.div_mod (500 * n + 999) 1000 ltac:(lia)).
    pose proof (Z.mod_pos_bound (500 * n + 999) 1000 ltac:(lia)).
    pose proof (Z.div_mod (n - 1) 2 ltac:(lia)).
    pose proof (Z.mod_pos_bound (n - 1) 2 ltac:(lia)). lia.
  - intros Hlt.
    pose proof (Z.div_mod (999 * n + 999) 1000 ltac:(lia)).
    pose proof (Z.mod_pos_bound (999 * n + 999) 1000 ltac:(lia)). lia.
  - intros ->. reflexivity.
Qed.

(** A latency as [handler] measures it: a whole number of milliseconds. *)
Definition whole_ms (l : F64.float64) : Prop :=
  exists k, 0 <= k /\ 100 * k < 2 ^ 53 /\ l = F64.of_int k.

Lemma whole_ms_round (l : F64.float64) : whole_ms l -> round l = l.
Proof. intros (k & H0 & Hk & ->). apply round_whole; assumption. Qed.

Lemma Milliseconds_whole (elapsed : Z) :
  0 <= elapsed < 2 ^ 63 -> whole_ms (F64.of_int (Time.Milliseconds elapsed)).
Proof.
  intros He. exists (Time.Milliseconds elapsed). unfold Time.Milliseconds.
  assert (0 <= elapsed ÷ 1000000 <= elapsed).
  { rewrite Z.quot_div_nonneg by lia. split; [apply Z.div_pos; lia |].
    apply Z.div_le_upper_bound; lia. }
  assert (elapsed ÷ 1000000 < 2 ^ 44).
  { rewrite Z.quot_div_nonneg by lia. apply Z.div_lt_upper_bound; lia. }
  repeat split; lia.
Qed.

(** A response computed from a window of 26 samples. *)
Definition input_served : StatsInput :=
  {| in_request := req_plain;
     latenciesCopy := latencies_example;
     proxyHopsCopy := replicate 26 0;
     totalRequests := 26;
     totalErrors := 0;
     totalViaProxy := 0;
     sinceStart := 5 * Time.Second;
     istioDetected := false;
     facts := facts_example |}.

Lemma latencies_example_whole : Forall whole_ms latencies_example.
Proof.
  apply List.Forall_forall. intros x Hx. unfold latencies_example in Hx.
  apply in_map_iff in Hx as (k & <- & Hk). apply in_seq in Hk.
  exists (45 - Z.of_nat k). repeat split; lia.
Qed.

(** The percentile fields of an answer. *)
Lemma computeStats_percentiles (i : StatsInput) (st : Stats) :
  computeStats i = Some st -> latenciesCopy i <> [] ->
  exists p50 p95 p99 p999,
    percentile (latenciesCopy i) F64.c0_50 = Some p50 /\
    percentile (latenciesCopy i) F64.c0_95 = Some p95 /\
    percentile (latenciesCopy i) F64.c0_99 = Some p99 /\
    percentile (latenciesCopy i) F64.c0_999 = Some p999 /\
    P50Latency st = round p50 /\ P95Latency st = round p95 /\
    P99Latency st = round p99 /\ P999Latency st = round p999.
Proof.
  intros H Hne. computeStats_cases H.
  - destruct (latenciesCopy i); [contradiction | discriminate].
  - destruct (latenciesCopy i); [contradiction | discriminate].
  - exists p50, p95, p99, p999. cbn. repeat split.
Qed.

(** X6. [min_latency_ms] and [max_latency_ms] are [round] of two samples
    of the snapshot: one below which no sample of the snapshot lies, and
    one above which none does. *)
Theorem min_max_latency (i : StatsInput) (st : Stats) :
  computeStats i = Some st -> latenciesCopy i <> [] ->
  exists mn mx,
    MinLatency st = round mn /\ MaxLatency st = round mx /\
    In mn (latenciesCopy i) /\ In mx (latenciesCopy i) /\
    forall l, In l (latenciesCopy i) -> F64.ltb l mn = false /\ F64.gtb l mx = false.
Proof.
  intros H Hne.
  destruct (computeStats_extremes i st H Hne) as (mn & mx & Hmn & Hmx & Hex).
  exists mn, mx. split; [exact Hmn |]. split; [exact Hmx |]. exact Hex.
Qed.

(** X7. On a non-empty slice (of at most [2^40] elements) the four
    percentiles [statsHandler] asks for are samples of the slice, and they
    come in order: the 95th is not below the 50th, the 99th not below the
    95th, the 99.9th not below the 99th; whatever sort meeting the
    contract of [sort.Float64s] orders the copy. *)
Theorem percentiles_ordered (data : list F64.float64) :
  data <> [] -> Z.of_nat (length data) <= 2 ^ 40 ->
  exists p50 p95 p99 p999,
    percentile data F64.c0_50 = Some p50 /\ percentile data F64.c0_95 = Some p95 /\
    percentile data F64.c0_99 = Some p99 /\ percentile data F64.c0_999 = Some p999 /\
    In p50 data /\ In p95 data /\ In p99 data /\ In p999 data /\
    F64.ltb p95 p50 = false /\ F64.ltb p99 p95 = false /\ F64.ltb p999 p99 = false.
Proof.
  intros Hne Hlen.
  assert (Q50 : In (F64.c0_50, 500) quantiles) by (cbn; tauto).
  assert (Q95 : In (F64.c0_95, 950) quantiles) by (cbn; tauto).
  assert (Q99 : In (F64.c0_99, 990) quantiles) by (cbn; tauto).
  assert (Q999 : In (F64.c0_999, 999) quantiles) by (cbn; tauto).
  destruct (percentile_monotone data _ _ _ _ Q50 Q95 ltac:(lia) Hne Hlen)
    as (p50 & p95 & E50 & E95 & L1).
  destruct (percentile_monotone data _ _ _ _ Q95 Q99 ltac:(lia) Hne Hlen)
    as (p95' & p99 & E95' & E99 & L2).
  destruct (percentile_monotone data _ _ _ _ Q99 Q999 ltac:(lia) Hne Hlen)
    as (p99' & p999 & E99' & E999 & L3).
  assert (p95' = p95) as -> by congruence.
  assert (p99' = p99) as -> by congruence.
  assert (Hin : forall p a v, In (p, a) quantiles -> percentile data p = Some v -> In v data).
  { intros p a v Hq Hv. apply (percentile_in data p a v Hq Hne Hlen Hv). }
  exists p50, p95, p99, p999.
  repeat split; try assumption; eauto.
Qed.

(** X8. What a percentile says of the samples, whatever sort meeting the
    contract of [sort.Float64s] orders the copy: for the quantile of [a]
    thousandths, fewer than [a / 1000] of the samples are below the value
    returned, and at least [a / 1000] of them do not exceed it. *)
Theorem percentile_rank (data : list F64.float64) (p : F64.float64) (a : Z) :
  In (p, a) quantiles -> data <> [] -> Z.of_nat (length data) <= 2 ^ 40 ->
  exists v,
    percentile data p = Some v /\ In v data /\
    1000 * below v data < a * Z.of_nat (length data) <= 1000 * not_above v data.
Proof.
  intros Hin Hne Hlen.
  destruct (percentile_defined data p a Hin Hne Hlen)
    as (idx & v & _ & Hceil & Hrange & Hp & Hv).
  exists v. split; [exact Hp |].
  split; [apply (percentile_in data p a v Hin Hne Hlen Hp) |].
  destruct (sorted_rank _ _ _ (Float64s_ascending data) Hv) as [Hb Ha].
  unfold below, not_above in *.
  rewrite (filter_length_perm _ _ _ (Float64s_perm data)) in Hb.
  rewrite (filter_length_perm _ _ _ (Float64s_perm data)) in Ha.
  rewrite Z2Nat.id in Hb, Ha by lia. lia.
Qed.

(** X9. Within the capacity of the window: the 50th percentile of
    [n <= 1000] samples is the element of index [(n - 1) / 2] of the copy
    that [sort.Float64s] has put in ascending order (whatever sort meets
    its contract), the lower median; the 99.9th is the last element of
    that copy, which no sample exceeds, as long as the window holds fewer
    than 1000, and the element of index 998, the last but one, once it is
    full. *)
Theorem median_and_p999_index (data : list F64.float64) :
  data <> [] -> Z.of_nat (length data) <= 1000 ->
  let n := Z.of_nat (length data) in
  percentile data F64.c0_50 = Float64s data !! Z.to_nat ((n - 1) / 2) /\
  percentile data F64.c0_999 =
    Float64s data !! Z.to_nat (if n <? 1000 then n - 1 else 998) /\
  (n < 1000 ->
     exists v, percentile data F64.c0_999 = Some v /\
       forall x, In x data -> F64.ltb v x = false).
Proof.
  intros Hne Hlen n.
  assert (Hn : 1 <= n <= 2 ^ 40).
  { unfold n. destruct data; [contradiction | cbn [length] in *; lia]. }
  destruct (percentile_idx_edges n Hn) as (H50 & Hlt & Heq).
  assert (H0 : 0 <= (n - 1) / 2) by (apply Z.div_pos; lia).
  split; [| split].
  - rewrite percentile_unfold. fold n. rewrite H50. apply index_lookup. exact H0.
  - rewrite percentile_unfold. fold n.
    destruct (Z.ltb_spec n 1000) as [Hs | Hf].
    + rewrite Hlt by assumption. apply index_lookup. lia.
    + rewrite Heq by (unfold n in *; lia). apply index_lookup. lia.
  - intros Hs.
    assert (Hlk : (Z.to_nat (n - 1) < length (Float64s data))%nat).
    { rewrite Float64s_length. unfold n. lia. }
    destruct (lookup_lt_is_Some_2 _ _ Hlk) as [v Hv].
    exists v. split.
    + rewrite percentile_unfold. fold n. rewrite Hlt by assumption.
      rewrite index_lookup by lia. exact Hv.
    + intros x Hx.
      apply (Permutation_in _ (Permutation_sym (Float64s_perm data))) in Hx.
      apply list_elem_of_In, list_elem_of_lookup_1 in Hx as [j Hj].
      apply (ascending_lookup_ltb (Float64s data) j (Z.to_nat (n - 1)) x v);
        [apply Float64s_ascending | | assumption ..].
      apply lookup_lt_Some in Hj. rewrite Float64s_length in Hj. unfold n. lia.
Qed.

(** X10. [handler] records whole numbers of milliseconds, and [round]
    leaves those as they are.  So for a snapshot of such latencies the
    minimum, the maximum and the four percentiles of the answer are samples
    of the snapshot themselves, the percentiles those that [percentile]
    returns, and they come in order from the minimum to the maximum. *)
Theorem whole_ms_latencies_exact (i : StatsInput) (st : Stats) :
  computeStats i = Some st ->
  latenciesCopy i <> [] -> Z.of_nat (length (latenciesCopy i)) <= 2 ^ 40 ->
  Forall whole_ms (latenciesCopy i) ->
  (forall r elapsed, 0 <= elapsed < 2 ^ 63 ->
     exists hops lat,
       Server.handler_start r elapsed = Server.Handler Server.H_AddRequests hops lat /\
       whole_ms lat) /\
  (forall l, whole_ms l -> round l = l) /\
  (forall f, In f [MinLatency st; P50Latency st; P95Latency st; P99Latency st;
                   P999Latency st; MaxLatency st] -> In f (latenciesCopy i)) /\
  percentile (latenciesCopy i) F64.c0_50 = Some (P50Latency st) /\
  percentile (latenciesCopy i) F64.c0_95 = Some (P95Latency st) /\
  percentile (latenciesCopy i) F64.c0_99 = Some (P99Latency st) /\
  percentile (latenciesCopy i) F64.c0_999 = Some (P999Latency st) /\
  F64.ltb (P50Latency st) (MinLatency st) = false /\
  F64.ltb (P95Latency st) (P50Latency st) = false /\
  F64.ltb (P99Latency st) (P95Latency st) = false /\
  F64.ltb (P999Latency st) (P99Latency st) = false /\
  F64.ltb (MaxLatency st) (P999Latency st) = false /\
  (forall l, In l (latenciesCopy i) ->
     F64.ltb l (MinLatency st) = false /\ F64.ltb (MaxLatency st) l = false).
Proof.
  intros H Hne Hlen Hall. rewrite List.Forall_forall in Hall.
  split.
  { intros r elapsed He. eexists _, _. split; [reflexivity |].
    apply Milliseconds_whole, He. }
  split; [exact whole_ms_round |].
  destruct (computeStats_extremes i st H Hne) as (mn & mx & Hmn & Hmx & Imn & Imx & Hex).
  destruct (computeStats_percentiles i st H Hne)
    as (p50 & p95 & p99 & p999 & E50 & E95 & E99 & E999 & R50 & R95 & R99 & R999).
  assert (Q50 : In (F64.c0_50, 500) quantiles) by (cbn; tauto).
  assert (Q95 : In (F64.c0_95, 950) quantiles) by (cbn; tauto).
  assert (Q99 : In (F64.c0_99, 990) quantiles) by (cbn; tauto).
  assert (Q999 : In (F64.c0_999, 999) quantiles) by (cbn; tauto).
  assert (Hmono : forall p q a b v w,
            In (p, a) quantiles -> In (q, b) quantiles -> a <= b ->
            percentile (latenciesCopy i) p = Some v ->
            percentile (latenciesCopy i) q = Some w -> F64.ltb w v = false).
  { intros p q a b v w Hp Hq Hab Hv Hw.
    destruct (percentile_monotone _ p q a b Hp Hq Hab Hne Hlen) as (v' & w' & Ev & Ew & L).
    congruence. }
  pose proof (Hmono _ _ _ _ _ _ Q50 Q95 ltac:(lia) E50 E95) as L1.
  pose proof (Hmono _ _ _ _ _ _ Q95 Q99 ltac:(lia) E95 E99) as L2.
  pose proof (Hmono _ _ _ _ _ _ Q99 Q999 ltac:(lia) E99 E999) as L3.
  pose proof (percentile_in _ _ _ _ Q50 Hne Hlen E50) as I50.
  pose proof (percentile_in _ _ _ _ Q95 Hne Hlen E95) as I95.
  pose proof (percentile_in _ _ _ _ Q99 Hne Hlen E99) as I99.
  pose proof (percentile_in _ _ _ _ Q999 Hne Hlen E999) as I999.
  rewrite whole_ms_round in Hmn, Hmx, R50, R95, R99, R999 by (apply Hall; assumption).
  rewrite Hmn, Hmx, R50, R95, R99, R999.
  split.
  { cbn [In]. intros f [<- | [<- | [<- | [<- | [<- | [<- | []]]]]]]; assumption. }
  repeat split; try assumption.
  - apply (Hex p50 I50).
  - apply (Hex p999 I999).
  - apply (Hex l); assumption.
  - apply (Hex l); assumption.
Qed.

End AnySort.

Section Examples.
#[local] Existing Instance insertion_sort.

Lemma input_served_computes : is_Some (computeStats input_served).
Proof. vm_compute. eauto. Qed.

Lemma min_max_latency_witness :
  exists st,
    computeStats input_served = Some st /\ latenciesCopy input_served <> [] /\
    exists mn mx,
      MinLatency st = round mn /\ MaxLatency st = round mx /\
      In mn latencies_example /\ In mx latencies_example.
Proof.
  destruct input_served_computes as [st E].
  assert (Hne : latenciesCopy input_served <> []) by discriminate.
  destruct (min_max_latency input_served st E Hne) as (mn & mx & H1 & H2 & H3 & H4 & _).
  exists st. split; [exact E |]. split; [exact Hne |].
  exists mn, mx. auto.
Defined.

Lemma percentiles_ordered_witness :
  latencies_example <> [] /\ Z.of_nat (length latencies_example) <= 2 ^ 40 /\
  exists p50 p999,
    percentile latencies_example F64.c0_50 = Some p50 /\
    percentile latencies_example F64.c0_999 = Some p999 /\
    p50 = F64.of_int 32 /\ p999 = F64.of_int 45.
Proof.
  assert (Hne : latencies_example <> []) by discriminate.
  assert (Hlen : Z.of_nat (length latencies_example) <= 2 ^ 40)
    by (vm_compute; discriminate).
  split; [exact Hne | split; [exact Hlen |]].
  destruct (percentiles_ordered latencies_example Hne Hlen)
    as (p50 & p95 & p99 & p999 & E50 & _ & _ & E999 & _).
  exists p50, p999. split; [exact E50 |]. split; [exact E999 |].
  split.
  - assert (E : percentile latencies_example F64.c0_50 = Some (F64.of_int 32))
      by (vm_compute; reflexivity).
    congruence.
  - assert (E : percentile latencies_example F64.c0_999 = Some (F64.of_int 45))
      by (vm_compute; reflexivity).
    congruence.
Defined.

Lemma percentile_rank_witness :
  In (F64.c0_95, 950) quantiles /\ latencies_example <> [] /\
  Z.of_nat (length latencies_example) <= 2 ^ 40 /\
  exists v,
    percentile latencies_example F64.c0_95 = Some v /\
    below v latencies_example = 24 /\ not_above v latencies_example = 25.
Proof.
  assert (Hin : In (F64.c0_95, 950) quantiles) by (right; left; reflexivity).
  assert (Hne : latencies_example <> []) by discriminate.
  assert (Hlen : Z.of_nat (length latencies_example) <= 2 ^ 40)
    by (vm_compute; discriminate).
  split; [exact Hin | split; [exact Hne | split; [exact Hlen |]]].
  destruct (percentile_rank latencies_example F64.c0_95 950 Hin Hne Hlen)
    as (v & Hv & _ & _).
  exists v. split; [exact Hv |].
  assert (E : percentile latencies_example F64.c0_95 = Some (F64.of_int 44))
    by (vm_compute; reflexivity).
  assert (v = F64.of_int 44) as -> by congruence.
  split; vm_compute; reflexivity.
Defined.

Lemma median_and_p999_index_witness :
  latencies_example <> [] /\ Z.of_nat (length latencies_example) <= 1000 /\
  percentile latencies_example F64.c0_50 = Float64s latencies_example !! 12%nat /\
  percentile latencies_example F64.c0_999 = Float64s latencies_example !! 25%nat.
Proof.
  assert (Hne : latencies_example <> []) by discriminate.
  assert (Hlen : Z.of_nat (length latencies_example) <= 1000)
    by (vm_compute; discriminate).
  split; [exact Hne | split; [exact Hlen |]].
  destruct (median_and_p999_index latencies_example Hne Hlen) as (H50 & H999 & _).
  split; [exact H50 | exact H999].
Defined.

Lemma whole_ms_latencies_exact_witness :
  exists st,
    computeStats input_served = Some st /\
    Forall whole_ms (latenciesCopy input_served) /\
    MinLatency st = F64.of_int 20 /\ MaxLatency st = F64.of_int 45 /\
    percentile latencies_example F64.c0_99 = Some (P99Latency st).
Proof.
  destruct input_served_computes as [st E].
  assert (Hne : latenciesCopy input_served <> []) by discriminate.
  assert (Hlen : Z.of_nat (length (latenciesCopy input_served)) <= 2 ^ 40)
    by (vm_compute; discriminate).
  destruct (whole_ms_latencies_exact input_served st E Hne Hlen latencies_example_whole)
    as (_ & _ & _ & _ & _ & H99 & _).
  exists st. split; [exact E |]. split; [exact latencies_example_whole |].
  split; [vm_compute in E; injection E as <-; vm_compute; reflexivity |].
  split; [vm_compute in E; injection E as <-; vm_compute; reflexivity |].
  exact H99.
Defined.

End Examples.

(** ** Sums of whole numbers in binary64 *)

Lemma shl_align_fst (mx : positive) (ex ez : Z) :
  ez <= ex -> Z.pos (fst (shl_align mx ex ez)) = Z.pos mx * 2 ^ (ex - ez).
Proof.
  intros H. unfold shl_align.
  destruct (ez - ex) as [| d | d] eqn:E; cbn [fst]; try lia.
  - replace (ex - ez) with 0 by lia. lia.
  - rewrite pos_iter_xO. do 2 f_equal. lia.
Qed.

(** Normalising a mantissa that stands for the integer [K] (of at most 53
    bits) gives the conversion of [K]. *)
Lemma binary_normalize_of_int (K S : positive) (e : Z) :
  e <= 0 -> Z.pos S = Z.pos K * 2 ^ (- e) -> Z.pos (digits2_pos K) <= 53 ->
  binary_normalize 53 1024 (Z.pos S) e false = F64.of_int (Z.pos K).
Proof.
  intros He HS HK. set (t := - e) in *. assert (Ht : 0 <= t) by (unfold t; lia).
  replace e with (- t) by (unfold t; lia). clearbody t. clear He.
  cbn [binary_normalize]. unfold binary_round.
  pose proof (digits2_scaled K t S Ht HS) as HD.
  pose proof (digits2_bounds K) as [Klo Khi].
  rewrite fexp64, HD. set (d := Z.pos (digits2_pos K)) in *.
  assert (d >= 1) by (unfold d; lia).
  replace (Z.max (d + t + - t - 53) (-1074)) with (d - 53) by lia.
  unfold shl_align.
  destruct (d - 53 - - t) as [| n | n] eqn:En.
  - apply binary_round_aux_of_int; fold d; try assumption; lia.
  - apply binary_round_aux_of_int; fold d; try assumption; lia.
  - replace (d - 53) with (- (53 - d)) by lia.
    apply binary_round_aux_of_int; fold d; try lia.
    rewrite pos_iter_xO, HS, <- Z.mul_assoc, <- Z.pow_add_r by lia.
    do 2 f_equal. lia.
Qed.

(** The sum of two whole numbers, below [2^53], is exact. *)
Lemma F64_add_of_int (a b : Z) :
  0 <= a -> 0 <= b -> a + b < 2 ^ 53 ->
  F64.add (F64.of_int a) (F64.of_int b) = F64.of_int (a + b).
Proof.
  intros Ha Hb Hab.
  destruct a as [| a | a]; [| | lia]; destruct b as [| b | b]; try lia.
  - reflexivity.
  - change (0 + Z.pos b) with (Z.pos b).
    destruct (F64_of_int_finite b) as (m & e & ->); [| reflexivity].
    apply digits2_le; lia.
  - rewrite Z.add_0_r.
    destruct (F64_of_int_finite a) as (m & e & ->); [| reflexivity].
    apply digits2_le; lia.
  - assert (Hda : Z.pos (digits2_pos a) <= 53) by (apply digits2_le; lia).
    assert (Hdb : Z.pos (digits2_pos b) <= 53) by (apply digits2_le; lia).
    rewrite (F64_of_int_exact a), (F64_of_int_exact b) by assumption.
    pose proof (digits2_bounds a) as [Alo Ahi]. pose proof (digits2_bounds b) as [Blo Bhi].
    set (da := Z.pos (digits2_pos a)) in *. set (db := Z.pos (digits2_pos b)) in *.
    assert (da >= 1) by (unfold da; lia). assert (db >= 1) by (unfold db; lia).
    assert (Pa : 0 < 2 ^ (53 - da)) by (apply Z.pow_pos_nonneg; lia).
    assert (Pb : 0 < 2 ^ (53 - db)) by (apply Z.pow_pos_nonneg; lia).
    unfold F64.add, F64.prec, F64.emax, SFadd. cbn [cond_Zopp].
    set (ez := Z.min (da - 53) (db - 53)).
    rewrite !shl_align_fst by (unfold ez; lia).
    rewrite !Z2Pos.id by lia.
    assert (Ea : Z.pos a * 2 ^ (53 - da) * 2 ^ (da - 53 - ez) = Z.pos a * 2 ^ (- ez)).
    { rewrite <- Z.mul_assoc, <- Z.pow_add_r by (unfold ez; lia). do 2 f_equal. lia. }
    assert (Eb : Z.pos b * 2 ^ (53 - db) * 2 ^ (db - 53 - ez) = Z.pos b * 2 ^ (- ez)).
    { rewrite <- Z.mul_assoc, <- Z.pow_add_r by (unfold ez; lia). do 2 f_equal. lia. }
    rewrite Ea, Eb, <- Z.mul_add_distr_r.
    assert (Pz : 0 < 2 ^ (- ez)) by (apply Z.pow_pos_nonneg; unfold ez; lia).
    change (Z.pos a + Z.pos b) with (Z.pos (a + b)).
    destruct (Z.pos (a + b) * 2 ^ (- ez)) as [| S | S] eqn:ES; [lia | | lia].
    apply (binary_normalize_of_int (a + b) S ez).
    + unfold ez; lia.
    + symmetry. exact ES.
    + apply digits2_le; lia.
Qed.

(** ** Rounding to nearest *)

(** After [k] shifts of an exact mantissa [m]: the quotient, the bit
    shifted out last, and whether a bit was shifted out before it. *)
Definition shifted_bits (m : Z) (k : Z) (mrs : shr_record) : Prop :=
  shr_m mrs = m / 2 ^ k /\
  (k = 0 -> shr_r mrs = false /\ shr_s mrs = false) /\
  (0 < k ->
     shr_r mrs = Z.odd (m / 2 ^ (k - 1)) /\
     shr_s mrs = negb (m mod 2 ^ (k - 1) =? 0)).

Lemma mod_pow2_succ (m k : Z) :
  0 <= k ->
  m mod 2 ^ (k + 1) = 2 ^ k * ((m / 2 ^ k) mod 2) + m mod 2 ^ k.
Proof.
  intros Hk. rewrite Z.pow_add_r, Z.pow_1_r by lia.
  assert (Hp : 0 < 2 ^ k) by (apply Z.pow_pos_nonneg; lia).
  rewrite Z.rem_mul_r by lia. lia.
Qed.

Lemma shifted_bits_step (m k : Z) (mrs : shr_record) :
  0 <= m -> 0 <= k -> shifted_bits m k mrs -> shifted_bits m (k + 1) (shr_1 mrs).
Proof.
  intros Hm Hk (Hq & H0 & Hpos). destruct mrs as [q r s]. cbn [shr_m shr_r shr_s] in *.
  assert (Hp : 0 < 2 ^ k) by (apply Z.pow_pos_nonneg; lia).
  rewrite shr_1_nonneg by (subst q; apply Z.div_pos; lia).
  unfold shifted_bits; cbn [shr_m shr_r shr_s].
  split; [| split].
  - subst q. rewrite Z.pow_add_r, Z.pow_1_r, Z.div_div by lia. reflexivity.
  - intros E. lia.
  - intros _. replace (k + 1 - 1) with k by lia. split; [subst q; reflexivity |].
    destruct (Z.eq_dec k 0) as [-> | Hk0].
    + destruct (H0 eq_refl) as [-> ->]. rewrite Z.pow_0_r, Z.mod_1_r. reflexivity.
    + destruct (Hpos ltac:(lia)) as [-> ->].
      pose proof (mod_pow2_succ m (k - 1) ltac:(lia)) as E.
      replace (k - 1 + 1) with k in E by lia.
      pose proof (Z.mod_pos_bound (m / 2 ^ (k - 1)) 2 ltac:(lia)) as Hb.
      pose proof (Z.mod_pos_bound m (2 ^ (k - 1)) ltac:(apply Z.pow_pos_nonneg; lia)) as Hb'.
      assert (Hp' : 0 < 2 ^ (k - 1)) by (apply Z.pow_pos_nonneg; lia).
      rewrite Zodd_mod.
      destruct (Z.eqb_spec ((m / 2 ^ (k - 1)) mod 2) 1) as [E1 | E1];
        destruct (Z.eqb_spec (m mod 2 ^ (k - 1)) 0) as [E2 | E2];
        destruct (Z.eqb_spec (m mod 2 ^ k) 0) as [E3 | E3];
        cbn; try reflexivity; nia.
Qed.

Lemma shifted_bits_iter (m : Z) (p : positive) :
  0 <= m ->
  shifted_bits m (Z.pos p)
    (iter_pos shr_1 p {| shr_m := m; shr_r := false; shr_s := false |}).
Proof.
  intros Hm.
  apply (iter_pos_invariant shr_1 (shifted_bits m)) with (k := 0) (p := p).
  - intros k x Hk. apply shifted_bits_step; assumption.
  - lia.
  - split; [cbn; rewrite Z.div_1_r; reflexivity |]. split; [auto | lia].
Qed.

(** Rounding to nearest even goes up only from the half on. *)
Lemma round_nearest_even_bits (m k : Z) (mrs : shr_record) :
  0 <= m -> 0 < k -> shifted_bits m k mrs ->
  let c := round_nearest_even (shr_m mrs) (loc_of_shr_record mrs) in
  c = m / 2 ^ k \/ (c = m / 2 ^ k + 1 /\ 2 ^ k <= 2 * (m mod 2 ^ k)).
Proof.
  intros Hm Hk (Hq & _ & Hpos). destruct (Hpos Hk) as [Hr Hs].
  destruct mrs as [q r s]. cbn [shr_m shr_r shr_s] in *. subst q. cbn zeta.
  destruct r.
  - assert (Hhalf : 2 ^ k <= 2 * (m mod 2 ^ k)).
    { pose proof (mod_pow2_succ m (k - 1) ltac:(lia)) as E.
      replace (k - 1 + 1) with k in E by lia.
      symmetry in Hr. rewrite Zodd_mod in Hr. apply Z.eqb_eq in Hr.
      pose proof (Z.mod_pos_bound m (2 ^ (k - 1)) ltac:(apply Z.pow_pos_nonneg; lia)).
      assert (2 ^ k = 2 * 2 ^ (k - 1)).
      { rewrite <- Z.pow_succ_r by lia. f_equal. lia. }
      nia. }
    destruct s; cbn; [right; auto |].
    destruct (Z.even _); [left; reflexivity | right; auto].
  - left. destruct s; reflexivity.
Qed.

(** A mantissa of more than 53 bits is rounded to the nearest of its two
    neighbours: up only when the bits lost are a half at least. *)
Lemma binary_round_aux_nearest (m : positive) (e : Z) :
  let d := Z.pos (digits2_pos m) in
  let n := d - 53 in
  let q := Z.pos m / 2 ^ n in
  53 < d -> -1074 <= e + n < 971 ->
  exists c,
    (c = q \/ (c = q + 1 /\ 2 ^ n <= 2 * (Z.pos m mod 2 ^ n))) /\
    2 ^ 52 <= q < 2 ^ 53 /\
    binary_round_aux 53 1024 false (Z.pos m) e loc_Exact =
      if c =? 2 ^ 53 then S754_finite false (2 ^ 52) (e + n + 1)
      else S754_finite false (Z.to_pos c) (e + n).
Proof.
  intros d n q Hd He.
  pose proof (digits2_bounds m) as [Dlo Dhi]. fold d in Dlo, Dhi.
  assert (Hn : 0 < n) by (unfold n; lia).
  assert (Hq : 2 ^ 52 <= q < 2 ^ 53).
  { unfold q. replace (d - 1) with (52 + n) in Dlo by (unfold n; lia).
    replace d with (53 + n) in Dhi by (unfold n; lia).
    rewrite Z.pow_add_r in Dlo, Dhi by lia.
    assert (0 < 2 ^ n) by (apply Z.pow_pos_nonneg; lia).
    split.
    - apply Z.div_le_lower_bound; lia.
    - apply Z.div_lt_upper_bound; lia. }
  unfold binary_round_aux, shr_fexp at 1.
  cbn [Zdigits2 shr_record_of_loc]. rewrite fexp64. fold d.
  replace (Z.max (d + e - 53) (-1074) - e) with n by (unfold n in *; lia).
  unfold shr at 1. destruct n as [| p | p] eqn:En; [lia | | lia].
  pose proof (shifted_bits_iter (Z.pos m) p ltac:(lia)) as Hsh.
  set (mrs := iter_pos shr_1 p _) in *.
  pose proof (round_nearest_even_bits (Z.pos m) (Z.pos p) mrs ltac:(lia) ltac:(lia) Hsh)
    as Hc.
  cbn zeta in Hc.
  set (c := round_nearest_even (shr_m mrs) (loc_of_shr_record mrs)) in *.
  fold q in Hc. exists c. split; [exact Hc |]. split; [exact Hq |].
  assert (Hcr : 2 ^ 52 <= c <= 2 ^ 53) by lia.
  destruct c as [| pc | pc] eqn:Ec; [lia | | lia].
  unfold shr_fexp. cbn [Zdigits2 shr_record_of_loc]. rewrite fexp64.
  destruct (Z.eqb_spec (Z.pos pc) (2 ^ 53)) as [E53 | N53].
  - assert (pc = 9007199254740992%positive) as -> by lia.
    change (Z.pos (digits2_pos 9007199254740992)) with 54.
    replace (Z.max (54 + (e + Z.pos p) - 53) (-1074) - (e + Z.pos p)) with 1 by lia.
    cbn [shr iter_pos shr_1 shr_m].
    destruct (Z.leb_spec (e + Z.pos p + 1) (1024 - 53)); [reflexivity | lia].
  - assert (Hdc : Z.pos (digits2_pos pc) = 53).
    { apply digits2_unique. change (2 ^ (53 - 1)) with (2 ^ 52). lia. }
    rewrite Hdc.
    replace (Z.max (53 + (e + Z.pos p) - 53) (-1074) - (e + Z.pos p)) with 0 by lia.
    cbn [shr shr_m].
    destruct (Z.leb_spec (e + Z.pos p) (1024 - 53)); [reflexivity | lia].
Qed.

(** *** Rounding from any location *)

Lemma shr_m_iter (m : Z) (mrs : shr_record) (p : positive) :
  0 <= m -> shr_m mrs = m ->
  shr_m (iter_pos shr_1 p mrs) = m / 2 ^ Z.pos p.
Proof.
  intros Hm H0.
  apply (iter_pos_invariant shr_1 (fun k x => shr_m x = m / 2 ^ k)) with (k := 0) (p := p).
  - intros k [q r s] Hk Hq. cbn [shr_m] in Hq.
    assert (Hp : 0 < 2 ^ k) by (apply Z.pow_pos_nonneg; lia).
    rewrite shr_1_nonneg by (subst q; apply Z.div_pos; lia).
    cbn [shr_m]. subst q. rewrite Z.pow_add_r, Z.pow_1_r, Z.div_div by lia. reflexivity.
  - lia.
  - rewrite Z.pow_0_r, Z.div_1_r. exact H0.
Qed.

Lemma round_nearest_even_near (x : Z) (l : location) :
  round_nearest_even x l = x \/ round_nearest_even x l = x + 1.
Proof. destruct l as [| []]; cbn; try destruct (Z.even x); auto. Qed.

Lemma shr_m_of_loc (m : Z) (l : location) : shr_m (shr_record_of_loc m l) = m.
Proof. destruct l as [| []]; reflexivity. Qed.

(** A mantissa of 53 bits or more, with whatever was lost before, is
    rounded to one of the two neighbours of its first 53 bits. *)
Lemma binary_round_aux_near (m : positive) (e : Z) (l : location) :
  let d := Z.pos (digits2_pos m) in
  let n := d - 53 in
  let q := Z.pos m / 2 ^ n in
  53 <= d -> -1074 <= e + n < 971 ->
  exists c,
    (c = q \/ c = q + 1) /\ 2 ^ 52 <= q < 2 ^ 53 /\
    binary_round_aux 53 1024 false (Z.pos m) e l =
      if c =? 2 ^ 53 then S754_finite false (2 ^ 52) (e + n + 1)
      else S754_finite false (Z.to_pos c) (e + n).
Proof.
  intros d n q Hd He.
  pose proof (digits2_bounds m) as [Dlo Dhi]. fold d in Dlo, Dhi.
  assert (Hn : 0 <= n) by (unfold n; lia).
  assert (Hq : 2 ^ 52 <= q < 2 ^ 53).
  { unfold q. replace (d - 1) with (52 + n) in Dlo by (unfold n; lia).
    replace d with (53 + n) in Dhi by (unfold n; lia).
    rewrite Z.pow_add_r in Dlo, Dhi by lia.
    assert (0 < 2 ^ n) by (apply Z.pow_pos_nonneg; lia).
    split.
    - apply Z.div_le_lower_bound; lia.
    - apply Z.div_lt_upper_bound; lia. }
  unfold binary_round_aux, shr_fexp at 1.
  cbn [Zdigits2]. rewrite fexp64. fold d.
  replace (Z.max (d + e - 53) (-1074) - e) with n by (unfold n in *; lia).
  assert (Hshr : exists mrs,
             shr (shr_record_of_loc (Z.pos m) l) e n = (mrs, e + n) /\ shr_m mrs = q).
  { unfold shr, q. destruct n as [| p | p] eqn:En; [| | lia].
    - eexists. split; [rewrite Z.add_0_r; reflexivity |].
      rewrite shr_m_of_loc, Z.pow_0_r, Z.div_1_r. reflexivity.
    - eexists. split; [reflexivity |].
      apply shr_m_iter; [lia | apply shr_m_of_loc]. }
  destruct Hshr as (mrs & -> & Hm).
  rewrite Hm.
  pose proof (round_nearest_even_near q (loc_of_shr_record mrs)) as Hc.
  set (c := round_nearest_even q (loc_of_shr_record mrs)) in *.
  exists c. split; [exact Hc |]. split; [exact Hq |].
  assert (Hcr : 2 ^ 52 <= c <= 2 ^ 53) by lia.
  destruct c as [| pc | pc] eqn:Ec; [lia | | lia].
  unfold shr_fexp. cbn [Zdigits2 shr_record_of_loc]. rewrite fexp64.
  destruct (Z.eqb_spec (Z.pos pc) (2 ^ 53)) as [E53 | N53].
  - assert (pc = 9007199254740992%positive) as -> by lia.
    change (Z.pos (digits2_pos 9007199254740992)) with 54.
    replace (Z.max (54 + (e + n) - 53) (-1074) - (e + n)) with 1 by lia.
    cbn [shr iter_pos shr_1 shr_m].
    destruct (Z.leb_spec (e + n + 1) (1024 - 53)); [reflexivity | lia].
  - assert (Hdc : Z.pos (digits2_pos pc) = 53).
    { apply digits2_unique. change (2 ^ (53 - 1)) with (2 ^ 52). lia. }
    rewrite Hdc.
    replace (Z.max (53 + (e + n) - 53) (-1074) - (e + n)) with 0 by lia.
    cbn [shr shr_m].
    destruct (Z.leb_spec (e + n) (1024 - 53)); [reflexivity | lia].
Qed.

(** ** Quotients in binary64 *)

(** The quotient of two positive numbers with mantissas of 53 bits: a
    number with a mantissa of 53 bits, within two units (of the exponent
    [e1 - e2 - 53]) of the quotient of the mantissas. *)
Lemma F64_div_normal (m1 m2 : positive) (e1 e2 : Z) :
  Z.pos (digits2_pos m1) = 53 -> Z.pos (digits2_pos m2) = 53 ->
  -1021 <= e1 - e2 <= 1000 ->
  let q := Z.pos m1 * 2 ^ 53 / Z.pos m2 in
  exists mr er,
    F64.div (S754_finite false m1 e1) (S754_finite false m2 e2) =
      S754_finite false mr er /\
    2 ^ 52 <= Z.pos mr < 2 ^ 53 /\
    0 <= er - (e1 - e2 - 53) <= 2 /\
    q - 1 <= Z.pos mr * 2 ^ (er - (e1 - e2 - 53)) <= q + 2.
Proof.
  intros Hd1 Hd2 He q.
  pose proof (digits2_bounds m1) as [L1 U1]. pose proof (digits2_bounds m2) as [L2 U2].
  rewrite Hd1 in L1, U1. rewrite Hd2 in L2, U2.
  change (2 ^ (53 - 1)) with (2 ^ 52) in L1, L2.
  unfold F64.div, F64.prec, F64.emax, SFdiv, SFdiv_core_binary.
  cbn [Zdigits2 xorb]. rewrite Hd1, Hd2, fexp64.
  replace (Z.min (Z.max (53 + e1 - (53 + e2) - 53) (-1074)) (e1 - e2))
    with (e1 - e2 - 53) by lia.
  replace (e1 - e2 - (e1 - e2 - 53)) with 53 by lia.
  rewrite Z.shiftl_mul_pow2 by lia.
  pose proof (Z.div_eucl_eq (Z.pos m1 * 2 ^ 53) (Z.pos m2) ltac:(lia)) as Heq.
  pose proof (Z.mod_pos_bound (Z.pos m1 * 2 ^ 53) (Z.pos m2) ltac:(lia)) as Hr.
  unfold q, Z.div. unfold Z.modulo in Hr.
  destruct (Z.div_eucl (Z.pos m1 * 2 ^ 53) (Z.pos m2)) as [q0 r0].
  cbn [fst snd] in *.
  assert (Hq0 : 2 ^ 52 <= q0 < 2 ^ 54).
  { change (2 ^ 54) with (2 * 2 ^ 53) in *. change (2 ^ 53) with (2 * 2 ^ 52) in *. nia. }
  destruct q0 as [| pq | pq]; [lia | | lia].
  assert (Hdq : 53 <= Z.pos (digits2_pos pq) <= 54).
  { split; [apply (digits2_ge pq 52); lia | apply digits2_le; lia]. }
  set (e' := e1 - e2 - 53).
  destruct (binary_round_aux_near pq e' (new_location (Z.pos m2) r0))
    as (c & Hc & Hq & ->); [lia | unfold e'; lia |].
  set (n := Z.pos (digits2_pos pq) - 53) in *.
  assert (Hn : n = 0 \/ n = 1) by lia.
  assert (Hqn : Z.pos pq / 2 ^ n * 2 ^ n <= Z.pos pq < Z.pos pq / 2 ^ n * 2 ^ n + 2 ^ n).
  { assert (Hp : 0 < 2 ^ n) by (apply Z.pow_pos_nonneg; lia).
    pose proof (Z.div_mod (Z.pos pq) (2 ^ n) ltac:(lia)).
    pose proof (Z.mod_pos_bound (Z.pos pq) (2 ^ n) Hp). lia. }
  destruct (Z.eqb_spec c (2 ^ 53)) as [E53 | N53].
  - exists (2 ^ 52)%positive, (e' + n + 1).
    split; [reflexivity |]. split; [split; [reflexivity | reflexivity] |].
    split; [lia |].
    replace (e' + n + 1 - e') with (n + 1) by lia.
    destruct Hn as [-> | ->]; cbn in *; lia.
  - exists (Z.to_pos c), (e' + n).
    split; [reflexivity |]. rewrite Z2Pos.id by lia.
    split; [lia |]. split; [lia |].
    replace (e' + n - e') with n by lia.
    destruct Hn as [-> | ->]; cbn in *; lia.
Qed.

(** ** The uptime in seconds *)

(** The fraction of a second, [float64(nsec) / 1e9]: a number below
    [1 - 2^-30]. *)
Lemma fraction_of_second (nsec : positive) :
  Z.pos nsec < 1000000000 ->
  exists mf ef,
    F64.div (F64.of_int (Z.pos nsec)) F64.c1e9 = S754_finite false mf ef /\
    ef <= -53 /\
    Z.pos mf * 2 ^ 30 < (2 ^ 30 - 1) * 2 ^ (- ef).
Proof.
  intros Hn.
  assert (Hdn : Z.pos (digits2_pos nsec) <= 30) by (apply digits2_le; lia).
  rewrite F64_of_int_exact by lia.
  pose proof (digits2_bounds nsec) as [Nlo Nhi].
  set (dn := Z.pos (digits2_pos nsec)) in *.
  assert (dn >= 1) by (unfold dn; lia).
  assert (Hp : 0 < 2 ^ (53 - dn)) by (apply Z.pow_pos_nonneg; lia).
  set (m1 := Z.to_pos (Z.pos nsec * 2 ^ (53 - dn))).
  assert (Hm1 : Z.pos m1 = Z.pos nsec * 2 ^ (53 - dn)) by (unfold m1; rewrite Z2Pos.id; lia).
  assert (Hd1 : Z.pos (digits2_pos m1) = 53).
  { rewrite (digits2_scaled nsec (53 - dn) m1); fold dn; [lia | lia | exact Hm1]. }
  unfold F64.c1e9.
  destruct (F64_div_normal m1 8388608000000000 (dn - 53) (-23) Hd1 eq_refl ltac:(lia))
    as (mf & ef & -> & Hmf & Hj & Hq).
  exists mf, ef. split; [reflexivity |].
  set (e' := dn - 53 - -23 - 53) in *.
  set (P := 2 ^ (- e')).
  assert (HP : 2 ^ 53 <= P) by (apply Z.pow_le_mono_r; unfold e'; lia).
  set (q := Z.pos m1 * 2 ^ 53 / 8388608000000000) in *.
  assert (Hqb : 1000000000 * q <= (1000000000 - 1) * P).
  { assert (Hqm : 8388608000000000 * q <= Z.pos m1 * 2 ^ 53)
      by (unfold q; apply Z.mul_div_le; lia).
    assert (HmP : Z.pos m1 * 2 ^ 53 = Z.pos nsec * P * 2 ^ 23).
    { rewrite Hm1. unfold P, e'. rewrite <- !Z.mul_assoc, <- !Z.pow_add_r by lia.
      do 2 f_equal. lia. }
    change 8388608000000000 with (1000000000 * 2 ^ 23) in Hqm.
    assert (1000000000 * q <= Z.pos nsec * P) by nia. nia. }
  set (j := ef - e') in *.
  assert (HPj : 2 ^ (- ef) * 2 ^ j = P).
  { unfold P, j. rewrite <- Z.pow_add_r by (unfold e' in *; lia). f_equal. lia. }
  assert (Hj2 : 0 < 2 ^ j) by (apply Z.pow_pos_nonneg; lia).
  assert (Hlt : Z.pos mf * 2 ^ 30 < (2 ^ 30 - 1) * 2 ^ (- ef)).
  { assert (Z.pos mf * 2 ^ j * 2 ^ 30 < (2 ^ 30 - 1) * (2 ^ (- ef) * 2 ^ j)); [| nia].
    rewrite HPj. lia. }
  split; [| exact Hlt].
  destruct (Z.le_gt_cases ef (-53)) as [| Hbig]; [assumption |].
  assert (2 ^ (- ef) <= 2 ^ 52) by (apply Z.pow_le_mono_r; lia). lia.
Qed.

(** Whole seconds plus a fraction below [1 - 2^-30]: the sum is below the
    next second, for less than [2^24] seconds. *)
Lemma seconds_plus_fraction (sec mf : positive) (ef : Z) :
  Z.pos sec < 2 ^ 24 -> ef <= -53 ->
  Z.pos mf * 2 ^ 30 < (2 ^ 30 - 1) * 2 ^ (- ef) ->
  F64.to_int (F64.add (F64.of_int (Z.pos sec)) (S754_finite false mf ef)) = Z.pos sec.
Proof.
  intros Hsec Hef Hf.
  assert (Hds : Z.pos (digits2_pos sec) <= 24) by (apply digits2_le; lia).
  rewrite F64_of_int_exact by lia.
  pose proof (digits2_bounds sec) as [Slo Shi].
  set (ds := Z.pos (digits2_pos sec)) in *.
  assert (ds >= 1) by (unfold ds; lia).
  set (u := 53 - ds). assert (Hu : 29 <= u <= 52) by (unfold u; lia).
  set (U := 2 ^ u). assert (HU : 2 ^ 29 <= U) by (apply Z.pow_le_mono_r; lia).
  set (A := Z.pos sec * U).
  set (mx := Z.to_pos A).
  assert (Hmx : Z.pos mx = A) by (unfold mx, A; rewrite Z2Pos.id; lia).
  assert (HA : 2 ^ 52 <= A /\ A + U <= 2 ^ 53).
  { unfold A.
    replace (2 ^ 52) with (2 ^ (ds - 1) * U)
      by (unfold U, u; rewrite <- Z.pow_add_r by lia; f_equal; lia).
    replace (2 ^ 53) with (2 ^ ds * U)
      by (unfold U, u; rewrite <- Z.pow_add_r by lia; f_equal; lia).
    replace (Z.pos sec * U + U) with ((Z.pos sec + 1) * U) by ring.
    split; apply Z.mul_le_mono_nonneg_r; lia. }
  set (n := ds - 53 - ef). assert (Hn : 1 <= n) by (unfold n; lia).
  set (N := 2 ^ n). assert (HN : 2 <= N).
  { change 2 with (2 ^ 1). apply Z.pow_le_mono_r; lia. }
  assert (HNU : 2 ^ (- ef) = N * U).
  { unfold N, U. rewrite <- Z.pow_add_r by lia. f_equal. unfold n, u. lia. }
  rewrite HNU in Hf.
  assert (Hmf : Z.pos mf < N * U) by lia.
  unfold F64.add, F64.prec, F64.emax, SFadd. cbn [cond_Zopp].
  replace (Z.min (ds - 53) ef) with ef by lia.
  rewrite !shl_align_fst by lia.
  replace (ef - ef) with 0 by lia. rewrite Z.pow_0_r, Z.mul_1_r.
  fold n. fold N. fold mx. rewrite Hmx.
  set (S := A * N + Z.pos mf).
  assert (HS : 2 ^ (52 + n) <= S < 2 ^ (53 + n)).
  { unfold S. rewrite !Z.pow_add_r by lia. fold N.
    assert (2 ^ 52 * N <= A * N) by (apply Z.mul_le_mono_nonneg_r; lia).
    assert ((A + U) * N <= 2 ^ 53 * N) by (apply Z.mul_le_mono_nonneg_r; lia).
    lia. }
  destruct S as [| pS | pS] eqn:ES; [lia | | lia].
  assert (HD : Z.pos (digits2_pos pS) = 53 + n).
  { apply digits2_unique. replace (53 + n - 1) with (52 + n) by lia. exact HS. }
  cbn [binary_normalize]. unfold binary_round. rewrite fexp64, HD.
  replace (Z.max (53 + n + ef - 53) (-1074)) with (n + ef) by (unfold n; lia).
  unfold shl_align.
  destruct (n + ef - ef) as [| k | k] eqn:Ek; [lia | | lia].
  pose proof (binary_round_aux_nearest pS ef) as Hr. cbn zeta in Hr. rewrite HD in Hr.
  replace (53 + n - 53) with n in Hr by lia. fold N in Hr.
  destruct Hr as (c & Hc & Hq & ->); [lia | unfold n; lia |].
  rewrite <- ES in Hc, Hq.
  assert (Hdiv : (A * N + Z.pos mf) / N = A + Z.pos mf / N).
  { rewrite Z.add_comm, Z.div_add by lia. lia. }
  assert (Hmod : (A * N + Z.pos mf) mod N = Z.pos mf mod N).
  { rewrite Z.add_comm, Z.mod_add by lia. reflexivity. }
  unfold S in Hc, Hq. rewrite Hdiv, Hmod in Hc. rewrite Hdiv in Hq.
  pose proof (Z.div_mod (Z.pos mf) N ltac:(lia)) as Hdm.
  pose proof (Z.mod_pos_bound (Z.pos mf) N ltac:(lia)) as Hrb.
  assert (Hquo : 0 <= Z.pos mf / N < U).
  { split; [apply Z.div_pos; lia | apply Z.div_lt_upper_bound; lia]. }
  assert (Hcb : A <= c < A + U).
  { destruct Hc as [-> | [-> Hhalf]]; [lia |].
    split; [lia |].
    destruct (Z.eq_dec (Z.pos mf / N) (U - 1)) as [Elast | Nlast]; [| lia].
    exfalso.
    assert (HX : 2 ^ 29 * N <= N * U).
    { rewrite (Z.mul_comm N U). apply Z.mul_le_mono_nonneg_r; lia. }
    rewrite Elast in Hdm. clear - Hdm Hhalf Hf HX. lia. }
  assert (Hc53 : c < 2 ^ 53) by lia.
  destruct (Z.eqb_spec c (2 ^ 53)) as [E | _]; [lia |].
  unfold F64.to_int. rewrite Z2Pos.id by lia.
  replace (ef + n) with (ds - 53) by (unfold n; lia).
  destruct (Z.leb_spec 0 (ds - 53)) as [| _]; [lia |].
  replace (- (ds - 53)) with u by (unfold u; lia). fold U.
  assert (Hres : c / U = Z.pos sec).
  { symmetry. apply Z.div_unique with (r := c - Z.pos sec * U); unfold A in Hcb; lia. }
  rewrite Hres. clear - Hsec. unfold Int64.min_int, Int64.max_int.
  destruct (Z.leb_spec (- 2 ^ 63) (Z.pos sec)); [| lia].
  destruct (Z.leb_spec (Z.pos sec) (2 ^ 63 - 1)); [reflexivity | lia].
Qed.

(** [int(d.Seconds())] of less than [2^24] seconds: the whole seconds. *)
Lemma Seconds_to_int (d : Z) :
  0 <= d < 2 ^ 24 * Time.Second ->
  F64.to_int (Time.Seconds d) = d / Time.Second.
Proof.
  unfold Time.Seconds, Time.Second. intros Hd.
  rewrite Z.quot_div_nonneg, Z.rem_mod_nonneg by lia.
  pose proof (Z.mod_pos_bound d 1000000000 ltac:(lia)) as Hn.
  assert (Hs : 0 <= d / 1000000000 < 2 ^ 24).
  { split; [apply Z.div_pos; lia | apply Z.div_lt_upper_bound; lia]. }
  destruct (d mod 1000000000) as [| nsec | nsec]; [| | lia].
  - change (F64.div (F64.of_int 0) F64.c1e9) with F64.zero.
    destruct (d / 1000000000) as [| sec | sec]; [reflexivity | | lia].
    assert (Hds : Z.pos (digits2_pos sec) <= 53) by (apply digits2_le; lia).
    rewrite <- (F64_to_int_of_int sec Hds) at 2. f_equal.
    rewrite F64_of_int_exact by assumption. reflexivity.
  - destruct (fraction_of_second nsec ltac:(lia)) as (mf & ef & -> & Hef & Hf).
    destruct (d / 1000000000) as [| sec | sec]; [| | lia].
    + change (F64.add (F64.of_int 0) (S754_finite false mf ef))
        with (S754_finite false mf ef).
      unfold F64.to_int.
      destruct (Z.leb_spec 0 ef) as [| _]; [lia |].
      assert (0 < 2 ^ (- ef)) by (apply Z.pow_pos_nonneg; lia).
      rewrite Z.div_small by lia. reflexivity.
    + apply seconds_plus_fraction; lia.
Qed.

(** Past [2^24] seconds the sum can round up to the next second. *)
Lemma Seconds_to_int_late :
  let d := 2 ^ 24 * Time.Second + 999999999 in
  F64.to_int (Time.Seconds d) = d / Time.Second + 1.
Proof. vm_compute. reflexivity. Qed.

Section AnySort.
Context `{srt : SortFloat64s}.

(** X18. [uptime_seconds] is the number of whole seconds since the start
    as long as fewer than [2^24] seconds (about 194 days) have passed: the
    sum [float64(sec) + float64(nsec)/1e9] of [Duration.Seconds] stays
    below the next whole number, and [int64] cuts the fraction off.  Past
    that the sum can round up to the next second
    ([Seconds_to_int_late]). *)
Theorem uptime_whole_seconds (i : StatsInput) (st : Stats) :
  computeStats i = Some st ->
  0 <= sinceStart i < 2 ^ 24 * Time.Second ->
  UptimeSeconds st = sinceStart i / Time.Second.
Proof.
  intros H Hd. transitivity (F64.to_int (Time.Seconds (sinceStart i))).
  - clear Hd. computeStats_cases H; reflexivity.
  - apply Seconds_to_int, Hd.
Qed.

End AnySort.

Section Examples.
#[local] Existing Instance insertion_sort.

Lemma uptime_whole_seconds_witness :
  exists st, computeStats input_served = Some st /\ UptimeSeconds st = 5.
Proof.
  destruct input_served_computes as [st E]. exists st. split; [exact E |].
  replace 5 with (sinceStart input_served / Time.Second) by (vm_compute; reflexivity).
  apply (uptime_whole_seconds input_served st E). vm_compute. split; [discriminate | reflexivity].
Defined.

End Examples.

(** ** The average latency *)

(** The total of a window of whole milliseconds. *)
Definition total (ks : list Z) : Z := foldr Z.add 0 ks.

Lemma total_nonneg (ks : list Z) : Forall (Z.le 0) ks -> 0 <= total ks.
Proof. induction 1 as [| k ks Hk _ IH]; cbn [total foldr]; [lia |]. fold (total ks). lia. Qed.

(** The sum that the loop over [latenciesCopy] accumulates is exact. *)
Lemma latencyLoop_sum (ks : list Z) (acc : Z) (mn mx : F64.float64) :
  Forall (Z.le 0) ks -> 0 <= acc -> acc + total ks < 2 ^ 53 ->
  (latencyLoop (F64.of_int <$> ks) (F64.of_int acc, mn, mx)).1.1 =
    F64.of_int (acc + total ks).
Proof.
  unfold latencyLoop. intros Hks. revert acc mn mx.
  induction Hks as [| k ks Hk Hks IH]; intros acc mn mx Hacc Hlt;
    cbn [fmap list_fmap fold_left total foldr] in *.
  - rewrite Z.add_0_r. reflexivity.
  - fold (total ks) in *. pose proof (total_nonneg ks Hks).
    rewrite F64_add_of_int by lia.
    rewrite IH by lia. f_equal. lia.
Qed.

Section AnySort.
Context `{srt : SortFloat64s}.

(** X19. The sum behind [avg_latency_ms] is exact for whole samples: for
    a snapshot of whole, non-negative numbers of milliseconds whose total
    is below [2^53], the additions of the loop do not round, and the field
    is [round] of the total divided by the number of samples. *)
Theorem average_of_exact_total (i : StatsInput) (st : Stats) (ks : list Z) :
  computeStats i = Some st ->
  latenciesCopy i = F64.of_int <$> ks -> ks <> [] ->
  Forall (Z.le 0) ks -> total ks < 2 ^ 53 ->
  AvgLatency st =
    round (F64.div (F64.of_int (total ks)) (F64.of_int (Z.of_nat (length ks)))).
Proof.
  intros H El Hne Hks Hlt.
  pose proof (latencyLoop_sum ks 0) as Hsum. cbn [Z.add] in Hsum.
  computeStats_cases H.
  - rewrite El, length_fmap in Elen. destruct ks; [contradiction | discriminate].
  - rewrite El, length_fmap in Elen. destruct ks; [contradiction | discriminate].
  - cbn [AvgLatency]. rewrite El in Eloop |- *. rewrite length_fmap.
    specialize (Hsum first first Hks ltac:(lia) Hlt).
    change (F64.of_int 0) with F64.zero in Hsum.
    rewrite Eloop in Hsum. cbn [fst] in Hsum. rewrite Hsum. reflexivity.
Qed.

End AnySort.

Section Examples.
#[local] Existing Instance insertion_sort.

Lemma average_of_exact_total_witness :
  exists st,
    computeStats input_served = Some st /\
    AvgLatency st = round (F64.div (F64.of_int 845) (F64.of_int 26)).
Proof.
  destruct input_served_computes as [st E]. exists st. split; [exact E |].
  rewrite (average_of_exact_total input_served st
             ((fun k => 45 - Z.of_nat k) <$> seq 0 26) E).
  - vm_compute. reflexivity.
  - reflexivity.
  - discriminate.
  - apply Forall_fmap, Forall_forall. intros k Hk. apply list_elem_of_In, in_seq in Hk.
    cbn. lia.
  - vm_compute. reflexivity.
Defined.

End Examples.

(** ** Progress *)

(** A goroutine whose call has ended. *)
Definition finished (t : Thread) : bool :=
  match t with
  | Handler (H_Done | H_Panic) _ _ => true
  | StatsHandler (S_Done | S_Panic) _ => true
  | DebugHeadersHandler _ done => done
  | _ => false
  end.

(** The statements a goroutine has still to execute, at most. *)
Definition remaining (t : Thread) : nat :=
  match t with
  | Handler pc _ _ =>
      match pc with
      | H_AddRequests => 9 | H_AddViaProxy => 8 | H_Lock => 7 | H_AppendLat => 6
      | H_AppendHops => 5 | H_CheckLen => 4 | H_SliceLat => 3 | H_SliceHops => 2
      | H_Unlock => 1 | H_Done | H_Panic => 0
      end
  | StatsHandler pc _ =>
      match pc with
      | S_RLock => 13 | S_MakeLat => 12 | S_MakeHops => 11 | S_CopyLat => 10
      | S_CopyHops => 9 | S_RUnlock => 8 | S_LoadRequests => 7 | S_LoadErrors => 6
      | S_LoadViaProxy => 5 | S_Detect => 4 | S_Probe => 3 | S_StoreProbe => 2
      | S_Compute => 1 | S_Done | S_Panic => 0
      end
  | DebugHeadersHandler _ done => if done then 0 else 1
  end%nat.

Lemma remaining_finished (t : Thread) : remaining t = 0%nat <-> finished t = true.
Proof. destruct t as [[] ? ? | [] ? | ? []]; cbn; split; (discriminate || reflexivity). Qed.

Lemma tsum_zero {A} (f : A -> nat) (l : list A) :
  tsum f l = 0%nat <-> forall i x, l !! i = Some x -> f x = 0%nat.
Proof.
  split.
  - intros H i x Hi. pose proof (tsum_lookup f l i x Hi). lia.
  - intros H. destruct (tsum f l) eqn:E; [reflexivity |].
    destruct (tsum_pos f l ltac:(lia)) as (i & x & Hi & Hx).
    rewrite (H i x Hi) in Hx. lia.
Qed.

Section AnySort.
Context `{srt : SortFloat64s}.

(** A statement executed by goroutine [i] moves that goroutine alone, and
    nearer to its end. *)
Lemma exec_run_moves (s s' : State) (i : nat) (w : World) :
  exec s (Run i w) = Some s' ->
  exists t t',
    threads s !! i = Some t /\ threads s' = <[i := t']> (threads s) /\
    (remaining t' < remaining t)%nat.
Proof.
  cbn [exec].
  destruct (threads s !! i) as [[pc hops lat | pc l | r [|]] |] eqn:Hth;
    try discriminate.
  - intros H.
    destruct pc; cbn [exec_handler] in H; try discriminate;
      repeat match type of H with
             | context [match ?b with _ => _ end] => destruct b eqn:?
             end;
      try discriminate; injection H as <-;
      (eexists _, _; split; [reflexivity |]; split; [reflexivity | cbn; lia]).
  - intros H.
    destruct pc; cbn [exec_stats] in H; try discriminate;
      repeat match type of H with
             | context [match ?b with _ => _ end] => destruct b eqn:?
             end;
      try discriminate; injection H as <-;
      (eexists _, _; split; [reflexivity |]; split; [reflexivity | cbn; lia]).
  - intros [= <-]. eexists _, _. split; [reflexivity |].
    split; [reflexivity | cbn; lia].
Qed.

Lemma exec_run_remaining (s s' : State) (i : nat) (w : World) :
  exec s (Run i w) = Some s' ->
  (tsum remaining (threads s') < tsum remaining (threads s))%nat /\
  length (threads s') = length (threads s).
Proof.
  intros H. destruct (exec_run_moves s s' i w H) as (t & t' & Hi & -> & Hlt).
  pose proof (tsum_insert remaining (threads s) i t t' Hi).
  rewrite length_insert. lia.
Qed.

(** In a reachable state with a goroutine that has not finished, some
    goroutine can execute its next statement: the holder of the lock when
    it is held, any unfinished goroutine when it is free. *)
Lemma some_goroutine_runs (s : State) (w : World) :
  server_ok s ->
  (exists i t, threads s !! i = Some t /\ finished t = false) ->
  exists j s', exec s (Run j w) = Some s'.
Proof.
  intros (_ & (Hr & Hw & Hx) & _ & Ht) (i & t & Hi & Hf).
  destruct (writer (mu s)) eqn:Ew.
  - destruct (tsum_pos writing (threads s) ltac:(lia)) as (j & u & Hj & Hpos).
    specialize (Ht j u Hj). exists j.
    destruct u as [pc hops lat | pc l |]; cbn in Hpos; try lia.
    cbn [exec]. rewrite Hj.
    destruct pc; cbn in Hpos; try lia; cbn [exec_handler thread_ok handler_ok] in *;
      try (eexists; reflexivity); try contradiction.
    + destruct (slice1 _); eexists; reflexivity.
    + destruct (slice1 _); eexists; reflexivity.
  - destruct (readers (mu s)) as [| n] eqn:Er.
    + exists i. cbn [exec]. rewrite Hi.
      destruct t as [pc hops lat | pc l | r [|]]; try discriminate.
      * destruct pc; try discriminate; cbn [exec_handler]; rewrite ?Ew, ?Er;
          try (eexists; reflexivity).
        -- destruct (slice1 _); eexists; reflexivity.
        -- destruct (slice1 _); eexists; reflexivity.
      * destruct pc; try discriminate; cbn [exec_stats]; rewrite ?Ew;
          try (eexists; reflexivity).
        -- destruct (hasIstioHeaders _); [eexists; reflexivity |].
           destruct (_ <? _); eexists; reflexivity.
        -- destruct (computeStats _); eexists; reflexivity.
      * eexists; reflexivity.
    + destruct (tsum_pos reading (threads s) ltac:(lia)) as (j & u & Hj & Hpos).
      exists j. cbn [exec]. rewrite Hj.
      destruct u as [pc hops lat | pc l |]; cbn in Hpos; try lia.
      destruct pc; cbn in Hpos; try lia; cbn [exec_stats]; eexists; reflexivity.
Qed.

Definition is_run (a : Action) : Prop :=
  match a with Run _ _ => True | _ => False end.

Lemma unfinished_or_done (l : list Thread) :
  (exists i t, l !! i = Some t /\ finished t = false) \/
  (forall i t, l !! i = Some t -> finished t = true).
Proof.
  induction l as [| x l IH].
  - right. intros i t [=].
  - destruct (finished x) eqn:E.
    + destruct IH as [(i & t & Hi & Hf) | Hall].
      * left. exists (S i), t. auto.
      * right. intros [| i] t Hi; [injection Hi as <-; exact E | apply (Hall i t Hi)].
    + left. exists 0%nat, x. auto.
Qed.

Lemma pending_complete (n : nat) (s : State) (w : World) :
  reachable s -> (tsum remaining (threads s) <= n)%nat ->
  exists sched s',
    Forall is_run sched /\ (length sched <= n)%nat /\ run s sched = Some s' /\
    length (threads s') = length (threads s) /\
    forall i t, threads s' !! i = Some t -> finished t = true.
Proof.
  revert s. induction n as [| n IH]; intros s Hs Hn.
  - exists [], s. split; [constructor |]. split; [cbn; lia |]. split; [reflexivity |].
    split; [reflexivity |]. intros i t Hi. apply remaining_finished.
    assert (H0 : tsum remaining (threads s) = 0%nat) by lia.
    apply (proj1 (tsum_zero remaining (threads s)) H0 i t Hi).
  - destruct (unfinished_or_done (threads s)) as [Hun | Hall].
    + destruct (some_goroutine_runs s w (server_ok_reachable s Hs) Hun) as (j & s1 & E1).
      destruct (exec_run_remaining s s1 j w E1) as [Hlt Hlen].
      assert (Hs1 : reachable s1).
      { eapply reachable_step; [exact Hs | eapply exec_step; exact E1]. }
      destruct (IH s1 Hs1 ltac:(lia)) as (sched & s' & Hf & Hl & Hrun & Hlen' & Hall).
      exists (Run j w :: sched), s'.
      split; [constructor; [exact I | exact Hf] |].
      split; [cbn [length]; lia |].
      split; [cbn [run]; rewrite E1; exact Hrun |].
      split; [congruence | exact Hall].
    + exists [], s. split; [constructor |]. split; [cbn; lia |].
      split; [reflexivity |]. split; [reflexivity | exact Hall].
Qed.

(** Two requests have arrived, none has run. *)
Definition sched_pending : list Action :=
  [Request req_xff (25 * Time.Millisecond); StatsRequest req_plain].

(** X11. The mutex [mu] in every reachable state: at most one goroutine
    is between [mu.Lock()] and [mu.Unlock()], and then none is between
    [mu.RLock()] and [mu.RUnlock()]; the mutex counts the readers inside
    and is write-locked exactly when a handler is inside; and once every
    call has ended the mutex is free: no path leaves it locked. *)
Theorem mutex_discipline (s : State) :
  reachable s ->
  (forall i j t u,
     threads s !! i = Some t -> threads s !! j = Some u ->
     writing t = 1%nat -> writing u = 1%nat -> i = j) /\
  (forall i j t u,
     threads s !! i = Some t -> threads s !! j = Some u ->
     writing t = 1%nat -> reading u = 0%nat) /\
  readers (mu s) = tsum reading (threads s) /\
  (writer (mu s) = true <-> exists i t, threads s !! i = Some t /\ writing t = 1%nat) /\
  ((forall i t, threads s !! i = Some t -> finished t = true) ->
     mu s = {| writer := false; readers := 0 |}).
Proof.
  intros Hs. pose proof (server_ok_reachable s Hs) as (_ & Hl & _ & Ht).
  pose proof Hl as (Hr & Hw & Hx).
  split; [| split; [| split; [| split]]].
  - intros i j t u Hi Hj Wt Wu. destruct (Nat.eq_dec i j) as [E | N]; [exact E |].
    pose proof (tsum_lookup2 writing _ _ _ _ _ N Hi Hj).
    destruct (writer (mu s)); lia.
  - intros i j t u Hi Hj Wt.
    pose proof (writer_holds s i t Hl Hi Wt) as Hheld.
    pose proof (tsum_lookup reading _ _ _ Hj). specialize (Hx Hheld).
    destruct (reading u) eqn:E; [reflexivity | lia].
  - exact Hr.
  - split.
    + intros Hheld. rewrite Hheld in Hw.
      destruct (tsum_pos writing (threads s) ltac:(lia)) as (i & t & Hi & Hpos).
      exists i, t. split; [exact Hi |].
      destruct t as [[] ? ? | |]; cbn in *; lia.
    + intros (i & t & Hi & Wt). exact (writer_holds s i t Hl Hi Wt).
  - intros Hall.
    assert (W0 : tsum writing (threads s) = 0%nat).
    { apply tsum_zero. intros i t Hi. specialize (Hall i t Hi). specialize (Ht i t Hi).
      destruct t as [[] ? ? | [] ? | ? []]; try discriminate; try reflexivity.
      destruct Ht. }
    assert (R0 : tsum reading (threads s) = 0%nat).
    { apply tsum_zero. intros i t Hi. specialize (Hall i t Hi).
      destruct t as [[] ? ? | [] ? | ? []]; try discriminate; reflexivity. }
    destruct (mu s) as [wr rd]. cbn [writer readers] in *.
    destruct wr; [lia |]. f_equal. lia.
Qed.

(** X12. The server does not deadlock, and every call ends.  In a
    reachable state with a call that has not ended some goroutine can
    execute its next statement (whatever the clock, the dial and the host
    give), and every such goroutine can when the mutex is free; a statement
    executed brings its goroutine nearer to its end; and some schedule, no
    longer than the statements that remain, ends every pending call when no
    new request arrives. *)
Theorem pending_requests_complete (s : State) (w : World) :
  reachable s ->
  ((exists i t, threads s !! i = Some t /\ finished t = false) ->
     exists j s', exec s (Run j w) = Some s') /\
  (forall i t, threads s !! i = Some t -> finished t = false ->
     mu s = {| writer := false; readers := 0 |} -> is_Some (exec s (Run i w))) /\
  (forall i s', exec s (Run i w) = Some s' ->
     (tsum remaining (threads s') < tsum remaining (threads s))%nat) /\
  exists sched s',
    Forall is_run sched /\
    (length sched <= tsum remaining (threads s))%nat /\
    run s sched = Some s' /\
    length (threads s') = length (threads s) /\
    forall i t, threads s' !! i = Some t -> finished t = true.
Proof.
  intros Hs. split; [| split; [| split]].
  - apply some_goroutine_runs. apply server_ok_reachable. exact Hs.
  - intros i t Hi Hf Hmu. cbn [exec]. rewrite Hi, ?Hmu.
    destruct t as [pc hops lat | pc l | r [|]]; try discriminate.
    + destruct pc; try discriminate; cbn [exec_handler]; rewrite ?Hmu;
        cbn [writer readers]; try (eexists; reflexivity).
      * destruct (slice1 _); eexists; reflexivity.
      * destruct (slice1 _); eexists; reflexivity.
    + destruct pc; try discriminate; cbn [exec_stats]; rewrite ?Hmu;
        cbn [writer readers]; try (eexists; reflexivity).
      * destruct (hasIstioHeaders _); [eexists; reflexivity |].
        destruct (_ <? _); eexists; reflexivity.
      * destruct (computeStats _); eexists; reflexivity.
    + eexists; reflexivity.
  - intros i s' E. apply (exec_run_remaining s s' i w E).
  - apply (pending_complete _ s w Hs). lia.
Qed.

End AnySort.

Section Examples.
#[local] Existing Instance insertion_sort.

Lemma sched_pending_runs : is_Some (run init sched_pending).
Proof. vm_compute. eauto. Qed.

Lemma mutex_discipline_witness :
  exists s,
    run init sched_served = Some s /\
    mu s = {| writer := false; readers := 0 |}.
Proof.
  destruct sched_served_runs as [s E].
  pose proof (run_reachable init s sched_served reachable_init E) as Hs.
  destruct (mutex_discipline s Hs) as (_ & _ & _ & _ & Hfree).
  exists s. split; [exact E |]. apply Hfree.
  vm_compute in E. injection E as <-.
  intros [| [| i]] t Hi; cbn in Hi; try discriminate; injection Hi as <-; reflexivity.
Defined.

Lemma pending_requests_complete_witness :
  exists s sched s',
    run init sched_pending = Some s /\
    length (threads s) = 2%nat /\
    run s sched = Some s' /\
    length (threads s') = 2%nat /\
    forall i t, threads s' !! i = Some t -> finished t = true.
Proof.
  destruct sched_pending_runs as [s E].
  pose proof (run_reachable init s sched_pending reachable_init E) as Hs.
  destruct (pending_requests_complete s world_example Hs)
    as (_ & _ & _ & sched & s' & _ & _ & Hrun & Hlen & Hall).
  assert (H2 : length (threads s) = 2%nat).
  { vm_compute in E. injection E as <-. reflexivity. }
  exists s, sched, s'. split; [exact E |]. split; [exact H2 |].
  split; [exact Hrun |]. split; [congruence | exact Hall].
Defined.

End Examples.

(** ** The probes of a running server *)

Section PerThread.
Context (Q : Thread -> Prop).

Lemma all_goto (l : list Thread) (i : nat) (t' : Thread) :
  (forall j u, l !! j = Some u -> Q u) -> (i < length l -> Q t')%nat ->
  forall j u, <[i := t']> l !! j = Some u -> Q u.
Proof.
  intros Hall Hself j u Hj.
  apply list_lookup_insert_Some in Hj as [(-> & <- & Hlt) | (Hne & Hj)].
  - apply Hself, Hlt.
  - apply (Hall j), Hj.
Qed.

Lemma all_spawn (l : list Thread) (t : Thread) :
  (forall j u, l !! j = Some u -> Q u) -> Q t ->
  forall j u, (l ++ [t]) !! j = Some u -> Q u.
Proof.
  intros Hall Hself j u Hj.
  apply lookup_snoc_Some in Hj as [(_ & Hj) | (_ & <-)].
  - apply (Hall j), Hj.
  - exact Hself.
Qed.

End PerThread.

(** The calls of [statsHandler] that may have dialled: those for a
    request without Istio headers that are past the probe. *)
Definition probed (t : Thread) : nat :=
  match t with
  | StatsHandler (S_StoreProbe | S_Compute | S_Done | S_Panic) l =>
      if hasIstioHeaders (s_r l) then 0 else 1
  | _ => 0
  end.

(** A call probes only for a request without Istio headers; with them,
    the sidecar counts as detected. *)
Definition detect_ok (t : Thread) : Prop :=
  match t with
  | StatsHandler (S_Probe | S_StoreProbe) l => hasIstioHeaders (s_r l) = false
  | StatsHandler (S_Compute | S_Done | S_Panic) l =>
      hasIstioHeaders (s_r l) = true -> s_istioDetected l = true
  | _ => True
  end.

Definition probe_ok (s : State) : Prop :=
  Forall (eq probeEvent) (dialled s) /\
  (length (dialled s) <= tsum probed (threads s))%nat /\
  (forall i t, threads s !! i = Some t -> detect_ok t).

Ltac locals_simpl :=
  cbn [s_r s_latenciesCopy s_proxyHopsCopy s_totalRequests s_totalErrors
       s_totalViaProxy s_present s_istioDetected s_response set_latenciesCopy
       set_proxyHopsCopy set_totalRequests set_totalErrors set_totalViaProxy
       set_present set_istioDetected set_response locals0] in *.

Section AnySort.
Context `{srt : SortFloat64s}.

Lemma probe_ok_step (s s' : State) : probe_ok s -> step s s' -> probe_ok s'.
Proof.
  intros (Hd & Hn & Ht) Hstep. unfold probe_ok.
  step_cases Hstep; unfold handler_start; state_simpl;
    try (pose proof (Ht _ _ Hth) as Hself; cbn [detect_ok] in Hself);
    (split; [| split]);
    try exact Hd;
    try (apply Forall_app; split; [exact Hd | repeat constructor]);
    try (apply all_spawn; [exact Ht | exact I]);
    try (apply all_goto; [exact Ht | intros _; cbn [detect_ok]; locals_simpl;
                                     try exact I; try assumption; try congruence]);
    repeat match goal with
           | |- context [if ?b then _ else _] => destruct b eqn:?; state_simpl
           end;
    rewrite ?tsum_snoc, ?length_app; cbn [probed length];
    try count_moved probed; locals_simpl;
    repeat match goal with
           | E : context [if ?b then _ else _] |- _ =>
               match type of E with (_ = _)%nat => destruct b eqn:? end
           end;
    try lia; try congruence;
    try (apply all_goto; [exact Ht | intros _; exact I]).
Qed.

Lemma probe_ok_reachable (s : State) : reachable s -> probe_ok s.
Proof.
  apply reachable_invariant.
  - split; [constructor |]. split; [cbn; lia |]. intros i t [=].
  - intros s0 s' _. apply probe_ok_step.
Qed.

(** X13. The probes of a running server: every connection attempt is the
    dial of [probeEnvoyAdmin] (TCP to 127.0.0.1:15000 within 50 ms); a step
    that dials is the probe of a call of [statsHandler] for a request
    without Istio headers, and there are no more dials than such calls, so
    [handler] and [debugHeadersHandler] never dial; a call for a request
    with Istio headers never probes (the [||] does not evaluate
    [istioSidecarPresent]) and answers [istio_sidecar_detected = true]. *)
Theorem probes_accounted (s : State) :
  reachable s ->
  Forall (eq probeEvent) (dialled s) /\
  (length (dialled s) <= tsum probed (threads s))%nat /\
  (forall i pc l,
     threads s !! i = Some (StatsHandler pc l) ->
     hasIstioHeaders (s_r l) = true ->
     pc <> S_Probe /\ pc <> S_StoreProbe /\
     forall resp, s_response l = Some resp -> IstioSidecar resp = true) /\
  (forall s', step s s' ->
     dialled s' = dialled s \/
     (dialled s' = dialled s ++ [probeEvent] /\
      exists i l, threads s !! i = Some (StatsHandler S_Probe l) /\
        hasIstioHeaders (s_r l) = false)).
Proof.
  intros Hs. pose proof (probe_ok_reachable s Hs) as (Hd & Hn & Ht).
  pose proof (server_ok_reachable s Hs) as Hok.
  split; [exact Hd |]. split; [exact Hn |]. split.
  - intros i pc l Hi Hhas. pose proof (Ht i _ Hi) as Hself. cbn [detect_ok] in Hself.
    split; [intros ->; congruence |]. split; [intros ->; congruence |].
    intros resp Hresp.
    destruct (response_of s i pc l resp Hok Hi Hresp) as (-> & _ & _ & since & f & Hst).
    destruct (computeStats_counters _ _ Hst) as (_ & _ & _ & ->).
    cbn [input_of istioDetected]. apply Hself, Hhas.
  - intros s' Hstep.
    step_cases Hstep; unfold handler_start; state_simpl;
      try (left; reflexivity);
      try (destruct (hops >? 0); left; reflexivity).
    right. split; [reflexivity |]. exists i, l. split; [exact Hth |].
    apply (Ht i _ Hth).
Qed.

End AnySort.

(** A call for a request with a mesh marker is answered without probing. *)
Definition sched_mesh_stats : list Action :=
  StatsRequest req_mesh :: replicate 11 (Run 0 world_example).

Section Examples.
#[local] Existing Instance insertion_sort.

Lemma probes_accounted_witness :
  exists s l resp,
    run init sched_mesh_stats = Some s /\
    threads s !! 0%nat = Some (StatsHandler S_Done l) /\
    hasIstioHeaders (s_r l) = true /\
    s_response l = Some resp /\
    dialled s = [] /\ IstioSidecar resp = true.
Proof.
  assert (Hrun : is_Some (run init sched_mesh_stats)) by (vm_compute; eauto).
  destruct Hrun as [s E].
  pose proof (run_reachable init s sched_mesh_stats reachable_init E) as Hs.
  destruct (probes_accounted s Hs) as (_ & Hn & Hresp & _).
  assert (Hth : exists l resp,
             threads s !! 0%nat = Some (StatsHandler S_Done l) /\
             hasIstioHeaders (s_r l) = true /\ s_response l = Some resp /\
             tsum probed (threads s) = 0%nat).
  { vm_compute in E. injection E as <-. do 2 eexists.
    split; [reflexivity |]. split; [vm_compute; reflexivity |].
    split; [reflexivity |]. vm_compute. reflexivity. }
  destruct Hth as (l & resp & Hth & Hhas & Hr & H0).
  exists s, l, resp. split; [exact E |]. split; [exact Hth |]. split; [exact Hhas |].
  split; [exact Hr |]. split.
  - destruct (dialled s); [reflexivity | cbn [length] in Hn; lia].
  - apply (proj2 (proj2 (Hresp 0%nat S_Done l Hth Hhas)) resp Hr).
Defined.

End Examples.

(** ** Requests and observations *)

(** The handler goroutines that have appended their observation. *)
Definition appended (t : Thread) : nat :=
  match t with
  | Handler (H_AppendHops | H_CheckLen | H_SliceLat | H_SliceHops | H_Unlock
            | H_Done | H_Panic) _ _ => 1
  | _ => 0
  end.

Lemma appended_le_counted (t : Thread) : (appended t <= counted t)%nat.
Proof. destruct t as [[] ? ? | |]; cbn; lia. Qed.

(** The program points of [statsHandler] after [requests.Load()]. *)
Definition loaded (pc : SPc) : bool :=
  match pc with
  | S_LoadErrors | S_LoadViaProxy | S_Detect | S_Probe | S_StoreProbe | S_Compute
  | S_Done | S_Panic => true
  | _ => false
  end.

(** The count of requests a call has loaded covers its snapshot. *)
Definition covers (s : State) (t : Thread) : Prop :=
  match t with
  | StatsHandler pc l =>
      loaded pc = true ->
      exists k, s_totalRequests l = Int64.wrap (Z.of_nat k) /\
        (length (s_latenciesCopy l) <= k <= length (threads s))%nat
  | _ => True
  end.

Definition recorded_ok (s : State) : Prop :=
  length (recorded s) = tsum appended (threads s) /\
  (forall i t, threads s !! i = Some t -> covers s t).

Lemma covers_grow (s s' : State) (t : Thread) :
  (length (threads s) <= length (threads s'))%nat -> covers s t -> covers s' t.
Proof.
  intros Hlen. destruct t as [| pc l |]; cbn [covers]; try tauto.
  intros H Hpc. destruct (H Hpc) as (k & Hk & Hb). exists k. split; [exact Hk | lia].
Qed.

Lemma snapshot_length (s : State) (l : SLocals) :
  snapshot_of s l -> (length (s_latenciesCopy l) <= length (recorded s))%nat.
Proof.
  intros (k & Hk & -> & _). destruct (window_of_length (take k (recorded s))) as [-> _].
  rewrite length_take. lia.
Qed.

Section AnySort.
Context `{srt : SortFloat64s}.

Lemma recorded_ok_step (s s' : State) :
  server_ok s -> recorded_ok s -> step s s' -> recorded_ok s'.
Proof.
  intros (Hc & _ & _ & Hok) (Hn & Ht) Hstep. unfold recorded_ok.
  assert (Hframe : (length (threads s) <= length (threads s'))%nat ->
            forall j u, threads s !! j = Some u -> covers s' u).
  { intros Hlen j u Hj. apply (covers_grow s s' u Hlen), (Ht j u Hj). }
  step_cases Hstep; unfold handler_start in *; state_simpl;
    try (pose proof (Ht _ _ Hth) as Hself; cbn [covers] in Hself);
    try (pose proof (Hok _ _ Hth) as Hsok; cbn [thread_ok stats_ok] in Hsok);
    (split;
     [ repeat match goal with
              | |- context [if ?b then _ else _] => destruct b eqn:?; state_simpl
              end;
       rewrite ?tsum_snoc, ?length_app; cbn [appended length];
       try count_moved appended; try lia
     | ]).
  all: try (apply all_spawn;
            [apply Hframe; rewrite length_app; lia
            | cbn [covers]; try exact I; intros Hf; discriminate Hf]).
  all: try (destruct (hops >? 0); state_simpl).
  all: try (apply all_goto;
            [apply Hframe; cbn; rewrite length_insert; lia
            | intros _; cbn [covers loaded]; locals_simpl; try exact I;
              try (intros Hf; discriminate Hf);
              try (intros Hpc; destruct (Hself eq_refl) as (k & Hk & Hb); exists k;
                   state_simpl; rewrite ?length_insert; split; [exact Hk | lia])]).
  (* requests.Load() *)
  intros _. destruct Hc as (Hr & _). exists (tsum counted (threads s)).
  split; [exact Hr |]. state_simpl. rewrite length_insert.
  destruct Hsok as (_ & _ & Hsnap). apply snapshot_length in Hsnap.
  pose proof (tsum_le appended counted (threads s) appended_le_counted).
  pose proof (tsum_le_length counted (threads s) counted_le_1). lia.
Qed.

Lemma recorded_ok_reachable (s : State) : reachable s -> recorded_ok s.
Proof.
  apply reachable_invariant.
  - split; [reflexivity |]. intros i t [=].
  - intros s0 s' Hs0. apply recorded_ok_step, server_ok_reachable, Hs0.
Qed.

(** X14. Only [handler] counts and records.  [requests] is the number of
    calls of [handler] that have executed [requests.Add(1)] (modulo
    [2^64]), [requestsViaProxy] that of those with a hop, and the
    observations recorded are as many as the calls that have appended; so
    (below [2^63] requests) no more observations were recorded, and the
    window holds no more samples, than [requests] counts.  A step that
    changes the window, the history or one of the two counters is a
    statement of [handler]: [statsHandler] and [debugHeadersHandler] leave
    them alone. *)
Theorem observations_counted (s : State) :
  reachable s ->
  length (recorded s) = tsum appended (threads s) /\
  requests s = Int64.wrap (Z.of_nat (tsum counted (threads s))) /\
  requestsViaProxy s = Int64.wrap (Z.of_nat (tsum counted_via (threads s))) /\
  (Z.of_nat (length (threads s)) <= Int64.max_int ->
     Z.of_nat (length (recorded s)) <= requests s /\
     (writer (mu s) = false ->
        Z.of_nat (length (latencies (store s))) <= requests s)) /\
  (forall s', step s s' ->
     store s' <> store s \/ recorded s' <> recorded s \/
     requests s' <> requests s \/ requestsViaProxy s' <> requestsViaProxy s ->
     exists i pc hops lat,
       threads s !! i = Some (Handler pc hops lat) /\
       handler_step i hops lat pc s s').
Proof.
  intros Hs.
  pose proof (server_ok_reachable s Hs) as (Hc & _ & Hfree & _).
  pose proof (recorded_ok_reachable s Hs) as (Hn & _).
  pose proof Hc as (Hr & Hv & _).
  split; [exact Hn |]. split; [exact Hr |]. split; [exact Hv |]. split.
  - intros Hlen. destruct (counters_in_range s Hc Hlen) as (Hr' & _).
    pose proof (tsum_le appended counted (threads s) appended_le_counted).
    split; [lia |]. intros Hw. rewrite (Hfree Hw).
    destruct (window_of_length (recorded s)) as [-> _]. lia.
  - intros s' Hstep Hch.
    inversion Hstep as [ ? r elapsed | ? r | ? r
                       | ? ? i pc hops lat Hth Hts
                       | ? ? i pc l Hth Hts
                       | ? i r Hth ]; subst;
      try (exists i, pc, hops, lat; split; assumption);
      try (inversion Hts; subst); state_simpl; exfalso;
      destruct Hch as [Hch | [Hch | [Hch | Hch]]]; apply Hch; reflexivity.
Qed.

(** X15. In every answer of [statsHandler] the [requests] reported are at
    least as many as the samples of the snapshot behind the latency figures
    (the snapshot is taken before the counter is loaded, and each sample
    was counted before it was appended); the snapshot holds at most 1000
    samples, as many hop counts as latencies. *)
Theorem requests_cover_samples (s : State) :
  reachable s ->
  Z.of_nat (length (threads s)) <= Int64.max_int ->
  forall i pc l resp,
    threads s !! i = Some (StatsHandler pc l) ->
    s_response l = Some resp ->
    Z.of_nat (length (s_latenciesCopy l)) <= Requests resp /\
    (length (s_latenciesCopy l) <= 1000)%nat /\
    length (s_proxyHopsCopy l) = length (s_latenciesCopy l).
Proof.
  intros Hs Hlen i pc l resp Hi Hresp.
  pose proof (server_ok_reachable s Hs) as Hok.
  pose proof (recorded_ok_reachable s Hs) as (_ & Ht).
  destruct (response_of s i pc l resp Hok Hi Hresp) as (-> & _ & _ & since & f & Hst).
  destruct (computeStats_counters _ _ Hst) as (-> & _).
  cbn [input_of totalRequests].
  destruct (Ht i _ Hi eq_refl) as (k & -> & Hk).
  rewrite Int64_wrap_small
    by (unfold Int64.in_range, Int64.min_int, Int64.max_int in *; lia).
  split; [lia |].
  destruct Hok as (_ & _ & _ & Hth). specialize (Hth i _ Hi).
  cbn [thread_ok stats_ok] in Hth. destruct Hth as (_ & _ & (k0 & _ & -> & ->) & _).
  destruct (window_of_length (take k0 (recorded s))) as [-> ->]. lia.
Qed.

End AnySort.

Section Examples.
#[local] Existing Instance insertion_sort.

Lemma observations_counted_witness :
  exists s,
    run init sched_served = Some s /\
    Z.of_nat (length (threads s)) <= Int64.max_int /\
    length (recorded s) = 1%nat /\ requests s = 1 /\
    Z.of_nat (length (recorded s)) <= requests s.
Proof.
  destruct sched_served_runs as [s E].
  pose proof (run_reachable init s sched_served reachable_init E) as Hs.
  assert (Hlen : Z.of_nat (length (threads s)) <= Int64.max_int).
  { vm_compute in E. injection E as <-. vm_compute. discriminate. }
  destruct (observations_counted s Hs) as (_ & _ & _ & Hle & _).
  exists s. split; [exact E |]. split; [exact Hlen |].
  split; [vm_compute in E; injection E as <-; reflexivity |].
  split; [vm_compute in E; injection E as <-; reflexivity |].
  apply (Hle Hlen).
Defined.

Lemma requests_cover_samples_witness :
  exists s l resp,
    run init sched_served = Some s /\
    Z.of_nat (length (threads s)) <= Int64.max_int /\
    threads s !! 1%nat = Some (StatsHandler S_Done l) /\
    s_response l = Some resp /\
    length (s_latenciesCopy l) = 1%nat /\ Requests resp = 1 /\
    Z.of_nat (length (s_latenciesCopy l)) <= Requests resp.
Proof.
  destruct sched_served_runs as [s E].
  pose proof (run_reachable init s sched_served reachable_init E) as Hs.
  assert (Hlen : Z.of_nat (length (threads s)) <= Int64.max_int).
  { vm_compute in E. injection E as <-. vm_compute. discriminate. }
  assert (Hth : exists l resp,
             threads s !! 1%nat = Some (StatsHandler S_Done l) /\
             s_response l = Some resp /\ length (s_latenciesCopy l) = 1%nat /\
             Requests resp = 1).
  { vm_compute in E. injection E as <-. do 2 eexists.
    split; [reflexivity |]. split; [reflexivity |]. split; reflexivity. }
  destruct Hth as (l & resp & Hth & Hr & Hone & Hreq).
  exists s, l, resp. split; [exact E |]. split; [exact Hlen |]. split; [exact Hth |].
  split; [exact Hr |]. split; [exact Hone |]. split; [exact Hreq |].
  apply (requests_cover_samples s Hs Hlen 1%nat S_Done l resp Hth Hr).
Defined.

End Examples.

(** ** The rate of the probes *)

(** The instants (of the freshness test) of the calls that dial, in a
    sequence of calls. *)
Fixpoint probe_times (c : ProbeCache) (ws : list ProbeWorld) : list Z :=
  match ws with
  | [] => []
  | w :: ws' =>
      let '(_, c1, ev) := istioSidecarPresent c w in
      match ev with
      | [] => probe_times c1 ws'
      | _ :: _ => now_check w :: probe_times c1 ws'
      end
  end.

(** Instants that are at least a cooldown apart, the first one a cooldown
    after [last]. *)
Fixpoint spaced (last : Z) (times : list Z) : Prop :=
  match times with
  | [] => True
  | t :: times' => last + cooldown <= t /\ spaced t times'
  end.

Lemma spaced_earlier (a b : Z) (times : list Z) :
  b <= a -> spaced a times -> spaced b times.
Proof. destruct times as [| t times]; cbn [spaced]; [tauto |]. intros H [H1 H2]. split; [lia | exact H2]. Qed.

Lemma probe_times_spaced (c : ProbeCache) (ws : list ProbeWorld) :
  Forall (fun w => now_check w <= now_store w) ws ->
  spaced (istioLastChecked c) (probe_times c ws).
Proof.
  intros Hws. revert c. induction Hws as [| w ws Hw _ IH]; intros c; cbn [probe_times].
  - exact I.
  - destruct (Z.lt_ge_cases (now_check w - istioLastChecked c) (30 * 1000000000))
      as [Hf | Hs].
    + rewrite istioSidecarPresent_fresh by exact Hf. apply IH.
    + rewrite istioSidecarPresent_stale by (unfold fresh_at; lia).
      cbn [spaced]. split.
      * unfold cooldown, Time.Second. lia.
      * apply spaced_earlier with (a := now_store w); [exact Hw |].
        apply (IH {| istioPresentCached := probeEnvoyAdmin (dial w);
                     istioLastChecked := now_store w |}).
Qed.

Lemma probe_times_events (c : ProbeCache) (ws : list ProbeWorld) :
  (istio_calls c ws).2 = map (fun _ => probeEvent) (probe_times c ws).
Proof.
  revert c. induction ws as [| w ws IH]; intros c; cbn [istio_calls probe_times].
  - reflexivity.
  - destruct (Z.lt_ge_cases (now_check w - istioLastChecked c) (30 * 1000000000))
      as [Hf | Hs].
    + rewrite istioSidecarPresent_fresh by exact Hf.
      specialize (IH c). destruct (istio_calls c ws) as [[bs c2] ev2].
      cbn [snd app] in *. exact IH.
    + rewrite istioSidecarPresent_stale by (unfold fresh_at; lia).
      match goal with
      | |- context [istio_calls ?c1 ws] =>
          specialize (IH c1); destruct (istio_calls c1 ws) as [[bs c2] ev2]
      end.
      cbn [snd app map] in *. rewrite IH. reflexivity.
Qed.

Lemma spaced_lookup (last : Z) (times : list Z) (i : nat) (t1 t2 : Z) :
  spaced last times -> times !! i = Some t1 -> times !! S i = Some t2 ->
  t1 + cooldown <= t2.
Proof.
  revert last i. induction times as [| t times IH]; intros last i Hs H1 H2.
  - discriminate.
  - destruct Hs as [_ Hs]. destruct i as [| i]; cbn in H1, H2.
    + injection H1 as <-. destruct times as [| t' times]; [discriminate |].
      injection H2 as <-. apply Hs.
    + apply (IH t i Hs H1 H2).
Qed.

(** Calls every ten seconds for two minutes, from a cache checked at
    second 1000. *)
Definition worlds_example : list ProbeWorld :=
  map (fun k => {| now_check := (1000 + 10 * Z.of_nat k) * Time.Second;
                   dial := DialRefused;
                   now_store := (1000 + 10 * Z.of_nat k) * Time.Second
                                + 2 * Time.Millisecond |})
      (seq 1 12).

(** X16. Calls of [istioSidecarPresent] made one after the other dial at
    most once in 30 seconds: when the clock does not go back during a
    call, the first probe comes 30 seconds or more after the last check,
    and each further probe 30 seconds or more after the probe before
    it. *)
Theorem probes_a_cooldown_apart (c : ProbeCache) (ws : list ProbeWorld) :
  Forall (fun w => now_check w <= now_store w) ws ->
  (istio_calls c ws).2 = map (fun _ => probeEvent) (probe_times c ws) /\
  (forall t, In t (probe_times c ws) -> istioLastChecked c + 30 * Time.Second <= t) /\
  (forall i t1 t2,
     probe_times c ws !! i = Some t1 -> probe_times c ws !! S i = Some t2 ->
     t1 + 30 * Time.Second <= t2).
Proof.
  intros Hws. pose proof (probe_times_spaced c ws Hws) as Hsp.
  split; [apply probe_times_events |]. split.
  - revert Hsp. generalize (istioLastChecked c) as last.
    induction (probe_times c ws) as [| t0 times IH]; intros last Hsp t Hin.
    + destruct Hin.
    + destruct Hsp as [H0 Hsp]. destruct Hin as [<- | Hin]; [exact H0 |].
      specialize (IH t0 Hsp t Hin). unfold cooldown, Time.Second in *. lia.
  - intros i t1 t2. apply (spaced_lookup _ _ _ _ _ Hsp).
Qed.

Lemma probes_a_cooldown_apart_witness :
  Forall (fun w => now_check w <= now_store w) worlds_example /\
  probe_times cache_example worlds_example =
    [1030 * Time.Second; 1070 * Time.Second; 1110 * Time.Second] /\
  length (istio_calls cache_example worlds_example).2 = 3%nat.
Proof.
  assert (Hws : Forall (fun w => now_check w <= now_store w) worlds_example).
  { unfold worlds_example. apply List.Forall_forall. intros w Hw.
    apply in_map_iff in Hw as (k & <- & _). cbn. unfold Time.Millisecond. lia. }
  split; [exact Hws |]. split; [vm_compute; reflexivity |].
  destruct (probes_a_cooldown_apart cache_example worlds_example Hws) as (-> & _).
  vm_compute. reflexivity.
Defined.

Section MeminfoScan.

Variable Fields : string -> list string.
Variable ParseFloat : string -> option F64.float64.

(** The number a line gives for a key: the line starts with the key, has
    two fields at least, and the second one parses. *)
Definition line_kb (prefix line : string) : option F64.float64 :=
  if String.prefix prefix line then
    match Fields line with
    | _ :: field :: _ => ParseFloat field
    | _ => None
    end
  else None.

(** The number of the first line that gives one. *)
Definition first_kb (prefix : string) (lines : list string) : option F64.float64 :=
  head (omap (line_kb prefix) lines).

Lemma scan_first_kb (prefix : string) (lines : list string) :
  Meminfo.scan Fields ParseFloat prefix lines =
    match first_kb prefix lines with
    | Some kb => round (F64.div kb F64.c1024)
    | None => F64.zero
    end.
Proof.
  unfold first_kb. induction lines as [| line rest IH]; cbn [Meminfo.scan omap list_omap].
  - reflexivity.
  - unfold line_kb at 1. destruct (String.prefix prefix line); [| exact IH].
    destruct (Fields line) as [| f0 [| f1 fs]]; cbn [length nth]; try exact IH.
    destruct (Z.geb_spec (Z.of_nat (S (S (length fs)))) 2) as [_ | Hlt]; [| lia].
    destruct (ParseFloat f1); [reflexivity | exact IH].
Qed.

Lemma first_kb_filter (prefix : string) (lines : list string) :
  first_kb prefix (List.filter (String.prefix prefix) lines) = first_kb prefix lines.
Proof.
  unfold first_kb. induction lines as [| line rest IH]; cbn [List.filter omap list_omap].
  - reflexivity.
  - unfold line_kb at 2. destruct (String.prefix prefix line) eqn:E.
    + cbn [omap list_omap]. unfold line_kb at 1. rewrite E.
      destruct (match Fields line with _ :: field :: _ => ParseFloat field | _ => None end);
        [reflexivity | exact IH].
    + exact IH.
Qed.

(** X17. [getTotalMemoryMB] and [getAvailableMemoryMB] answer 0 when the
    file does not open; otherwise [round] of a 1024th of the number of the
    first line that starts with the key, has two fields or more and a
    second field that parses, and 0 when there is no such line: a line of
    the key that does not parse is passed over.  Lines that do not start
    with the key do not matter.  The memory figures of the statistics are
    these, for host facts that give that first number. *)
Theorem meminfo_first_number (file : option (list string)) :
  let total := Meminfo.getTotalMemoryMB Fields ParseFloat file in
  let available := Meminfo.getAvailableMemoryMB Fields ParseFloat file in
  let MB (kb : option F64.float64) :=
    match kb with
    | Some kb => round (F64.div kb F64.c1024)
    | None => F64.zero
    end in
  total = MB (file ≫= first_kb "MemTotal:") /\
  available = MB (file ≫= first_kb "MemAvailable:") /\
  (forall prefix lines,
     Meminfo.scan Fields ParseFloat prefix lines =
       Meminfo.scan Fields ParseFloat prefix
         (List.filter (String.prefix prefix) lines)) /\
  (forall f : Host.Facts,
     (Host.MemTotal_kb f = file ≫= first_kb "MemTotal:" -> getTotalMemoryMB f = total) /\
     (Host.MemAvailable_kb f = file ≫= first_kb "MemAvailable:" ->
        getAvailableMemoryMB f = available)).
Proof.
  cbn zeta.
  assert (Ht : Meminfo.getTotalMemoryMB Fields ParseFloat file =
               match file ≫= first_kb "MemTotal:" with
               | Some kb => round (F64.div kb F64.c1024)
               | None => F64.zero
               end).
  { destruct file as [lines |]; [apply scan_first_kb | reflexivity]. }
  assert (Ha : Meminfo.getAvailableMemoryMB Fields ParseFloat file =
               match file ≫= first_kb "MemAvailable:" with
               | Some kb => round (F64.div kb F64.c1024)
               | None => F64.zero
               end).
  { destruct file as [lines |]; [apply scan_first_kb | reflexivity]. }
  split; [exact Ht |]. split; [exact Ha |]. split.
  - intros prefix lines. rewrite !scan_first_kb, first_kb_filter. reflexivity.
  - intros f. unfold getTotalMemoryMB, getAvailableMemoryMB. split.
    + intros ->. symmetry. exact Ht.
    + intros ->. symmetry. exact Ha.
Qed.

End MeminfoScan.
